(** * Menu extractor backend: the extraction-resolution pipeline

    A shallow embedding of the cache resolution chain
    ([app/api/v1/endpoints.py]), the OCR fan-out ([app/services/ocr.py]),
    the chunking and merging normalizer ([app/services/normalizer.py]),
    the durable-store lookup ([app/services/mongo_service.py]) and the
    image-source resolver ([app/services/serpapi_service.py]), followed by
    the properties of these functions.

    Conventions.  Python [str] is [string]; a decoded JSON value is [json];
    a Python [dict] is an association list in insertion order, read with
    [assoc] (first binding); a Python exception is [Raise] in the [result]
    monad; calls to external services are oracles of the [world] record and
    leave an [event] in the trace of the [M] monad.  Wall-clock timings are
    left out: they are observability only. *)

From Stdlib Require Import List String Ascii Bool Arith ZArith Lia.
From Stdlib Require Import Permutation Sorted.
Import ListNotations.

Local Open Scope string_scope.
Local Open Scope list_scope.

(* ================================================================== *)
(** ** Python values and exceptions *)

Module Py.

(** A value produced by [json.loads] (numbers restricted to integers). *)
#[local] Unset Elimination Schemes.
Inductive json : Type :=
| JNull
| JBool (b : bool)
| JNum (z : Z)
| JStr (s : string)
| JList (l : list json)
| JDict (d : list (string * json)).
#[local] Set Elimination Schemes.

Inductive error : Type :=
| HTTPException (status_code : nat) (detail : string)
| PyError.   (* TypeError, AttributeError, KeyError, ... *)

Inductive result (A : Type) : Type :=
| Ok (a : A)
| Raise (e : error).
Arguments Ok {A} a.
Arguments Raise {A} e.

Definition rbind {A B} (r : result A) (f : A -> result B) : result B :=
  match r with
  | Ok a => f a
  | Raise e => Raise e
  end.

Definition is_ok {A} (r : result A) : bool :=
  match r with Ok _ => true | Raise _ => false end.

(** [d.get(k)] / [d[k]] on an association list: the first binding. *)
Fixpoint assoc {V} (k : string) (d : list (string * V)) : option V :=
  match d with
  | [] => None
  | (k', v) :: d' => if String.eqb k k' then Some v else assoc k d'
  end.

(** [d[k] = v] for a key that may be present: replaces in place, else
    appends (insertion order). *)
Fixpoint assoc_set {V} (k : string) (v : V) (d : list (string * V))
  : list (string * V) :=
  match d with
  | [] => [(k, v)]
  | (k', v') :: d' =>
      if String.eqb k k' then (k, v) :: d' else (k', v') :: assoc_set k v d'
  end.

Definition keys {V} (d : list (string * V)) : list string := map fst d.
Definition values {V} (d : list (string * V)) : list V := map snd d.

(** Python truthiness of a decoded value. *)
Definition truthy (v : json) : bool :=
  match v with
  | JNull => false
  | JBool b => b
  | JNum z => negb (Z.eqb z 0)
  | JStr s => negb (String.eqb s "")
  | JList l => match l with [] => false | _ => true end
  | JDict d => match d with [] => false | _ => true end
  end.

Definition str_truthy (s : string) : bool := negb (String.eqb s "").

Definition opt_str_truthy (o : option string) : bool :=
  match o with Some s => str_truthy s | None => false end.

(** [prefix in s] at position 0. *)
Fixpoint starts_with (p s : string) : bool :=
  match p, s with
  | EmptyString, _ => true
  | String a p', String b s' => Ascii.eqb a b && starts_with p' s'
  | String _ _, EmptyString => false
  end.

(** [p in s] for two strings: substring test. *)
Fixpoint str_contains (p s : string) : bool :=
  starts_with p s ||
  match s with
  | EmptyString => false
  | String _ s' => str_contains p s'
  end.

Definition is_jstr (k : string) (v : json) : bool :=
  match v with JStr s => String.eqb k s | _ => false end.

(** [k in v] for a string [k]: key membership on a dict, element
    membership on a list, substring on a string, TypeError otherwise. *)
Definition py_in (k : string) (v : json) : result bool :=
  match v with
  | JDict d => Ok (match assoc k d with Some _ => true | None => false end)
  | JList l => Ok (existsb (is_jstr k) l)
  | JStr s => Ok (str_contains k s)
  | _ => Raise PyError
  end.

(** [v[k]] for a string [k]: only a dict holding [k] answers. *)
Definition py_index (v : json) (k : string) : result json :=
  match v with
  | JDict d => match assoc k d with Some x => Ok x | None => Raise PyError end
  | _ => Raise PyError
  end.

(** [v.get(k, default)]. *)
Definition py_get (v : json) (k : string) (default : json) : result json :=
  match v with
  | JDict d => Ok (match assoc k d with Some x => x | None => default end)
  | _ => Raise PyError
  end.

(** [v.values()] and [v.items()]. *)
Definition py_values (v : json) : result (list json) :=
  match v with
  | JDict d => Ok (values d)
  | _ => Raise PyError
  end.

Definition py_items (v : json) : result (list (string * json)) :=
  match v with
  | JDict d => Ok d
  | _ => Raise PyError
  end.

(** [v > 0]: numbers compare ([bool] is an [int]); anything else against
    an [int] is a TypeError. *)
Definition py_gt0 (v : json) : result bool :=
  match v with
  | JNum z => Ok (Z.ltb 0 z)
  | JBool b => Ok b
  | _ => Raise PyError
  end.

(** [isinstance(v, list)] with the length when it is one. *)
Definition list_len (v : json) : nat :=
  match v with JList l => List.length l | _ => 0 end.

Definition is_nonempty_list (v : json) : bool :=
  match v with JList (_ :: _) => true | _ => false end.

(** *** Strings *)

Definition nl : ascii := "010"%char.
Definition nlnl : string := String nl (String nl EmptyString).

(** [str.isspace] on the ASCII range: TAB, LF, VT, FF, CR, FS, GS, RS, US
    and the space. *)
Definition is_space (c : ascii) : bool :=
  let n := nat_of_ascii c in
  ((9 <=? n)%nat && (n <=? 13)%nat) || ((28 <=? n)%nat && (n <=? 32)%nat).

Fixpoint lstrip (s : string) : string :=
  match s with
  | EmptyString => EmptyString
  | String c s' => if is_space c then lstrip s' else s
  end.

Fixpoint rstrip (s : string) : string :=
  match s with
  | EmptyString => EmptyString
  | String c s' =>
      match rstrip s' with
      | EmptyString => if is_space c then EmptyString else String c EmptyString
      | r => String c r
      end
  end.

Definition strip (s : string) : string := rstrip (lstrip s).

(** [s.split("\n\n")]: leftmost, non-overlapping separators; never empty. *)
Fixpoint split_nlnl (s : string) : list string :=
  match s with
  | EmptyString => [EmptyString]
  | String c s' =>
      match s' with
      | String c' s'' =>
          if Ascii.eqb c nl && Ascii.eqb c' nl
          then EmptyString :: split_nlnl s''
          else match split_nlnl s' with
               | p :: ps => String c p :: ps
               | [] => [String c EmptyString]
               end
      | EmptyString => [String c EmptyString]
      end
  end.

(** [sep.join(l)]. *)
Fixpoint join (sep : string) (l : list string) : string :=
  match l with
  | [] => EmptyString
  | [s] => s
  | s :: l' => (s ++ sep ++ join sep l')%string
  end.

(** [s[:n]]. *)
Definition take (n : nat) (s : string) : string := substring 0 n s.

(** [c * n] for a one-character string. *)
Fixpoint replicate (n : nat) (c : ascii) : string :=
  match n with
  | O => EmptyString
  | S n' => String c (replicate n' c)
  end.

End Py.
Export Py.

Declare Scope result_scope.
Notation "x <- c1 ;; c2" := (rbind c1 (fun x => c2))
  (at level 100, c1 at next level, right associativity) : result_scope.
Delimit Scope result_scope with result.

(* ================================================================== *)
(** ** External services and the effect monad *)

Module Effects.

(** One entry per call that leaves the process. *)
Inductive event : Type :=
| RedisGet (key : string)
| RedisSet (key : string) (data : json)
| MongoFind (restaurant_name : string)
| MongoSave (document : list (string * json))
| SerpSearch (query : string)
| SerpPhotos (data_id : string)
| VisionOcr (url : string)
| GeminiCall (chunk : string).

(** A computation: the calls made so far and a value or an exception. *)
Definition M (A : Type) : Type := list event * result A.

Definition ret {A} (a : A) : M A := ([], Ok a).

Definition bind {A B} (c : M A) (f : A -> M B) : M B :=
  match c with
  | (t, Ok a) => let '(t', r) := f a in (t ++ t', r)
  | (t, Raise e) => (t, Raise e)
  end.

Definition emit (e : event) : M unit := ([e], Ok tt).

Definition raise {A} (e : error) : M A := ([], Raise e).

Definition lift {A} (r : result A) : M A := ([], r).

(** [try: c except Exception: h] *)
Definition try_except {A} (c : M A) (h : M A) : M A :=
  match c with
  | (t, Ok a) => (t, Ok a)
  | (t, Raise _) => let '(t', r) := h in (t ++ t', r)
  end.

Definition trace {A} (c : M A) : list event := fst c.
Definition outcome_of {A} (c : M A) : result A := snd c.

End Effects.
Export Effects.

Declare Scope io_scope.
Notation "x <- c1 ;; c2" := (bind c1 (fun x => c2))
  (at level 100, c1 at next level, right associativity) : io_scope.
Notation "c1 ;;; c2" := (bind c1 (fun _ => c2))
  (at level 100, right associativity) : io_scope.
Delimit Scope io_scope with io.

(* ================================================================== *)
(** ** app/services/normalizer.py *)

Module Normalizer.

(** The running [combined_menu]: veg group -> category -> items.  It is
    built by [normalize] as a dict of dicts of lists and [_merge_menus]
    only ever extends those lists, so the target carries this type; what
    the backend returned stays an untyped [json]. *)
Definition slots : Type := list (string * list json).
Definition menu : Type := list (string * slots).

Definition veg_types : list string := ["vegetarian"; "non_vegetarian"].

Definition vegetarian_categories : list string :=
  ["starters"; "main_course"; "rice_and_biryani"; "breads"; "desserts";
   "beverages"].

Definition non_vegetarian_categories : list string :=
  ["starters"; "main_course"; "seafood"; "rice_and_biryani"; "desserts";
   "beverages"].

Definition empty_slots (cats : list string) : slots :=
  map (fun c => (c, @nil json)) cats.

(** The literal of lines 60-63. *)
Definition combined_menu0 : menu :=
  [("vegetarian", empty_slots vegetarian_categories);
   ("non_vegetarian", empty_slots non_vegetarian_categories)].

Definition slots_to_json (s : slots) : json :=
  JDict (map (fun kv => (fst kv, JList (snd kv))) s).

Definition menu_to_json (m : menu) : json :=
  JDict (map (fun kv => (fst kv, slots_to_json (snd kv))) m).

(** *** [_count_items] *)

(** The body of the loop for one [veg_type]. *)
Definition count_group (menu : json) (veg_type : string) : result nat :=
  (b <- py_in veg_type menu ;;
   if b then
     g <- py_index menu veg_type ;;
     vs <- py_values g ;;
     Ok (list_sum (map list_len vs))
   else Ok 0)%result.

Fixpoint count_loop (menu : json) (vts : list string) (count : nat)
  : result nat :=
  match vts with
  | [] => Ok count
  | veg_type :: rest =>
      (c <- count_group menu veg_type ;; count_loop menu rest (count + c))%result
  end.

Definition count_items (menu : json) : result nat :=
  count_loop menu veg_types 0.

(** *** [_split_text] *)

(** One iteration of the loop over paragraphs; the state is
    [(chunks, current)]. *)
Definition split_step (chunk_size : nat) (st : list string * string)
  (para : string) : list string * string :=
  let '(chunks, current) := st in
  if (String.length current + String.length para <? chunk_size)%nat
  then (chunks, (current ++ para ++ nlnl)%string)
  else ((if str_truthy current then chunks ++ [strip current] else chunks),
        (para ++ nlnl)%string).

Definition split_text (text : string) (chunk_size : nat) : list string :=
  let '(chunks, current) :=
    fold_left (split_step chunk_size) (split_nlnl text) ([], EmptyString) in
  let chunks :=
    if str_truthy current then chunks ++ [strip current] else chunks in
  match chunks with
  | [] => [take chunk_size text]
  | _ => chunks
  end.

(** *** [_merge_menus] *)

(** [target[veg_type][category].extend(items)] on the binding of
    [category]. *)
Fixpoint extend_at (category : string) (items : list json) (s : slots)
  : slots :=
  match s with
  | [] => []
  | (k, old) :: s' =>
      if String.eqb category k then (k, old ++ items) :: s'
      else (k, old) :: extend_at category items s'
  end.

(** The loop over [source[veg_type].items()].  [tg] is [target[veg_type]];
    it is looked up only once an entry is a list, and a missing group is
    then a KeyError. *)
Fixpoint merge_items (tg : option slots) (src : list (string * json))
  : result (option slots) :=
  match src with
  | [] => Ok tg
  | (category, items) :: rest =>
      match items with
      | JList l =>
          match tg with
          | None => Raise PyError
          | Some s =>
              match assoc category s with
              | Some _ => merge_items (Some (extend_at category l s)) rest
              | None => merge_items tg rest
              end
          end
      | _ => merge_items tg rest
      end
  end.

(** Stores the extended group back at its binding. *)
Fixpoint replace_at {V} (k : string) (v : V) (d : list (string * V))
  : list (string * V) :=
  match d with
  | [] => []
  | (k', v') :: d' =>
      if String.eqb k k' then (k', v) :: d' else (k', v') :: replace_at k v d'
  end.

Definition merge_group (target : menu) (source : json) (veg_type : string)
  : result menu :=
  (b <- py_in veg_type source ;;
   if b then
     g <- py_index source veg_type ;;
     src <- py_items g ;;
     r <- merge_items (assoc veg_type target) src ;;
     Ok (match r with
         | Some s => replace_at veg_type s target
         | None => target
         end)
   else Ok target)%result.

Fixpoint merge_loop (target : menu) (source : json) (vts : list string)
  : result menu :=
  match vts with
  | [] => Ok target
  | veg_type :: rest =>
      (t <- merge_group target source veg_type ;; merge_loop t source rest)%result
  end.

Definition merge_menus (target : menu) (source : json) : result menu :=
  merge_loop target source veg_types.

(** *** [_parse_chunk] and [normalize] *)

(** What a chunk task returns: [{"menu": parsed}] or [{"error": ...}]. *)
Inductive chunk_result : Type :=
| ChunkMenu (parsed : json)
| ChunkError.

(** The structuring backend: restaurant name and chunk text to the decoded
    JSON answer, [None] when the call raises or the answer does not decode
    (the prompt template and the code-fence stripping are inside). *)
Definition backend : Type := string -> string -> option json.

(** [_count_items(parsed)] runs inside the [try]: an answer it cannot walk
    becomes an error result. *)
Definition parse_chunk (model : backend) (text restaurant_name : string)
  : M chunk_result :=
  (emit (GeminiCall text) ;;;
   ret (match model restaurant_name text with
        | Some parsed =>
            match count_items parsed with
            | Ok _ => ChunkMenu parsed
            | Raise _ => ChunkError
            end
        | None => ChunkError
        end))%io.

Fixpoint gather_chunks (model : backend) (restaurant_name : string)
  (chunks : list string) : M (list chunk_result) :=
  match chunks with
  | [] => ret []
  | c :: rest =>
      (r <- parse_chunk model c restaurant_name ;;
       rs <- gather_chunks model restaurant_name rest ;;
       ret (r :: rs))%io
  end.

(** The loop of lines 65-67. *)
Fixpoint merge_results (combined_menu : menu) (results : list chunk_result)
  : result menu :=
  match results with
  | [] => Ok combined_menu
  | ChunkMenu parsed :: rest =>
      (t <- merge_menus combined_menu parsed ;; merge_results t rest)%result
  | ChunkError :: rest => merge_results combined_menu rest
  end.

(** What [normalize] returns: [{"error": msg}] or
    [{"menu": .., "items_count": .., "chunks": ..}]. *)
Inductive normalized : Type :=
| NormError (msg : string)
| NormMenu (menu : menu) (items_count : nat) (chunks : nat).

Definition min_text_length : nat := 50.
Definition chunk_size : nat := 2000.

Definition normalize (model : option backend) (raw_text : string)
  (restaurant_name : string) : M normalized :=
  match model with
  | None => ret (NormError "Gemini not configured")
  | Some model =>
      if negb (str_truthy raw_text)
         || (String.length raw_text <? min_text_length)%nat
      then ret (NormError "Insufficient text")
      else
        (let chunks := split_text raw_text chunk_size in
         results <- gather_chunks model restaurant_name chunks ;;
         combined_menu <- lift (merge_results combined_menu0 results) ;;
         items_count <- lift (count_items (menu_to_json combined_menu)) ;;
         ret (NormMenu combined_menu items_count (List.length chunks)))%io
  end.

End Normalizer.

(* ================================================================== *)
(** ** app/services/ocr.py *)

Module Ocr.

(** The Vision client: [text_detection] on an image URL gives the
    descriptions of [text_annotations], [None] when the call raises. *)
Definition vision : Type := string -> option (list string).

(** The value of [_ocr_image_from_url]: the first annotation, and the empty
    string when there is none or the call failed. *)
Definition ocr_text (client : vision) (url : string) : string :=
  match client url with
  | Some (text :: _) => text
  | Some [] => EmptyString
  | None => EmptyString
  end.

Definition ocr_image_from_url (client : vision) (url : string) (index : nat)
  : M (nat * string) :=
  (emit (VisionOcr url) ;;; ret (index, ocr_text client url))%io.

(** [enumerate(l)], counting from [i]. *)
Fixpoint enumerate_from {A} (i : nat) (l : list A) : list (nat * A) :=
  match l with
  | [] => []
  | x :: l' => (i, x) :: enumerate_from (S i) l'
  end.

Definition enumerate {A} (l : list A) : list (nat * A) := enumerate_from 0 l.

(** [asyncio.gather] over the tasks: one result per task, at the position
    of its task. *)
Fixpoint gather_ocr (client : vision) (tasks : list (nat * string))
  : M (list (nat * string)) :=
  match tasks with
  | [] => ret []
  | (i, url) :: rest =>
      (r <- ocr_image_from_url client url i ;;
       rs <- gather_ocr client rest ;;
       ret (r :: rs))%io
  end.

(** [sorted(ocr_results, key=lambda x: x[0])]: a stable sort on the
    index. *)
Fixpoint insert_by_index (x : nat * string) (l : list (nat * string))
  : list (nat * string) :=
  match l with
  | [] => [x]
  | y :: l' =>
      if (fst x <=? fst y)%nat then x :: y :: l'
      else y :: insert_by_index x l'
  end.

Definition sorted_by_index (l : list (nat * string)) : list (nat * string) :=
  fold_right insert_by_index [] l.

Record ocr_item : Type := { raw_text : string; image_index : nat }.

Record ocr_output : Type := {
  source : string;
  items : list ocr_item;
  combined_text : string
}.

(** The separator between per-image blocks: blank line, three dashes,
    blank line. *)
Definition separator : string :=
  (nlnl ++ "---" ++ nlnl)%string.

(** The loop of lines 94-97 over the sorted results: [(items, all_text)]. *)
Fixpoint collect (rs : list (nat * string)) : list ocr_item * list string :=
  match rs with
  | [] => ([], [])
  | (i, text) :: rest =>
      let '(items, all_text) := collect rest in
      if str_truthy text
      then ({| raw_text := text; image_index := i |} :: items,
            text :: all_text)
      else (items, all_text)
  end.

(** Everything after the gather. *)
Definition combine_results (ocr_results : list (nat * string)) : ocr_output :=
  let '(items, all_text) := collect (sorted_by_index ocr_results) in
  {| source := "google_vision";
     items := items;
     combined_text := join separator all_text |}.

Definition process_images (client : vision) (image_urls : list string)
  : M ocr_output :=
  match image_urls with
  | [] => ret {| source := "google_vision"; items := [];
                 combined_text := EmptyString |}
  | _ =>
      (ocr_results <- gather_ocr client (enumerate image_urls) ;;
       ret (combine_results ocr_results))%io
  end.

(** The list the gather hands back, without the trace. *)
Definition ocr_results (client : vision) (image_urls : list string)
  : list (nat * string) :=
  map (fun p => (fst p, ocr_text client (snd p))) (enumerate image_urls).

End Ocr.

(* ================================================================== *)
(** ** app/services/mongo_service.py *)

Module Mongo.

(** *** The store's pattern matching

    [get_menu] hands the query strings to the store as [$regex] with option
    [i].  The store's matcher is outside the repository; the fragment of
    its pattern language given a meaning here is: ordinary characters, the
    dot, and one of the postfix operators [*], [+], [?] after a character
    or dot.  [compile] answers [None] on every other pattern, which
    [get_menu] below turns into an exception: nothing is claimed about
    them. *)

Inductive atom : Type := Lit (c : ascii) | Dot.
Inductive quant : Type := One | Opt | Star | Plus.
Definition pattern : Type := list (atom * quant).

Definition lower (c : ascii) : ascii :=
  let n := nat_of_ascii c in
  if (65 <=? n)%nat && (n <=? 90)%nat then ascii_of_nat (n + 32) else c.

Definition atom_matches (a : atom) (c : ascii) : bool :=
  match a with
  | Lit x => Ascii.eqb (lower x) (lower c)
  | Dot => negb (Ascii.eqb c nl)
  end.

Definition quant_of (c : ascii) : option quant :=
  if Ascii.eqb c "*" then Some Star
  else if Ascii.eqb c "+" then Some Plus
  else if Ascii.eqb c "?" then Some Opt
  else None.

(** The other characters with a meaning of their own in a pattern. *)
Definition is_special (c : ascii) : bool :=
  existsb (Ascii.eqb c)
    ["\"; "^"; "$"; "|"; "("; ")"; "["; "]"; "{"; "}"]%char.

Definition is_meta (c : ascii) : bool :=
  Ascii.eqb c "." || is_special c
  || match quant_of c with Some _ => true | None => false end.

Definition atom_of (c : ascii) : atom :=
  if Ascii.eqb c "." then Dot else Lit c.

Fixpoint compile (s : string) : option pattern :=
  match s with
  | EmptyString => Some []
  | String c s' =>
      if is_special c then None
      else match quant_of c with
           | Some _ => None      (* nothing to repeat *)
           | None =>
               match s' with
               | String q s'' =>
                   match quant_of q with
                   | Some qu =>
                       option_map (cons (atom_of c, qu)) (compile s'')
                   | None =>
                       option_map (cons (atom_of c, One)) (compile s')
                   end
               | EmptyString => Some [(atom_of c, One)]
               end
           end
  end.

(** Does the pattern match a prefix of the subject? *)
Fixpoint match_here (p : pattern) : string -> bool :=
  match p with
  | [] => fun _ => true
  | (a, q) :: p' =>
      let rest := match_here p' in
      let one := fun s =>
        match s with
        | String c s' => atom_matches a c && rest s'
        | EmptyString => false
        end in
      let star := fix star (s : string) : bool :=
        rest s ||
        match s with
        | String c s' => atom_matches a c && star s'
        | EmptyString => false
        end in
      match q with
      | One => one
      | Opt => fun s => rest s || one s
      | Star => star
      | Plus => fun s =>
          match s with
          | String c s' => atom_matches a c && star s'
          | EmptyString => false
          end
      end
  end.

(** An unanchored pattern matches anywhere in the subject. *)
Fixpoint search (p : pattern) (s : string) : bool :=
  match_here p s ||
  match s with
  | String _ s' => search p s'
  | EmptyString => false
  end.

(** *** [get_menu] *)

Definition document : Type := list (string * json).

Definition field_matches (p : pattern) (doc : document) (field : string)
  : bool :=
  match assoc field doc with
  | Some (JStr s) => search p s
  | _ => false
  end.

(** The query dict: the name pattern and, when a location is given, the
    location pattern. *)
Definition query_matches (pn : pattern) (pl : option pattern)
  (doc : document) : bool :=
  field_matches pn doc "restaurant_name"
  && match pl with
     | Some p => field_matches p doc "location"
     | None => true
     end.

Definition get_menu (menus : list document)
  (restaurant_name location : option string) : M (option document) :=
  match restaurant_name with
  | None => ret None
  | Some name =>
      if negb (str_truthy name) then ret None
      else
        (emit (MongoFind name) ;;;
         match compile name with
         | None => raise PyError
         | Some pn =>
             match location with
             | Some loc =>
                 if str_truthy loc then
                   match compile loc with
                   | None => raise PyError
                   | Some pl => ret (find (query_matches pn (Some pl)) menus)
                   end
                 else ret (find (query_matches pn None) menus)
             | None => ret (find (query_matches pn None) menus)
             end
         end)%io
  end.

End Mongo.

(* ================================================================== *)
(** ** app/services/serpapi_service.py *)

Module Serp.

(** A place of the search answer and a photo of the photos answer, with
    the fields the service reads. *)
Record place : Type := {
  title : option string;
  address : option string;
  rating : json;
  reviews : json;
  phone : option string;
  data_id : option string
}.

Record photo : Type := { image : option string }.

Record restaurant_info : Type := {
  name : string;
  r_address : string;
  r_rating : json;
  r_reviews : json;
  r_phone : string;
  r_data_id : option string
}.

(** The dict [extract_menu_images] returns; a key that is absent is
    [None]. *)
Record serp_result : Type := {
  restaurant : option restaurant_info;
  image_urls : option (list string);
  error : option string
}.

(** The two calls of the client: [_search_restaurant] (first of
    [place_results], [local_results]) and [_get_menu_photos], as the
    answers of calls that return (a call that raises is not part of this
    record). *)
Record client : Type := {
  search : string -> option place;
  photos : string -> list photo
}.

Definition or_else (o : option string) (d : string) : string :=
  match o with Some s => s | None => d end.

(** [a or d] on strings. *)
Definition str_or (o : option string) (d : string) : string :=
  match o with
  | Some s => if str_truthy s then s else d
  | None => d
  end.

(** [f"{x}"] for an optional string. *)
Definition fmt (o : option string) : string := or_else o "None".

Definition search_restaurant (c : client) (restaurant_name location : string)
  : M (option place) :=
  (let query := strip (restaurant_name ++ " " ++ location)%string in
   emit (SerpSearch query) ;;; ret (search c query))%io.

Definition get_menu_photos (c : client) (data_id : string) : M (list photo) :=
  (emit (SerpPhotos data_id) ;;; ret (photos c data_id))%io.

(** The loop of step 3: the non-empty [image] of each photo. *)
Fixpoint collect_urls (ps : list photo) : list string :=
  match ps with
  | [] => []
  | p :: rest =>
      let url := or_else (image p) "" in
      if str_truthy url then url :: collect_urls rest else collect_urls rest
  end.

Definition extract_menu_images (c : client)
  (restaurant_name : option string) (location : string) (max_images : nat)
  (google_maps_url : option string) : M serp_result :=
  (let search_query :=
     if opt_str_truthy google_maps_url then or_else google_maps_url ""
     else (fmt restaurant_name ++ " " ++ location)%string in
   found <- search_restaurant c search_query "" ;;
   match found with
   | None =>
       ret {| restaurant := None; image_urls := None;
              error := Some "Restaurant not found on Google Maps" |}
   | Some pl =>
       let final_name :=
         or_else (title pl) (str_or restaurant_name "Unknown Restaurant") in
       let info :=
         {| name := final_name;
            r_address := or_else (address pl) "";
            r_rating := rating pl;
            r_reviews := reviews pl;
            r_phone := or_else (phone pl) "";
            r_data_id := data_id pl |} in
       if negb (opt_str_truthy (data_id pl)) then
         ret {| restaurant := Some info; image_urls := Some [];
                error := Some "No data_id found" |}
       else
         ps <- get_menu_photos c (or_else (data_id pl) "") ;;
         let photos_to_process :=
           if (max_images =? 0)%nat then ps else firstn max_images ps in
         ret {| restaurant := Some info;
                image_urls := Some (collect_urls photos_to_process);
                error := None |}
   end)%io.

End Serp.

(* ================================================================== *)
(** ** app/api/v1/endpoints.py *)

Module Endpoints.

Import Normalizer Ocr Mongo Serp.

Record MenuRequest : Type := {
  restaurant_name : option string;
  location : option string;
  google_maps_url : option string
}.

(** The services a request reaches, their clients taken as constructed.
    [redis_get] is [CacheService.get_menu] (the decoded entry, [None] on a
    miss or a cache error), [menus] the collection of the durable store. *)
Record world : Type := {
  redis_get : string -> option json;
  menus : list document;
  serpapi : Serp.client;
  text_detection : vision;
  gemini_model : option backend
}.

Record meta : Type := {
  sources : list string;
  images_processed : nat;
  ocr_chars : nat;
  items_count : nat
}.

(** The four dicts [extract_menu] returns. *)
Inductive response : Type :=
| CacheHit (cached : list (string * json))
    (* {**cached, "source": "cache"} *)
| MongoHit (restaurant menu meta : json)
    (* {..., "source": "mongodb"} *)
| NoText (restaurant : option restaurant_info)
    (* {"menu": None, "error": "No text extracted from menu images", ...} *)
| Fresh (restaurant : option restaurant_info) (menu : option menu)
    (meta : meta).
    (* {..., "source": "fresh"} *)

Definition source_of (r : response) : option string :=
  match r with
  | CacheHit _ => Some "cache"
  | MongoHit _ _ _ => Some "mongodb"
  | NoText _ => None
  | Fresh _ _ _ => Some "fresh"
  end.

(** *** What is written to the two tiers *)

Definition restaurant_to_json (r : option restaurant_info) : json :=
  match r with
  | Some r =>
      JDict [("name", JStr (name r));
             ("address", JStr (r_address r));
             ("rating", r_rating r);
             ("reviews", r_reviews r);
             ("phone", JStr (r_phone r));
             ("data_id", match r_data_id r with
                         | Some d => JStr d
                         | None => JNull
                         end)]
  | None => JDict []
  end.

Definition menu_opt_to_json (m : option menu) : json :=
  match m with Some m => menu_to_json m | None => JNull end.

Definition meta_to_json (m : meta) : json :=
  JDict [("sources", JList (map JStr (sources m)));
         ("images_processed", JNum (Z.of_nat (images_processed m)));
         ("ocr_chars", JNum (Z.of_nat (ocr_chars m)));
         ("items_count", JNum (Z.of_nat (items_count m)))].

(** [response_data] of lines 148-152. *)
Definition response_data (restaurant : option restaurant_info)
  (menu : option menu) (meta : meta) : json :=
  JDict [("restaurant", restaurant_to_json restaurant);
         ("menu", menu_opt_to_json menu);
         ("meta", meta_to_json meta)].

(** The document of [save_menu], without its three timestamps. *)
Definition stored_document (restaurant_name location : string)
  (restaurant : option restaurant_info) (menu : option menu) (meta : meta)
  : document :=
  [("restaurant_name", JStr restaurant_name);
   ("location", JStr location);
   ("restaurant_info", restaurant_to_json restaurant);
   ("menu", menu_opt_to_json menu);
   ("meta", meta_to_json meta)].

(** *** The fast tier (lines 31-35) *)

(** [cached.get("meta", {}).get("items_count", 0)] *)
Definition cached_items_count (cached : json) : result json :=
  (m <- py_get cached "meta" (JDict []) ;;
   py_get m "items_count" (JNum 0))%result.

(** [cached and cached.get("menu") and
     cached.get("meta", {}).get("items_count", 0) > 0] *)
Definition cache_valid (cached : option json) : result bool :=
  match cached with
  | None => Ok false
  | Some c =>
      if negb (truthy c) then Ok false
      else
        (menu <- py_get c "menu" JNull ;;
         if negb (truthy menu) then Ok false
         else
           n <- cached_items_count c ;;
           py_gt0 n)%result
  end.

Definition cache_key_of (request : MenuRequest) : option string :=
  if opt_str_truthy (restaurant_name request)
  then Some (fmt (restaurant_name request) ++ "_"
             ++ fmt (location request))%string
  else None.

Definition check_cache (w : world) (request : MenuRequest)
  : M (option response) :=
  match cache_key_of request with
  | None => ret None
  | Some cache_key =>
      if str_truthy cache_key then
        (emit (RedisGet cache_key) ;;;
         let cached := redis_get w cache_key in
         valid <- lift (cache_valid cached) ;;
         ret (if valid
              then match cached with
                   | Some (JDict d) => Some (CacheHit d)
                   | _ => None
                   end
              else None))%io
      else ret None
  end.

(** *** The durable tier (lines 38-69) *)

(** The inner loop for one [veg_type]: is some value a non-empty list? *)
Definition has_items_group (menu : json) (veg_type : string) : result bool :=
  (b <- py_in veg_type menu ;;
   if b then
     g <- py_index menu veg_type ;;
     vs <- py_values g ;;
     Ok (existsb is_nonempty_list vs)
   else Ok false)%result.

Fixpoint has_items_loop (menu : json) (vts : list string) (has_items : bool)
  : result bool :=
  match vts with
  | [] => Ok has_items
  | veg_type :: rest =>
      (b <- has_items_group menu veg_type ;;
       has_items_loop menu rest (has_items || b))%result
  end.

Definition stored_menu (stored : document) : json :=
  match assoc "menu" stored with Some m => m | None => JNull end.

Definition stored_has_items (stored : option document) : result bool :=
  match stored with
  | Some ((_ :: _) as doc) =>
      if truthy (stored_menu doc)
      then has_items_loop (stored_menu doc) veg_types false
      else Ok false
  | _ => Ok false
  end.

Definition is_some_nonempty (stored : option document) : bool :=
  match stored with Some (_ :: _) => true | _ => false end.

(** The hit branch: refresh of the fast cache (its own failures are
    swallowed), then the answer built from the stored fields. *)
Definition mongo_hit (cache_key : option string) (doc : document)
  : M (option response) :=
  match assoc "restaurant_info" doc, assoc "menu" doc, assoc "meta" doc with
  | Some r, Some m, Some mt =>
      ((if opt_str_truthy cache_key
        then emit (RedisSet (or_else cache_key "")
                     (JDict [("restaurant", r); ("menu", m); ("meta", mt)]))
        else ret tt) ;;;
       ret (Some (MongoHit r m mt)))%io
  | _, _, _ => raise PyError
  end.

Definition check_mongo (w : world) (request : MenuRequest)
  : M (option response) :=
  if opt_str_truthy (restaurant_name request) then
    try_except
      (stored <- Mongo.get_menu (menus w) (restaurant_name request)
                   (location request) ;;
       has_items <- lift (stored_has_items stored) ;;
       match stored with
       | Some doc =>
           if is_some_nonempty stored && has_items
           then mongo_hit (cache_key_of request) doc
           else ret None
       | None => ret None
       end)%io
      (ret None)
  else ret None.

(** *** Fresh extraction (lines 71-168) *)

Definition not_found (r : serp_result) : bool :=
  match error r with
  | Some _ =>
      match image_urls r with
      | Some (_ :: _) => false
      | _ => true
      end
  | None => false
  end.

Definition fresh_extraction (w : world) (request : MenuRequest)
  : M response :=
  (serp_result <- extract_menu_images (serpapi w) (restaurant_name request)
                    (str_or (location request) "") 0
                    (google_maps_url request) ;;
   if not_found serp_result
   then raise (HTTPException 404 (or_else (error serp_result) ""))
   else
     let restaurant := Serp.restaurant serp_result in
     let image_urls :=
       match Serp.image_urls serp_result with Some l => l | None => [] end in
     ocr_result <- process_images (text_detection w) (firstn 10 image_urls) ;;
     let combined_text := combined_text ocr_result in
     if negb (str_truthy combined_text) then ret (NoText restaurant)
     else
       normalized <- normalize (gemini_model w) combined_text
                       (match restaurant with
                        | Some r => name r
                        | None => fmt (restaurant_name request)
                        end) ;;
       let menu :=
         match normalized with
         | NormMenu m _ _ => Some m
         | NormError _ => None
         end in
       let meta :=
         {| sources := ["serpapi"; "google_vision"; "gemini"];
            images_processed := List.length image_urls;
            ocr_chars := String.length combined_text;
            items_count :=
              match normalized with
              | NormMenu _ n _ => n
              | NormError _ => 0
              end |} in
       let final_name :=
         str_or (option_map name restaurant)
           (str_or (restaurant_name request) "Unknown") in
       let final_location :=
         str_or (location request)
           (str_or (option_map r_address restaurant) "") in
       emit (MongoSave (stored_document final_name final_location
                          restaurant menu meta)) ;;;
       let cache_key :=
         match cache_key_of request with
         | Some k => if str_truthy k then k
                     else (final_name ++ "_" ++ final_location)%string
         | None => (final_name ++ "_" ++ final_location)%string
         end in
       emit (RedisSet cache_key (response_data restaurant menu meta)) ;;;
       ret (Fresh restaurant menu meta))%io.

(** *** [extract_menu] *)

(** The outer handler: an [HTTPException] passes, anything else becomes a
    500 (whose detail, the text of the exception, is not kept). *)
Definition http_guard {A} (c : M A) : M A :=
  match c with
  | (t, Raise PyError) => (t, Raise (HTTPException 500 EmptyString))
  | _ => c
  end.

(** The lookups before the extraction: [Some] answer on a valid hit. *)
Definition resolve (w : world) (request : MenuRequest) : M (option response) :=
  (hit <- check_cache w request ;;
   match hit with
   | Some r => ret (Some r)
   | None => check_mongo w request
   end)%io.

Definition extract_menu (w : world) (request : MenuRequest) : M response :=
  http_guard
    (hit <- resolve w request ;;
     match hit with
     | Some r => ret r
     | None => fresh_extraction w request
     end)%io.

End Endpoints.


(* ================================================================== *)
(** ** More of Python's strings *)

Module PyStr.

(** [s.split(sep)] for a separator that is not empty (an empty one is a
    ValueError in Python; every call below passes a literal): leftmost,
    non-overlapping occurrences.  [skip] counts the characters of an
    occurrence still to be passed over. *)
Fixpoint split_aux (sep : string) (skip : nat) (s : string) : list string :=
  match s with
  | EmptyString => [EmptyString]
  | String c s' =>
      match skip with
      | S k => split_aux sep k s'
      | O =>
          if starts_with sep s
          then EmptyString :: split_aux sep (String.length sep - 1) s'
          else match split_aux sep 0 s' with
               | p :: ps => String c p :: ps
               | [] => [String c EmptyString]
               end
      end
  end.

Definition split_on (sep s : string) : list string := split_aux sep 0 s.

(** [l[i]]: an IndexError out of range. *)
Definition py_nth (l : list string) (i : nat) : result string :=
  match nth_error l i with
  | Some x => Ok x
  | None => Raise PyError
  end.

(** [s.replace(a, b)] for two characters. *)
Fixpoint replace_char (a b : ascii) (s : string) : string :=
  match s with
  | EmptyString => EmptyString
  | String c s' =>
      String (if Ascii.eqb c a then b else c) (replace_char a b s')
  end.

(** [s[n:]]. *)
Fixpoint drop (n : nat) (s : string) : string :=
  match n, s with
  | O, _ => s
  | S _, EmptyString => EmptyString
  | S k, String _ s' => drop k s'
  end.

(** Does the character occur in the string? *)
Fixpoint has_char (c : ascii) (s : string) : bool :=
  match s with
  | EmptyString => false
  | String x s' => Ascii.eqb x c || has_char c s'
  end.

(** [len(v)]: defined on strings, lists and dicts. *)
Definition py_len (v : json) : result nat :=
  match v with
  | JStr s => Ok (String.length s)
  | JList l => Ok (List.length l)
  | JDict d => Ok (List.length d)
  | _ => Raise PyError
  end.

End PyStr.
Export PyStr.

(* ================================================================== *)
(** ** app/services/normalizer.py: the text handed to the JSON decoder *)

Module Fence.

Definition fence : string := "```".

(** Lines 84-89 of [_parse_chunk]: the answer is stripped, a leading code
    fence is cut off with everything from the next fence on, a leading
    [json] tag is dropped, and the rest is stripped again. *)
Definition clean_response (text : string) : result string :=
  let cleaned := strip text in
  (cleaned <-
     (if starts_with fence cleaned then
        inner <- py_nth (split_on fence cleaned) 1 ;;
        Ok (if starts_with "json" inner then drop 4 inner else inner)
      else Ok cleaned) ;;
   Ok (strip cleaned))%result.

End Fence.

(* ================================================================== *)
(** ** app/services/mongo_service.py: writing and deleting *)

Module Store.

Import Mongo.

(** An equality condition of a query on a field that holds a string:
    exact, with case. *)
Definition field_is (field value : string) (doc : document) : bool :=
  match assoc field doc with
  | Some (JStr s) => String.eqb s value
  | _ => false
  end.

(** The filter [{"restaurant_name": .., "location": ..}] of [save_menu]. *)
Definition same_identity (restaurant_name location : string) (doc : document)
  : bool :=
  field_is "restaurant_name" restaurant_name doc
  && field_is "location" location doc.

(** [{"$set": fields}]: each field is written into the document. *)
Definition set_fields (fields : document) (doc : document) : document :=
  fold_left (fun d kv => assoc_set (fst kv) (snd kv) d) fields doc.

(** The first document that satisfies [f] is replaced by its image. *)
Fixpoint update_first (f : document -> bool) (g : document -> document)
  (l : list document) : option (list document) :=
  match l with
  | [] => None
  | d :: l' =>
      if f d then Some (g d :: l')
      else option_map (cons d) (update_first f g l')
  end.

(** The document of [save_menu], without its three timestamps. *)
Definition saved_fields (restaurant_name location : string)
  (restaurant_info menu meta : json) : document :=
  [("restaurant_name", JStr restaurant_name);
   ("location", JStr location);
   ("restaurant_info", restaurant_info);
   ("menu", menu);
   ("meta", meta)].

(** [update_one(filter, {"$set": document}, upsert=True)]: the first
    document with this name and location is updated in place; when there
    is none a new one is inserted.  The boolean tells whether a document
    was inserted (the function then returns its id, else "updated"). *)
Definition save_menu (menus : list document)
  (restaurant_name location : string) (restaurant_info menu meta : json)
  : bool * list document :=
  let document := saved_fields restaurant_name location restaurant_info
                    menu meta in
  match update_first (same_identity restaurant_name location)
          (set_fields document) menus with
  | Some menus' => (false, menus')
  | None => (true, menus ++ [document])
  end.

(** The query of [delete_menu]: the exact name, and the exact location
    when one is given. *)
Definition delete_query (restaurant_name location : string) (doc : document)
  : bool :=
  field_is "restaurant_name" restaurant_name doc
  && (if str_truthy location then field_is "location" location doc else true).

(** [delete_one]: the first document that satisfies [f] is removed. *)
Fixpoint delete_first (f : document -> bool) (l : list document)
  : option (list document) :=
  match l with
  | [] => None
  | d :: l' =>
      if f d then Some l' else option_map (cons d) (delete_first f l')
  end.

(** [delete_menu]: [deleted_count > 0] and the collection left. *)
Definition delete_menu (menus : list document)
  (restaurant_name location : string) : bool * list document :=
  match delete_first (delete_query restaurant_name location) menus with
  | Some menus' => (true, menus')
  | None => (false, menus)
  end.

(** [get_menu_count] *)
Definition get_menu_count (menus : list document) : nat := List.length menus.

End Store.

(* ================================================================== *)
(** ** app/api/v1/endpoints.py: the simple extraction *)

Module Simple.

Import Normalizer Ocr Mongo Serp Endpoints.

(** The two dicts [extract_simple] returns. *)
Inductive simple_response : Type :=
| SimpleError (error : string)
    (* {"error": .., "restaurant": None} *)
| SimpleText (restaurant : option restaurant_info)
    (images_processed ocr_chars : nat) (ocr_text_sample : string).

(** [extract_simple]: the image source is asked without the URL of the
    request, the first three images are read, and a sample of the text is
    returned. *)
Definition extract_simple (w : world) (request : MenuRequest)
  : M simple_response :=
  http_guard
    (serp_result <- extract_menu_images (serpapi w) (restaurant_name request)
                      (str_or (location request) "") 0 None ;;
     if not_found serp_result
     then ret (SimpleError (or_else (error serp_result) ""))
     else
       let restaurant := Serp.restaurant serp_result in
       let image_urls :=
         match Serp.image_urls serp_result with Some l => l | None => [] end in
       ocr_result <- process_images (text_detection w) (firstn 3 image_urls) ;;
       let combined_text := combined_text ocr_result in
       ret (SimpleText restaurant (List.length image_urls)
              (String.length combined_text)
              (if str_truthy combined_text then take 1000 combined_text
               else EmptyString)))%io.

End Simple.

(* ================================================================== *)
(** ** The two tiers after a request *)

Module Tiers.

Import Mongo Store Endpoints.

(** [setex]: the entry under [key] is replaced (its expiry is left out:
    what follows holds until the entry expires). *)
Definition redis_set (key : string) (data : json) (w : world) : world :=
  {| redis_get := fun k => if String.eqb k key then Some data
                           else redis_get w k;
     menus := menus w;
     serpapi := serpapi w;
     text_detection := text_detection w;
     gemini_model := gemini_model w |}.

Definition field_or_null (k : string) (doc : document) : json :=
  match assoc k doc with Some v => v | None => JNull end.

Definition field_str (k : string) (doc : document) : string :=
  match assoc k doc with Some (JStr s) => s | _ => EmptyString end.

(** [save_menu] with the fields of the written document. *)
Definition mongo_save (doc : document) (w : world) : world :=
  {| redis_get := redis_get w;
     menus := snd (save_menu (menus w)
                     (field_str "restaurant_name" doc)
                     (field_str "location" doc)
                     (field_or_null "restaurant_info" doc)
                     (field_or_null "menu" doc)
                     (field_or_null "meta" doc));
     serpapi := serpapi w;
     text_detection := text_detection w;
     gemini_model := gemini_model w |}.

(** The effect of one call on the tiers.  A trace records the calls that
    were made; [set_menu] and the endpoint swallow the error of a write
    that fails, which then leaves its tier as it was.  [landed] tells
    which writes reached their tier. *)
Definition after_event (landed : event -> bool) (w : world) (e : event)
  : world :=
  if landed e then
    match e with
    | RedisSet key data => redis_set key data w
    | MongoSave doc => mongo_save doc w
    | _ => w
    end
  else w.

(** The tiers once the calls of a request have been made. *)
Definition after (landed : event -> bool) (t : list event) (w : world)
  : world :=
  fold_left (after_event landed) t w.

End Tiers.

(* ================================================================== *)
(** ** app/services/pipeline.py *)

Module Pipeline.

Import Normalizer Ocr Serp Endpoints.

(** [_parse_restaurant_from_url] *)
Definition parse_restaurant_from_url (url : string)
  : result (string * string) :=
  if str_contains "/place/" url then
    (rest <- py_nth (split_on "/place/" url) 1 ;;
     segment <- py_nth (split_on "/" rest) 0 ;;
     path <- py_nth (split_on "?" segment) 0 ;;
     Ok (replace_char "-" " " (replace_char "+" " " path), EmptyString))%result
  else Ok (EmptyString, EmptyString).

(** [NormalizerService.normalize] on a value that need not be a string:
    the two guards only use its truth value and [len], the chunking needs
    a string. *)
Definition normalize_value (model : option backend) (raw_text : json)
  (restaurant_name : string) : M normalized :=
  match model with
  | None => ret (NormError "Gemini not configured")
  | Some b =>
      if negb (truthy raw_text) then ret (NormError "Insufficient text")
      else
        (n <- lift (py_len raw_text) ;;
         if (n <? min_text_length)%nat
         then ret (NormError "Insufficient text")
         else match raw_text with
              | JStr s => normalize (Some b) s restaurant_name
              | _ => raise PyError
              end)%io
  end.

(** The dicts [run] returns. *)
Inductive run_result : Type :=
| FromCache (cached : json)
| NameRequired
    (* {"error": "Restaurant name or URL required", "menu_items": []} *)
| SerpFailure (r : serp_result)
| NoImages (restaurant : option restaurant_info)
    (* {"error": "No menu images found", ...} *)
| Extracted (restaurant : option restaurant_info) (menu_items : normalized)
    (images_processed : nat).

Definition normalized_to_json (n : normalized) : json :=
  match n with
  | NormError msg => JDict [("error", JStr msg)]
  | NormMenu m c k =>
      JDict [("menu", menu_to_json m);
             ("items_count", JNum (Z.of_nat c));
             ("chunks", JNum (Z.of_nat k))]
  end.

(** The [result] dict of lines 116-121. *)
Definition result_to_json (restaurant : option restaurant_info)
  (menu_items : normalized) (images_processed : nat) : json :=
  JDict [("restaurant", restaurant_to_json restaurant);
         ("menu_items", normalized_to_json menu_items);
         ("sources", JList [JStr "serpapi"; JStr "google_vision";
                            JStr "gemini"]);
         ("images_processed", JNum (Z.of_nat images_processed))].

(** [raw_data] of lines 108-111. *)
Definition raw_data (restaurant : option restaurant_info)
  (combined_text : string) : json :=
  JDict [("restaurant_info", restaurant_to_json restaurant);
         ("scraped_fragments",
          JList [JDict [("source", JStr "ocr");
                        ("raw_text", JStr combined_text)]])].

(** [run] after the cache has missed (lines 66-127). *)
Definition run_uncached (w : world) (cache_key google_maps_url
  restaurant_name location : string) : M run_result :=
  (parsed <-
     (if str_truthy google_maps_url && negb (str_truthy restaurant_name)
      then lift (parse_restaurant_from_url google_maps_url)
      else ret (restaurant_name, location)) ;;
   let '(restaurant_name, location) := parsed in
   if negb (str_truthy restaurant_name) then ret NameRequired
   else
     serpapi_result <- extract_menu_images (serpapi w) (Some restaurant_name)
                         location 10 None ;;
     match error serpapi_result, image_urls serpapi_result with
     | Some _, None => ret (SerpFailure serpapi_result)
     | _, _ =>
         let restaurant_info := Serp.restaurant serpapi_result in
         let image_urls :=
           match Serp.image_urls serpapi_result with
           | Some l => l
           | None => []
           end in
         match image_urls with
         | [] => ret (NoImages restaurant_info)
         | _ =>
             ocr_result <- process_images (text_detection w) image_urls ;;
             let ocr_texts := map raw_text (items ocr_result) in
             let combined_text := join nlnl ocr_texts in
             normalized_menu <- normalize_value (gemini_model w)
                                  (raw_data restaurant_info combined_text)
                                  EmptyString ;;
             emit (RedisSet cache_key
                     (result_to_json restaurant_info normalized_menu
                        (List.length image_urls))) ;;;
             ret (Extracted restaurant_info normalized_menu
                    (List.length image_urls))
         end
     end)%io.

(** [ExtractionPipeline.run] *)
Definition run (w : world) (google_maps_url restaurant_name location : string)
  : M run_result :=
  (let cache_key :=
     if str_truthy google_maps_url then google_maps_url
     else (restaurant_name ++ "_" ++ location)%string in
   emit (RedisGet cache_key) ;;;
   match redis_get w cache_key with
   | Some cached =>
       if truthy cached then ret (FromCache cached)
       else run_uncached w cache_key google_maps_url restaurant_name location
   | None =>
       run_uncached w cache_key google_maps_url restaurant_name location
   end)%io.

End Pipeline.

(* ================================================================== *)
(** ** app/api/v1/endpoints.py: the stored menus *)

Module Admin.

Import Mongo Store Endpoints.

(** [CacheService.delete] *)
Definition redis_delete (key : string) (w : world) : world :=
  {| redis_get := fun k => if String.eqb k key then None else redis_get w k;
     menus := menus w;
     serpapi := serpapi w;
     text_detection := text_detection w;
     gemini_model := gemini_model w |}.

Definition with_menus (ms : list document) (w : world) : world :=
  {| redis_get := redis_get w;
     menus := ms;
     serpapi := serpapi w;
     text_detection := text_detection w;
     gemini_model := gemini_model w |}.

(** [GET /menus/{restaurant_name}].  [store_up] tells whether the call
    to the store answers; a call that fails raises, which the handler
    turns into a 500. *)
Definition get_menu (store_up : bool) (w : world)
  (restaurant_name location : string) : M document :=
  http_guard
    (menu <- (if store_up
              then Mongo.get_menu (menus w) (Some restaurant_name)
                     (Some location)
              else if str_truthy restaurant_name
                   then emit (MongoFind restaurant_name) ;;; raise PyError
                   else ret None) ;;
     match menu with
     | Some ((_ :: _) as doc) => ret doc
     | _ => raise (HTTPException 404 "Menu not found")
     end)%io.

(** [DELETE /menus/{restaurant_name}]: the answer and the two tiers
    after the call.  When the store does not answer ([store_up] false)
    the exception skips the cache delete and becomes a 500; when the
    cache delete fails ([cache_up] false) [CacheService.delete] swallows
    the error and the entry stays. *)
Definition delete_menu (store_up cache_up : bool) (w : world)
  (restaurant_name location : string) : result string * world :=
  if store_up then
    let deleted := Store.delete_menu (menus w) restaurant_name location in
    let w1 := with_menus (snd deleted) w in
    (if fst deleted
     then Ok ("Menu for " ++ restaurant_name ++ " deleted")%string
     else Raise (HTTPException 404 "Menu not found"),
     if cache_up
     then redis_delete (restaurant_name ++ "_" ++ location)%string w1
     else w1)
  else (Raise (HTTPException 500 EmptyString), w).

End Admin.

(* ================================================================== *)
(** ** app/extractors/gmaps_extractor.py *)

Module Gmaps.

(** [_upgrade_quality] *)
Definition upgrade_quality (url : string) : result string :=
  if str_contains "googleusercontent" url then
    (base <- py_nth (split_on "=" url) 0 ;;
     Ok (base ++ "=w2000-h2000")%string)%result
  else Ok url.

End Gmaps.
(* ================================================================== *)
(** ** Vocabulary of the statements *)

Module Vocabulary.

Import Normalizer Ocr Mongo Serp Endpoints.

(** *** Menus *)

(** The items a source group holds under [c], in the order of its
    entries: what the merge appends to slot [c]. *)
Definition items_of (v : json) : list json :=
  match v with JList l => l | _ => [] end.

Definition delta (src : list (string * json)) (c : string) : list json :=
  flat_map (fun kv => if String.eqb (fst kv) c then items_of (snd kv) else [])
    src.

Definition has_key (c : string) (ks : list string) : bool :=
  existsb (String.eqb c) ks.

(** The number of items the merge takes from a source group, given the
    category keys of the target group. *)
Definition gain (ks : list string) (src : list (string * json)) : nat :=
  list_sum
    (map (fun kv => if has_key (fst kv) ks then list_len (snd kv) else 0) src).

Definition total (s : slots) : nat :=
  list_sum (map (fun kv => List.length (snd kv)) s).

(** The group and category keys of a menu. *)
Definition shape (m : menu) : list (string * list string) :=
  map (fun gs => (fst gs, keys (snd gs))) m.

Definition slot (m : menu) (g c : string) : option (list json) :=
  match assoc g m with
  | Some s => assoc c s
  | None => None
  end.

(** The pure content of [merge_items] on a group that exists. *)
Fixpoint merged (s : slots) (src : list (string * json)) : slots :=
  match src with
  | [] => s
  | (category, items) :: rest =>
      if has_key category (keys s)
      then merged (extend_at category (items_of items) s) rest
      else merged s rest
  end.

(** The source side of [merge_group]: the entries of [source[veg_type]],
    [None] when the group is absent, an exception when [source] or the
    group cannot be walked. *)
Definition group_src (source : json) (veg_type : string)
  : result (option (list (string * json))) :=
  (b <- py_in veg_type source ;;
   if b then
     g <- py_index source veg_type ;;
     src <- py_items g ;;
     Ok (Some src)
   else Ok None)%result.

Definition group_entries (source : json) (veg_type : string)
  : list (string * json) :=
  match group_src source veg_type with
  | Ok (Some src) => src
  | _ => []
  end.

(** What merging [source] appends to slot [(g, c)]. *)
Definition contrib (source : json) (veg_type g c : string) : list json :=
  if String.eqb veg_type g then delta (group_entries source veg_type) c
  else [].

Definition contribution (source : json) (g c : string) : list json :=
  contrib source "vegetarian" g c ++ contrib source "non_vegetarian" g c.

Definition group_total (m : menu) (g : string) : nat :=
  match assoc g m with Some s => total s | None => 0 end.

(** The number of items merging [source] adds to group [g] of a menu
    with the keys [sh]. *)
Definition group_gain (sh : list (string * list string)) (source : json)
  (veg_type g : string) : nat :=
  if String.eqb veg_type g then
    match assoc g sh with
    | Some ks => gain ks (group_entries source veg_type)
    | None => 0
    end
  else 0.

Definition menu_gain (sh : list (string * list string)) (source : json)
  (g : string) : nat :=
  group_gain sh source "vegetarian" g + group_gain sh source "non_vegetarian" g.

(** The item count of a typed menu, as [_count_items] finds it. *)
Definition counted (m : menu) : nat :=
  group_total m "vegetarian" + group_total m "non_vegetarian".

(** One iteration of the loop of [merge_results]. *)
Definition merge_one (t : menu) (r : chunk_result) : result menu :=
  match r with
  | ChunkMenu parsed => merge_menus t parsed
  | ChunkError => Ok t
  end.

(** The items of a chunk result that sit under a group and category of
    the fixed vocabulary. *)
Definition known_items (r : chunk_result) : nat :=
  match r with
  | ChunkMenu parsed =>
      gain vegetarian_categories (group_entries parsed "vegetarian")
      + gain non_vegetarian_categories (group_entries parsed "non_vegetarian")
  | ChunkError => 0
  end.

(** A chunk result as [parse_chunk] can return it. *)
Definition walkable (r : chunk_result) : Prop :=
  match r with
  | ChunkMenu parsed => is_ok (count_items parsed) = true
  | ChunkError => True
  end.

(** Two optional slots hold the same items up to their order. *)
Definition same_items (x y : option (list json)) : Prop :=
  match x, y with
  | Some a, Some b => Permutation a b
  | None, None => True
  | _, _ => False
  end.

(** *** OCR results *)

Definition le_index (x y : nat * string) : Prop := fst x <= fst y.
Definition lt_index (x y : nat * string) : Prop := fst x < fst y.

Definition has_text (p : nat * string) : bool := str_truthy (snd p).

Definition to_item (p : nat * string) : ocr_item :=
  {| raw_text := snd p; image_index := fst p |}.

(** *** Case-insensitive containment

    What the claim on the durable store calls a case-insensitive
    substring, following the words of the specification: the query, read
    as literal text, occurs somewhere in the stored string when letters
    are compared without their case. *)

Fixpoint ci_starts_with (q s : string) : bool :=
  match q, s with
  | EmptyString, _ => true
  | String a q', String b s' =>
      Ascii.eqb (lower a) (lower b) && ci_starts_with q' s'
  | String _ _, EmptyString => false
  end.

Fixpoint ci_contains (q s : string) : bool :=
  ci_starts_with q s ||
  match s with
  | String _ s' => ci_contains q s'
  | EmptyString => false
  end.

Fixpoint lower_string (s : string) : string :=
  match s with
  | EmptyString => EmptyString
  | String c s' => String (lower c) (lower_string s')
  end.

(** A query without a character that the store's pattern language gives
    a meaning of its own. *)
Fixpoint literal (q : string) : bool :=
  match q with
  | EmptyString => true
  | String c q' => negb (is_meta c) && literal q'
  end.

(** The pattern of a literal query. *)
Fixpoint lits (q : string) : pattern :=
  match q with
  | EmptyString => []
  | String c q' => (Lit c, One) :: lits q'
  end.

Definition stored_under (doc : document) (N L : string) : Prop :=
  assoc "restaurant_name" doc = Some (JStr N)
  /\ assoc "location" doc = Some (JStr L).

Definition name_contains (q : string) (doc : document) : bool :=
  match assoc "restaurant_name" doc with
  | Some (JStr N) => ci_contains q N
  | _ => false
  end.

Definition location_contains (l : string) (doc : document) : bool :=
  match assoc "location" doc with
  | Some (JStr L) => ci_contains l L
  | _ => false
  end.

(** *** Requests and traces *)

(** Every event of a computation satisfies [P]. *)
Definition all_events {A} (P : event -> bool) (c : M A) : Prop :=
  Forall (fun e => P e = true) (trace c).



(** A read of one of the two cache tiers. *)
Definition is_read (e : event) : bool :=
  match e with
  | RedisGet _ | MongoFind _ => true
  | _ => false
  end.

Definition not_read (e : event) : bool := negb (is_read e).

(** A call of the OCR or the structuring backend, or a write to a tier. *)
Definition is_late_stage (e : event) : bool :=
  match e with
  | VisionOcr _ | GeminiCall _ | RedisSet _ _ | MongoSave _ => true
  | _ => false
  end.

(** The query [extract_menu_images] sends to the image source. *)
Definition search_query_of (request : MenuRequest) : string :=
  strip ((if opt_str_truthy (google_maps_url request)
          then or_else (google_maps_url request) ""
          else fmt (restaurant_name request) ++ " "
               ++ str_or (location request) "")
         ++ " " ++ "")%string.

(** The restaurant record built from a place that was found. *)
Definition info_of (request : MenuRequest) (pl : place) : restaurant_info :=
  {| name := or_else (title pl)
               (str_or (restaurant_name request) "Unknown Restaurant");
     r_address := or_else (address pl) "";
     r_rating := rating pl;
     r_reviews := reviews pl;
     r_phone := or_else (phone pl) "";
     r_data_id := data_id pl |}.

(** *** Sample data *)

Definition item (n : string) : json := JDict [("name", JStr n)].

(** A backend answer with a category ([soups]) and a group ([snacks])
    outside the vocabulary. *)
Definition sample_answer : json :=
  JDict [("vegetarian",
          JDict [("starters", JList [item "Paneer Tikka"]);
                 ("soups", JList [item "Tomato Soup"])]);
         ("snacks", JDict [("starters", JList [item "Fries"])])].

Definition sample_results : list chunk_result :=
  [ChunkMenu sample_answer; ChunkError].

(** The answer given when no chunk is understood. *)
Definition silent_backend : backend := fun _ _ => None.

(** Three images; the second has no text and the third call fails. *)
Definition sample_urls : list string := ["u0"; "u1"; "u2"].

Definition sample_vision : vision :=
  fun url =>
    if String.eqb url "u0" then Some ["A"; "a"]
    else if String.eqb url "u1" then Some []
    else None.

(** Three images with the texts A, B, C. *)
Definition abc_vision : vision :=
  fun url =>
    if String.eqb url "u0" then Some ["A"]
    else if String.eqb url "u1" then Some ["B"]
    else Some ["C"].

Definition sample_document (N L : string) : document :=
  [("restaurant_name", JStr N); ("location", JStr L);
   ("restaurant_info", JDict [("name", JStr N)]);
   ("menu", JNull); ("meta", JDict [])].

(** A world whose image source knows one restaurant, with a place id
    and without menu photos; both tiers are empty. *)
Definition bare_place : place :=
  {| title := Some "Tandoori Treat"; address := Some "Koramangala";
     rating := JNull; reviews := JNull; phone := None;
     data_id := Some "0x1" |}.

Definition no_photos_world : world :=
  {| redis_get := fun _ => None;
     menus := [];
     serpapi := {| search := fun _ => Some bare_place;
                   photos := fun _ => [] |};
     text_detection := fun _ => None;
     gemini_model := Some silent_backend |}.

Definition name_request : MenuRequest :=
  {| restaurant_name := Some "Tandoori Treat";
     location := Some "Koramangala";
     google_maps_url := None |}.

Definition url_request : MenuRequest :=
  {| restaurant_name := None;
     location := Some "";
     google_maps_url := Some "https://maps.google.com/?cid=1" |}.

(** A world whose two tiers hold, for the sample restaurant, a document
    with an item count of 0 and no item in any slot. *)
Definition empty_menu_json : json :=
  menu_to_json combined_menu0.

Definition stale_entry : json :=
  JDict [("restaurant", JDict [("name", JStr "Tandoori Treat")]);
         ("menu", empty_menu_json);
         ("meta", JDict [("items_count", JNum 0)])].

Definition stale_document : document :=
  [("restaurant_name", JStr "Tandoori Treat");
   ("location", JStr "Koramangala");
   ("restaurant_info", JDict [("name", JStr "Tandoori Treat")]);
   ("menu", empty_menu_json);
   ("meta", JDict [("items_count", JNum 0)])].

Definition stale_world : world :=
  {| redis_get := fun _ => Some stale_entry;
     menus := [stale_document];
     serpapi := {| search := fun _ => None; photos := fun _ => [] |};
     text_detection := fun _ => None;
     gemini_model := Some silent_backend |}.

(** The entry records, as its [items_count], the item count of its own
    menu: [n] items. *)
Definition records_own_count (c : json) (n : nat) : Prop :=
  exists menu,
    py_get c "menu" JNull = Ok menu
    /\ count_items menu = Ok n
    /\ cached_items_count c = Ok (JNum (Z.of_nat n)).

(** An entry whose menu holds no item and whose meta records four, and a
    world whose fast cache holds it. *)
Definition miscounted_entry : list (string * json) :=
  [("restaurant", JDict [("name", JStr "Tandoori Treat")]);
   ("menu", empty_menu_json);
   ("meta", JDict [("items_count", JNum 4)])].

Definition miscounted_world : world :=
  {| redis_get := fun _ => Some (JDict miscounted_entry);
     menus := [];
     serpapi := {| search := fun _ => None; photos := fun _ => [] |};
     text_detection := fun _ => None;
     gemini_model := Some silent_backend |}.

End Vocabulary.
Export Vocabulary.

(* ================================================================== *)
(** ** Vocabulary of the further properties *)

Module Vocabulary2.

Import Normalizer Ocr Mongo Serp Endpoints.

(** The backtick, the character of a code fence. *)
Definition backtick : ascii := "`"%char.

(** What is decoded from a fenced answer whose inside is [inner]. *)
Definition untagged (inner : string) : string :=
  if starts_with "json" inner then drop 4 inner else inner.

(** The number of items [_count_items] finds in a chunk result (the
    figure [_parse_chunk] prints for the chunk). *)
Definition chunk_count (r : chunk_result) : nat :=
  match r with
  | ChunkMenu parsed =>
      match count_items parsed with
      | Ok n => n
      | Raise _ => 0
      end
  | ChunkError => 0
  end.

(** The state of the loop of [_split_text] after all paragraphs. *)
Definition split_state (text : string) (size : nat) : list string * string :=
  fold_left (split_step size) (split_nlnl text) ([], EmptyString).

(** Two paragraphs of 30 characters. *)
Definition two_paragraphs : string :=
  (replicate 30 "a" ++ nlnl ++ replicate 30 "b")%string.

(** A backend that understands every chunk as the sample answer. *)
Definition sample_backend : backend := fun _ _ => Some sample_answer.

(** How many documents carry this exact name and location. *)
Definition identity_count (menus : list document) (name loc : string) : nat :=
  List.length (filter (Store.same_identity name loc) menus).

(** The lookup query of [get_menu] on a literal name and location. *)
Definition lookup_matches (q l : string) (doc : document) : bool :=
  name_contains q doc
  && (if str_truthy l then location_contains l doc else true).

(** *** Kinds of calls *)

Definition is_ocr (e : event) : bool :=
  match e with VisionOcr _ => true | _ => false end.

Definition is_serp (e : event) : bool :=
  match e with SerpSearch _ | SerpPhotos _ => true | _ => false end.

Definition is_gemini (e : event) : bool :=
  match e with GeminiCall _ => true | _ => false end.

Definition is_tier (e : event) : bool :=
  match e with
  | RedisGet _ | RedisSet _ _ | MongoFind _ | MongoSave _ => true
  | _ => false
  end.

Definition is_serp_or_ocr (e : event) : bool := is_serp e || is_ocr e.

(** The number of OCR calls of a computation. *)
Definition ocr_calls {A} (c : M A) : nat :=
  List.length (filter is_ocr (trace c)).

(** The image URLs of a result of the image source, none when absent. *)
Definition urls_of (r : serp_result) : list string :=
  match image_urls r with Some l => l | None => [] end.

(** The cache key of a request that names a restaurant. *)
Definition request_key (request : MenuRequest) : string :=
  (fmt (restaurant_name request) ++ "_" ++ fmt (location request))%string.

(** The fields of the entry a fresh extraction writes to the fast
    cache. *)
Definition entry_fields (r : option restaurant_info) (menu : option menu)
  (meta : meta) : list (string * json) :=
  [("restaurant", restaurant_to_json r);
   ("menu", menu_opt_to_json menu);
   ("meta", meta_to_json meta)].

(** The source an answer names, if the request is answered. *)
Definition source_of_outcome (c : M response) : option string :=
  match outcome_of c with
  | Ok r => source_of r
  | Raise _ => None
  end.

(** A world in which the sample restaurant has one menu photo, the photo
    holds sixty letters and the backend understands them as the sample
    answer; both tiers are empty. *)
Definition rich_world : world :=
  {| redis_get := fun _ => None;
     menus := [];
     serpapi := {| search := fun _ => Some bare_place;
                   photos := fun _ => [{| image := Some "u0" |}] |};
     text_detection := fun _ => Some [replicate 60 "a"];
     gemini_model := Some sample_backend |}.

(** The same world with a backend that understands nothing. *)
Definition barren_world : world :=
  {| redis_get := fun _ => None;
     menus := [];
     serpapi := {| search := fun _ => Some bare_place;
                   photos := fun _ => [{| image := Some "u0" |}] |};
     text_detection := fun _ => Some [replicate 60 "a"];
     gemini_model := Some silent_backend |}.

Definition not_gemini (e : event) : bool := negb (is_gemini e).

(** Every write reaches its tier; no write to the fast cache does. *)
Definition all_landed (e : event) : bool := true.

Definition cache_down (e : event) : bool :=
  match e with RedisSet _ _ => false | _ => true end.

(** The error [normalize] answers to a value of two entries. *)
Definition refusal (model : option backend) : normalized :=
  NormError match model with
            | Some _ => "Insufficient text"
            | None => "Gemini not configured"
            end.

(** A Google Maps URL of a place. *)
Definition place_url : string :=
  "https://maps.google.com/maps/place/Tandoori+Treat-Koramangala/@12.9,77.6?hl=en".

(** A world whose durable store holds the sample restaurant and whose
    fast cache holds an entry for it. *)
Definition stocked_world : world :=
  {| redis_get := fun k =>
       if String.eqb k "Tandoori Treat_Koramangala"
       then Some (JDict [("restaurant", JNull);
                         ("menu", JDict [("vegetarian", JDict [])]);
                         ("meta", JDict [("items_count", JNum 4)])])
       else None;
     menus := [sample_document "Tandoori Treat" "Koramangala"];
     serpapi := serpapi rich_world;
     text_detection := text_detection rich_world;
     gemini_model := gemini_model rich_world |}.

End Vocabulary2.
Export Vocabulary2.
(* ================================================================== *)
(** * Properties *)

(** ** Traces *)

Section EffectFacts.

Lemma bind_ok {A B} t (a : A) (f : A -> M B) :
  bind (t, Ok a) f = (t ++ trace (f a), outcome_of (f a)).
Proof. unfold bind, trace, outcome_of. now destruct (f a). Qed.

Lemma bind_raise {A B} t e (f : A -> M B) : bind (t, Raise e) f = (t, Raise e).
Proof. reflexivity. Qed.

Lemma pair_trace_outcome {A} (c : M A) : c = (trace c, outcome_of c).
Proof. now destruct c. Qed.

Lemma trace_bind {A B} (c : M A) (f : A -> M B) :
  trace (bind c f)
  = trace c ++ match outcome_of c with
               | Ok a => trace (f a)
               | Raise _ => []
               end.
Proof.
  destruct c as [t [a|e]].
  - now rewrite bind_ok.
  - simpl. now rewrite app_nil_r.
Qed.

Lemma outcome_bind {A B} (c : M A) (f : A -> M B) :
  outcome_of (bind c f)
  = match outcome_of c with
    | Ok a => outcome_of (f a)
    | Raise e => Raise e
    end.
Proof.
  destruct c as [t [a|e]]; [now rewrite bind_ok | reflexivity].
Qed.

Lemma all_events_ret {A} P (a : A) : all_events P (ret a).
Proof. constructor. Qed.

Lemma all_events_raise {A} P e : all_events P (@raise A e).
Proof. constructor. Qed.

Lemma all_events_lift {A} P (r : result A) : all_events P (lift r).
Proof. constructor. Qed.

Lemma all_events_emit P e : P e = true -> all_events P (emit e).
Proof. intros H. repeat constructor. exact H. Qed.

Lemma all_events_bind {A B} P (c : M A) (f : A -> M B) :
  all_events P c -> (forall a, all_events P (f a)) -> all_events P (bind c f).
Proof.
  unfold all_events. intros Hc Hf. rewrite trace_bind.
  apply Forall_app. split; [exact Hc|].
  destruct (outcome_of c); [apply Hf | constructor].
Qed.

Lemma all_events_try {A} P (c h : M A) :
  all_events P c -> all_events P h -> all_events P (try_except c h).
Proof.
  unfold all_events, try_except.
  destruct c as [t [a|e]], h as [t' r]; simpl; intros Hc Hh; [exact Hc|].
  apply Forall_app. now split.
Qed.

Lemma trace_http_guard {A} (c : M A) :
  trace (Endpoints.http_guard c) = trace c.
Proof. now destruct c as [t [a|[]]]. Qed.

Lemma outcome_http_guard_ok {A} (c : M A) (a : A) :
  outcome_of (Endpoints.http_guard c) = Ok a <-> outcome_of c = Ok a.
Proof. destruct c as [t [x|[]]]; simpl; split; congruence. Qed.

End EffectFacts.

Create HintDb events.
#[local] Hint Resolve all_events_ret all_events_raise all_events_lift
  all_events_emit all_events_bind all_events_try : events.

(** ** Merging chunk results *)

Section MergeFacts.

Import Normalizer.

Lemma assoc_has_key {V} (c : string) (d : list (string * V)) :
  match assoc c d with Some _ => true | None => false end
  = has_key c (keys d).
Proof.
  induction d as [|[k v] d IH]; simpl; [reflexivity|].
  destruct (String.eqb c k); simpl; auto.
Qed.

Lemma extend_at_keys c l s : keys (extend_at c l s) = keys s.
Proof.
  induction s as [|[k old] s IH]; simpl; [reflexivity|].
  destruct (String.eqb c k); simpl; [reflexivity|].
  now f_equal.
Qed.

Lemma assoc_extend_at c c' l s :
  assoc c' (extend_at c l s)
  = if String.eqb c c'
    then option_map (fun old => old ++ l) (assoc c' s)
    else assoc c' s.
Proof.
  induction s as [|[k old] s IH]; simpl.
  - now destruct (String.eqb c c').
  - destruct (String.eqb c k) eqn:Eck; simpl.
    + apply String.eqb_eq in Eck; subst k.
      rewrite (String.eqb_sym c' c).
      now destruct (String.eqb c c').
    + destruct (String.eqb c' k) eqn:Ec'k.
      * apply String.eqb_eq in Ec'k; subst k.
        now rewrite Eck.
      * exact IH.
Qed.

Lemma total_extend_at c l s :
  total (extend_at c l s)
  = total s + (if has_key c (keys s) then List.length l else 0).
Proof.
  unfold total.
  induction s as [|[k old] s IH]; simpl; [reflexivity|].
  destruct (String.eqb c k); simpl.
  - rewrite length_app; lia.
  - rewrite IH; lia.
Qed.

Lemma extend_at_nil c s : extend_at c [] s = s.
Proof.
  induction s as [|[k old] s IH]; simpl; [reflexivity|].
  destruct (String.eqb c k); [now rewrite app_nil_r | now rewrite IH].
Qed.

Lemma merge_items_some s src :
  merge_items (Some s) src = Ok (Some (merged s src)).
Proof.
  revert s; induction src as [|[category items] rest IH]; intro s; simpl;
    [reflexivity|].
  rewrite <- assoc_has_key.
  destruct items; simpl;
    try (destruct (assoc category s); [rewrite extend_at_nil|]; apply IH).
  destruct (assoc category s); apply IH.
Qed.

Lemma merge_items_none src :
  merge_items None src
  = if existsb (fun kv => match snd kv with JList _ => true | _ => false end)
         src
    then Raise PyError else Ok None.
Proof.
  induction src as [|[category items] rest IH]; simpl; [reflexivity|].
  destruct items; simpl; auto.
Qed.

Lemma merged_keys s src : keys (merged s src) = keys s.
Proof.
  revert s; induction src as [|[category items] rest IH]; intro s; simpl;
    [reflexivity|].
  destruct (has_key category (keys s)); rewrite IH; [apply extend_at_keys|].
  reflexivity.
Qed.

Lemma assoc_merged c s src :
  assoc c (merged s src)
  = option_map (fun old => old ++ delta src c) (assoc c s).
Proof.
  revert s; induction src as [|[category items] rest IH]; intro s; simpl.
  - destruct (assoc c s); simpl; [now rewrite app_nil_r | reflexivity].
  - unfold delta; simpl; fold (delta rest c).
    destruct (has_key category (keys s)) eqn:Hk.
    + rewrite IH, assoc_extend_at.
      destruct (String.eqb category c).
      * destruct (assoc c s); simpl; [now rewrite app_assoc | reflexivity].
      * reflexivity.
    + rewrite IH.
      destruct (String.eqb category c) eqn:Ec; [|reflexivity].
      apply String.eqb_eq in Ec; subst c.
      rewrite <- assoc_has_key in Hk.
      now destruct (assoc category s).
Qed.

Lemma list_len_items_of v : List.length (items_of v) = list_len v.
Proof. now destruct v. Qed.

Lemma total_merged s src : total (merged s src) = total s + gain (keys s) src.
Proof.
  revert s; induction src as [|[category items] rest IH]; intro s;
    unfold gain; simpl; [lia|]; fold (gain (keys s) rest).
  destruct (has_key category (keys s)) eqn:Hk.
  - rewrite IH, extend_at_keys, total_extend_at, Hk, list_len_items_of. lia.
  - rewrite IH. lia.
Qed.

Lemma assoc_map_snd {V W} (f : V -> W) k (d : list (string * V)) :
  assoc k (map (fun kv => (fst kv, f (snd kv))) d) = option_map f (assoc k d).
Proof.
  induction d as [|[k' v] d IH]; simpl; [reflexivity|].
  now destruct (String.eqb k k').
Qed.

Lemma assoc_shape g m : assoc g (shape m) = option_map keys (assoc g m).
Proof. apply (assoc_map_snd keys). Qed.

Lemma assoc_replace_at {V} k k' (v : V) d :
  assoc k' (replace_at k v d)
  = if String.eqb k k' then option_map (fun _ => v) (assoc k' d)
    else assoc k' d.
Proof.
  induction d as [|[k0 v0] d IH]; simpl.
  - now destruct (String.eqb k k').
  - destruct (String.eqb k k0) eqn:E0; simpl.
    + apply String.eqb_eq in E0; subst k0.
      rewrite (String.eqb_sym k' k).
      now destruct (String.eqb k k').
    + destruct (String.eqb k' k0) eqn:E1; [|exact IH].
      apply String.eqb_eq in E1; subst k0. now rewrite E0.
Qed.

Lemma shape_replace_at vt s s' t :
  assoc vt t = Some s -> keys s' = keys s ->
  shape (replace_at vt s' t) = shape t.
Proof.
  intros Ha Hk.
  induction t as [|[k0 v0] t IH]; simpl in *; [reflexivity|].
  destruct (String.eqb vt k0); simpl.
  - injection Ha as ->. now rewrite Hk.
  - now rewrite IH.
Qed.

(** [merge_group] through its source side and the group it lands in. *)
Lemma merge_group_eq t source vt :
  merge_group t source vt
  = match group_src source vt with
    | Raise e => Raise e
    | Ok None => Ok t
    | Ok (Some src) =>
        match assoc vt t with
        | Some s => Ok (replace_at vt (merged s src) t)
        | None => rbind (merge_items None src) (fun _ => Ok t)
        end
    end.
Proof.
  unfold merge_group, group_src.
  destruct (py_in vt source) as [[|]|e]; simpl; try reflexivity.
  destruct (py_index source vt) as [g|e]; simpl; try reflexivity.
  destruct (py_items g) as [src|e]; simpl; try reflexivity.
  destruct (assoc vt t) as [s|].
  - now rewrite merge_items_some.
  - rewrite merge_items_none.
    now destruct (existsb _ src).
Qed.

Lemma merge_group_spec t source vt t' :
  merge_group t source vt = Ok t' ->
  shape t' = shape t
  /\ (forall g c,
        slot t' g c
        = option_map (fun old => old ++ contrib source vt g c) (slot t g c))
  /\ (forall g,
        group_total t' g
        = group_total t g + group_gain (shape t) source vt g).
Proof.
  rewrite merge_group_eq.
  unfold contrib, group_gain, group_entries.
  destruct (group_src source vt) as [[src|]|e]; [| |discriminate].
  - destruct (assoc vt t) as [s|] eqn:Ha.
    + intros [= <-]. split; [|split].
      * apply (shape_replace_at vt s); [exact Ha | apply merged_keys].
      * intros g c. unfold slot. rewrite assoc_replace_at.
        destruct (String.eqb vt g) eqn:E.
        -- apply String.eqb_eq in E; subst g. rewrite Ha. simpl.
           apply assoc_merged.
        -- destruct (assoc g t) as [s0|]; simpl; [|reflexivity].
           destruct (assoc c s0); simpl; [now rewrite app_nil_r|reflexivity].
      * intros g. unfold group_total. rewrite assoc_replace_at, assoc_shape.
        destruct (String.eqb vt g) eqn:E.
        -- apply String.eqb_eq in E; subst g. rewrite Ha. simpl.
           apply total_merged.
        -- lia.
    + rewrite merge_items_none.
      destruct (existsb _ src) eqn:Hl; simpl; [discriminate|].
      intros [= <-]. split; [reflexivity|split].
      * intros g c. unfold slot.
        destruct (String.eqb vt g) eqn:E.
        -- apply String.eqb_eq in E; subst g. now rewrite Ha.
        -- destruct (assoc g t) as [s0|]; simpl; [|reflexivity].
           destruct (assoc c s0); simpl; [now rewrite app_nil_r|reflexivity].
      * intros g. rewrite assoc_shape.
        destruct (String.eqb vt g) eqn:E; [|lia].
        apply String.eqb_eq in E; subst g. rewrite Ha. simpl. lia.
  - intros [= <-]. split; [reflexivity|split].
    + intros g c. unfold delta; simpl.
      destruct (slot t g c); simpl; [|reflexivity].
      destruct (String.eqb vt g); now rewrite app_nil_r.
    + intros g.
      destruct (String.eqb vt g); [|lia].
      unfold gain; simpl. destruct (assoc g (shape t)); lia.
Qed.

(** Whether [merge_group] raises depends on the target through its group
    keys only. *)
Lemma merge_group_ok_shape t1 t2 source vt :
  shape t1 = shape t2 ->
  is_ok (merge_group t1 source vt) = is_ok (merge_group t2 source vt).
Proof.
  intros Hs. rewrite !merge_group_eq.
  destruct (group_src source vt) as [[src|]|e]; try reflexivity.
  pose proof (assoc_shape vt t1) as H1.
  pose proof (assoc_shape vt t2) as H2.
  rewrite Hs in H1. rewrite H1 in H2.
  destruct (assoc vt t1), (assoc vt t2); simpl in *; try discriminate;
    try reflexivity.
  now destruct (merge_items None src).
Qed.

Lemma merge_menus_spec t source t' :
  merge_menus t source = Ok t' ->
  shape t' = shape t
  /\ (forall g c,
        slot t' g c
        = option_map (fun old => old ++ contribution source g c) (slot t g c))
  /\ (forall g,
        group_total t' g = group_total t g + menu_gain (shape t) source g).
Proof.
  unfold merge_menus, veg_types; simpl.
  destruct (merge_group t source "vegetarian") as [t1|e] eqn:H1; simpl;
    [|discriminate].
  destruct (merge_group t1 source "non_vegetarian") as [t2|e] eqn:H2; simpl;
    [|discriminate].
  intros [= <-].
  apply merge_group_spec in H1 as (S1 & L1 & G1).
  apply merge_group_spec in H2 as (S2 & L2 & G2).
  split; [congruence|split].
  - intros g c. rewrite L2, L1. unfold contribution.
    destruct (slot t g c); simpl; [now rewrite app_assoc|reflexivity].
  - intros g. rewrite G2, G1, S1. unfold menu_gain. lia.
Qed.

Lemma merge_menus_ok_shape t1 t2 source :
  shape t1 = shape t2 ->
  is_ok (merge_menus t1 source) = is_ok (merge_menus t2 source).
Proof.
  intros Hs. unfold merge_menus, veg_types; simpl.
  pose proof (merge_group_ok_shape t1 t2 source "vegetarian" Hs) as H1.
  destruct (merge_group t1 source "vegetarian") as [a|] eqn:Ea,
           (merge_group t2 source "vegetarian") as [b|] eqn:Eb;
    simpl in *; try discriminate; try reflexivity.
  apply merge_group_spec in Ea as (Sa & _), Eb as (Sb & _).
  assert (Hab : shape a = shape b) by congruence.
  pose proof (merge_group_ok_shape a b source "non_vegetarian" Hab) as H2.
  destruct (merge_group a source "non_vegetarian"),
           (merge_group b source "non_vegetarian");
    simpl in *; try discriminate; reflexivity.
Qed.

Lemma merge_one_spec t r t' :
  merge_one t r = Ok t' ->
  shape t' = shape t
  /\ (forall g c, exists d,
        slot t' g c = option_map (fun old => old ++ d) (slot t g c)
        /\ forall u u', shape u = shape t -> merge_one u r = Ok u' ->
             slot u' g c = option_map (fun old => old ++ d) (slot u g c))
  /\ (exists n, counted t' = counted t + n
        /\ forall u u', shape u = shape t -> merge_one u r = Ok u' ->
             counted u' = counted u + n).
Proof.
  destruct r as [parsed|]; simpl.
  - intros H. apply merge_menus_spec in H as (S & L & G).
    split; [exact S|split].
    + intros g c. exists (contribution parsed g c). split; [apply L|].
      intros u u' _ Hu. now apply merge_menus_spec in Hu as (_ & Lu & _).
    + exists (menu_gain (shape t) parsed "vegetarian"
              + menu_gain (shape t) parsed "non_vegetarian").
      unfold counted. split; [rewrite !G; lia|].
      intros u u' Su Hu. apply merge_menus_spec in Hu as (_ & _ & Gu).
      rewrite !Gu, Su. lia.
  - intros [= <-]. split; [reflexivity|split].
    + intros g c. exists []. split.
      * destruct (slot t g c); simpl; [now rewrite app_nil_r|reflexivity].
      * intros u u' _ [= <-].
        destruct (slot u g c); simpl; [now rewrite app_nil_r|reflexivity].
    + exists 0. split; [lia|]. intros u u' _ [= <-]. lia.
Qed.

Lemma merge_one_ok_shape t1 t2 r :
  shape t1 = shape t2 -> is_ok (merge_one t1 r) = is_ok (merge_one t2 r).
Proof.
  destruct r; simpl; [apply merge_menus_ok_shape | reflexivity].
Qed.

Lemma merge_results_cons t r rest :
  merge_results t (r :: rest)
  = rbind (merge_one t r) (fun t' => merge_results t' rest).
Proof. destruct r; reflexivity. Qed.

Lemma merge_results_two t r1 r2 :
  merge_results t [r1; r2]
  = rbind (merge_one t r1) (fun a => merge_one a r2).
Proof.
  rewrite merge_results_cons.
  destruct (merge_one t r1) as [a|]; [|reflexivity].
  cbn [rbind]. rewrite merge_results_cons.
  now destruct (merge_one a r2).
Qed.

End MergeFacts.

(** ** Counting and walking a backend answer *)

Section CountFacts.

Import Normalizer.

Lemma total_slots_json s :
  list_sum (map list_len (values (map (fun kv => (fst kv, JList (snd kv))) s)))
  = total s.
Proof.
  unfold total, values.
  induction s as [|[k l] s IH]; simpl; [reflexivity|]. now rewrite IH.
Qed.

Lemma count_group_menu m vt :
  count_group (menu_to_json m) vt = Ok (group_total m vt).
Proof.
  unfold count_group, menu_to_json, group_total; simpl.
  rewrite (assoc_map_snd slots_to_json).
  destruct (assoc vt m) as [s|]; simpl; [|reflexivity].
  now rewrite total_slots_json.
Qed.

(** [_count_items] on the running menu never raises. *)
Lemma count_items_menu m : count_items (menu_to_json m) = Ok (counted m).
Proof.
  unfold count_items, veg_types; simpl.
  rewrite !count_group_menu; simpl. reflexivity.
Qed.

(** [_count_items] and [_merge_menus] walk a source the same way. *)
Lemma count_group_src p vt :
  count_group p vt
  = rbind (group_src p vt)
      (fun o => Ok (match o with
                    | Some src => list_sum (map list_len (values src))
                    | None => 0
                    end)).
Proof.
  unfold count_group, group_src.
  destruct (py_in vt p) as [[|]|e]; simpl; try reflexivity.
  destruct (py_index p vt) as [g|e]; simpl; try reflexivity.
  now destruct g.
Qed.

Lemma walkable_group_src p :
  is_ok (count_items p) = true ->
  is_ok (group_src p "vegetarian") = true
  /\ is_ok (group_src p "non_vegetarian") = true.
Proof.
  unfold count_items, veg_types; simpl. rewrite !count_group_src.
  destruct (group_src p "vegetarian"); simpl; [|discriminate].
  destruct (group_src p "non_vegetarian"); simpl; [|discriminate].
  auto.
Qed.

Lemma merge_group_total t p vt :
  has_key vt (keys t) = true ->
  is_ok (group_src p vt) = true ->
  is_ok (merge_group t p vt) = true.
Proof.
  intros Hk Hg. rewrite merge_group_eq.
  destruct (group_src p vt) as [[src|]|e]; try discriminate; try reflexivity.
  rewrite <- assoc_has_key in Hk.
  now destruct (assoc vt t).
Qed.

Lemma keys_shape (m : menu) : keys (shape m) = keys m.
Proof. unfold keys, shape. rewrite map_map. reflexivity. Qed.

(** A walkable answer merges into a menu that has both groups. *)
Lemma merge_menus_total t p :
  has_key "vegetarian" (keys t) = true ->
  has_key "non_vegetarian" (keys t) = true ->
  is_ok (count_items p) = true ->
  is_ok (merge_menus t p) = true.
Proof.
  intros Hv Hn Hw. apply walkable_group_src in Hw as [Wv Wn].
  unfold merge_menus, veg_types; simpl.
  pose proof (merge_group_total t p _ Hv Wv) as H1.
  destruct (merge_group t p "vegetarian") as [t1|] eqn:E1; [|discriminate].
  simpl.
  apply merge_group_spec in E1 as (S1 & _).
  assert (Hn1 : has_key "non_vegetarian" (keys t1) = true).
  { rewrite <- keys_shape, S1, keys_shape. exact Hn. }
  pose proof (merge_group_total t1 p _ Hn1 Wn) as H2.
  now destruct (merge_group t1 p "non_vegetarian").
Qed.

(** What [parse_chunk] returns can be walked. *)
Lemma parse_chunk_walkable model text restaurant_name r :
  outcome_of (parse_chunk model text restaurant_name) = Ok r -> walkable r.
Proof.
  unfold parse_chunk; simpl. intros [= <-].
  destruct (model restaurant_name text) as [parsed|]; simpl; [|exact I].
  destruct (count_items parsed) eqn:E; simpl; [|exact I].
  now rewrite E.
Qed.

Lemma merge_results_fixed_shape results :
  forall t, shape t = shape combined_menu0 ->
  Forall walkable results ->
  exists m, merge_results t results = Ok m
    /\ shape m = shape combined_menu0
    /\ counted m = counted t + list_sum (map known_items results).
Proof.
  induction results as [|r rest IH]; intros t St Hw.
  - exists t. simpl. repeat split; [exact St | lia].
  - inversion Hw as [|? ? Hr Hrest]; subst.
    rewrite merge_results_cons.
    assert (Hok : is_ok (merge_one t r) = true).
    { destruct r as [parsed|]; simpl; [|reflexivity].
      apply merge_menus_total; [| |exact Hr];
        rewrite <- keys_shape, St; reflexivity. }
    destruct (merge_one t r) as [t1|] eqn:E1; [|discriminate]. simpl.
    assert (S1 : shape t1 = shape t /\ counted t1 = counted t + known_items r).
    { destruct r as [parsed|]; simpl in E1.
      - apply merge_menus_spec in E1 as (S1 & _ & G1). split; [exact S1|].
        unfold counted. rewrite !G1, St.
        unfold menu_gain, group_gain, known_items.
        change (assoc "vegetarian" (shape combined_menu0))
          with (Some vegetarian_categories).
        change (assoc "non_vegetarian" (shape combined_menu0))
          with (Some non_vegetarian_categories).
        change ("vegetarian" =? "vegetarian")%string with true.
        change ("non_vegetarian" =? "non_vegetarian")%string with true.
        change ("non_vegetarian" =? "vegetarian")%string with false.
        change ("vegetarian" =? "non_vegetarian")%string with false.
        cbv iota. lia.
      - injection E1 as <-. split; [reflexivity | simpl; lia]. }
    destruct S1 as [S1 C1].
    destruct (IH t1 (eq_trans S1 St) Hrest) as (m & Hm & Sm & Cm).
    exists m. repeat split; [exact Hm | exact Sm |]. simpl. lia.
Qed.

End CountFacts.

(** ** Claims on the normalizer's merge *)

Section MergeClaims.

Import Normalizer.

(** C4.  Merging any sequence of chunk results (as [_parse_chunk] returns
    them) into the initial [combined_menu] succeeds, and the merged menu
    has exactly the two groups with exactly the fixed categories of each:
    no key of a chunk result becomes a new slot.  Its item count is the
    number of items the results hold under the keys of that vocabulary:
    what sits under any other group or category key contributes 0. *)
Theorem merge_keeps_fixed_vocabulary (results : list chunk_result) :
  Forall walkable results ->
  exists m,
    merge_results combined_menu0 results = Ok m
    /\ shape m = [("vegetarian", vegetarian_categories);
                  ("non_vegetarian", non_vegetarian_categories)]
    /\ count_items (menu_to_json m)
       = Ok (list_sum (map known_items results)).
Proof.
  intros Hw.
  destruct (merge_results_fixed_shape results combined_menu0 eq_refl Hw)
    as (m & Hm & Sm & Cm).
  exists m. split; [exact Hm|split].
  - exact Sm.
  - rewrite count_items_menu, Cm. reflexivity.
Qed.

(** C6.  Merging two chunk results into any starting menu in the order
    [R1, R2] and in the order [R2, R1] gives the same total item count,
    the same group and category keys and, slot by slot, the same items up
    to their order; and one order raises exactly when the other does. *)
Theorem merge_order_permutes_slots (t : menu) (R1 R2 : chunk_result) :
  match merge_results t [R1; R2], merge_results t [R2; R1] with
  | Ok a, Ok b =>
      (exists n, count_items (menu_to_json a) = Ok n
                 /\ count_items (menu_to_json b) = Ok n)
      /\ shape a = shape b
      /\ forall g c, same_items (slot a g c) (slot b g c)
  | Raise _, Raise _ => True
  | _, _ => False
  end.
Proof.
  rewrite !merge_results_two.
  destruct (merge_one t R1) as [a1|] eqn:E1,
           (merge_one t R2) as [b2|] eqn:E2; simpl.
  - pose proof (merge_one_spec _ _ _ E1) as (S1 & L1 & n1 & C1 & T1).
    pose proof (merge_one_spec _ _ _ E2) as (S2 & L2 & n2 & C2 & T2).
    pose proof (merge_one_ok_shape a1 t R2 S1) as O12.
    pose proof (merge_one_ok_shape b2 t R1 S2) as O21.
    rewrite E2 in O12. rewrite E1 in O21.
    destruct (merge_one a1 R2) as [a12|] eqn:E12; [|discriminate].
    destruct (merge_one b2 R1) as [b21|] eqn:E21; [|discriminate].
    simpl.
    pose proof (merge_one_spec _ _ _ E12) as (S12 & _).
    pose proof (merge_one_spec _ _ _ E21) as (S21 & _).
    split; [|split].
    + exists (counted a12). rewrite !count_items_menu. split; [reflexivity|].
      f_equal.
      rewrite (T2 a1 a12 S1 E12), (T1 b2 b21 S2 E21), C1, C2. lia.
    + congruence.
    + intros g c.
      destruct (L1 g c) as (d1 & H1 & U1), (L2 g c) as (d2 & H2 & U2).
      rewrite (U2 a1 a12 S1 E12), (U1 b2 b21 S2 E21), H1, H2.
      destruct (slot t g c) as [old|]; simpl; [|exact I].
      rewrite <- !app_assoc. apply Permutation_app_head, Permutation_app_comm.
  - pose proof (merge_one_spec _ _ _ E1) as (S1 & _).
    pose proof (merge_one_ok_shape a1 t R2 S1) as O12. rewrite E2 in O12.
    now destruct (merge_one a1 R2).
  - pose proof (merge_one_spec _ _ _ E2) as (S2 & _).
    pose proof (merge_one_ok_shape b2 t R1 S2) as O21. rewrite E1 in O21.
    now destruct (merge_one b2 R1).
  - exact I.
Qed.

End MergeClaims.

(** Two answers that fill the same slot, merged in both orders. *)
Example merge_two_orders :
  let r1 := Normalizer.ChunkMenu
              (JDict [("vegetarian",
                       JDict [("starters", JList [item "Paneer Tikka"])])]) in
  let r2 := Normalizer.ChunkMenu
              (JDict [("vegetarian",
                       JDict [("starters", JList [item "Hara Bhara Kabab"]);
                              ("soups", JList [item "Tomato Soup"])])]) in
  option_map (fun m => slot m "vegetarian" "starters")
    (match Normalizer.merge_results Normalizer.combined_menu0 [r1; r2] with
     | Ok m => Some m
     | Raise _ => None
     end)
  = Some (Some [item "Paneer Tikka"; item "Hara Bhara Kabab"])
  /\ option_map (fun m => slot m "vegetarian" "starters")
       (match Normalizer.merge_results Normalizer.combined_menu0 [r2; r1] with
        | Ok m => Some m
        | Raise _ => None
        end)
     = Some (Some [item "Hara Bhara Kabab"; item "Paneer Tikka"]).
Proof. split; reflexivity. Qed.

Lemma sample_results_walkable : Forall walkable sample_results.
Proof. repeat constructor. Qed.

Lemma merge_keeps_fixed_vocabulary_witness :
  exists m,
    Normalizer.merge_results Normalizer.combined_menu0 sample_results = Ok m
    /\ shape m = [("vegetarian", Normalizer.vegetarian_categories);
                  ("non_vegetarian", Normalizer.non_vegetarian_categories)]
    /\ Normalizer.count_items (Normalizer.menu_to_json m)
       = Ok (list_sum (map known_items sample_results)).
Proof.
  apply (merge_keeps_fixed_vocabulary sample_results).
  repeat constructor.
Defined.

(** The sample answer holds three items and one of them is kept. *)
Example sample_results_count :
  list_sum (map known_items sample_results) = 1
  /\ Normalizer.merge_results Normalizer.combined_menu0 sample_results
     = Ok [("vegetarian",
            [("starters", [item "Paneer Tikka"]); ("main_course", []);
             ("rice_and_biryani", []); ("breads", []); ("desserts", []);
             ("beverages", [])]);
           ("non_vegetarian",
            Normalizer.empty_slots Normalizer.non_vegetarian_categories)].
Proof. split; reflexivity. Qed.

(** ** The length guard of [normalize] *)

Section NormalizeClaims.

Import Normalizer.

Lemma str_truthy_length s : str_truthy s = false -> String.length s = 0.
Proof. destruct s; [reflexivity | discriminate]. Qed.

(** C5, counterexample.  With no backend configured a corpus of 10
    characters is answered "Gemini not configured", not "Insufficient
    text". *)
Lemma normalize_unconfigured_short_corpus :
  String.length "0123456789" = 10
  /\ normalize None "0123456789" "Tandoori Treat"
     = ([], Ok (NormError "Gemini not configured")).
Proof. split; reflexivity. Qed.

(** C5, as amended.  For every corpus shorter than the threshold of 50
    characters [normalize] makes no call to the structuring backend and
    returns an error result: "Insufficient text" when a backend is
    configured, "Gemini not configured" when none is.  Hence the backend
    is called only for a corpus of at least 50 characters. *)
Theorem normalize_short_corpus (model : option backend)
  (raw_text restaurant_name : string) :
  String.length raw_text < min_text_length ->
  normalize model raw_text restaurant_name
  = ([], Ok (NormError match model with
                       | Some _ => "Insufficient text"
                       | None => "Gemini not configured"
                       end))
  /\ forall chunk,
       ~ In (GeminiCall chunk) (trace (normalize model raw_text restaurant_name)).
Proof.
  intros Hlen.
  assert (E : normalize model raw_text restaurant_name
              = ([], Ok (NormError match model with
                                   | Some _ => "Insufficient text"
                                   | None => "Gemini not configured"
                                   end))).
  { unfold normalize. destruct model as [m|]; [|reflexivity].
    apply Nat.ltb_lt in Hlen. rewrite Hlen, orb_true_r. reflexivity. }
  split; [exact E|]. rewrite E. intros chunk [].
Qed.

Lemma normalize_short_corpus_witness :
  normalize (Some silent_backend) "0123456789" "Tandoori Treat"
  = ([], Ok (NormError "Insufficient text"))
  /\ forall chunk,
       ~ In (GeminiCall chunk)
           (trace (normalize (Some silent_backend) "0123456789"
                     "Tandoori Treat")).
Proof.
  apply (normalize_short_corpus (Some silent_backend) "0123456789"
           "Tandoori Treat").
  unfold min_text_length. simpl. lia.
Defined.

End NormalizeClaims.

(** ** Chunking *)

Section SplitFacts.

Import Normalizer.

Lemma str_contains_cons p c s :
  str_contains p (String c s) = starts_with p (String c s) || str_contains p s.
Proof. reflexivity. Qed.

Lemma starts_with_nlnl c c' s :
  starts_with nlnl (String c (String c' s)) = Ascii.eqb nl c && Ascii.eqb nl c'.
Proof. unfold nlnl. cbn [starts_with]. now rewrite andb_true_r. Qed.

Lemma split_nlnl_no_boundary text :
  str_contains nlnl text = false -> split_nlnl text = [text].
Proof.
  induction text as [|c s IH]; [reflexivity|].
  intros H. rewrite str_contains_cons in H.
  apply orb_false_iff in H as [Hhere Hrest].
  specialize (IH Hrest).
  destruct s as [|c' s']; [reflexivity|].
  rewrite starts_with_nlnl in Hhere.
  change (split_nlnl (String c (String c' s')))
    with (if Ascii.eqb c nl && Ascii.eqb c' nl
          then EmptyString :: split_nlnl s'
          else match split_nlnl (String c' s') with
               | p :: ps => String c p :: ps
               | [] => [String c EmptyString]
               end).
  rewrite (Ascii.eqb_sym c nl), (Ascii.eqb_sym c' nl).
  rewrite Hhere, IH. reflexivity.
Qed.

Lemma append_nlnl_truthy s : str_truthy (s ++ nlnl) = true.
Proof. destruct s; reflexivity. Qed.

Lemma lstrip_app_nlnl s :
  lstrip (s ++ nlnl)
  = match lstrip s with
    | EmptyString => EmptyString
    | r => (r ++ nlnl)%string
    end.
Proof.
  induction s as [|c s IH]; [reflexivity|].
  simpl. destruct (is_space c); [exact IH | reflexivity].
Qed.

Lemma rstrip_app_nlnl s : rstrip (s ++ nlnl) = rstrip s.
Proof.
  induction s as [|c s IH]; [reflexivity|].
  simpl. now rewrite IH.
Qed.

Lemma strip_app_nlnl s : strip (s ++ nlnl) = strip s.
Proof.
  unfold strip. rewrite lstrip_app_nlnl.
  destruct (lstrip s) as [|c r] eqn:E; [reflexivity|].
  apply (rstrip_app_nlnl (String c r)).
Qed.

(** A corpus without a paragraph boundary is one chunk, whatever its
    length: the text itself, stripped. *)
Lemma split_text_no_boundary text size :
  str_contains nlnl text = false -> split_text text size = [strip text].
Proof.
  intros H. unfold split_text. rewrite (split_nlnl_no_boundary text H).
  simpl.
  destruct (String.length text <? size)%nat; simpl;
    rewrite append_nlnl_truthy, strip_app_nlnl; reflexivity.
Qed.

(** After the loop [current] is never empty: the fallback
    [[text[:chunk_size]]] of the last line is not reachable. *)
Lemma split_loop_current_truthy size paras st :
  paras <> [] ->
  str_truthy (snd (fold_left (split_step size) paras st)) = true.
Proof.
  intros Hne. destruct (exists_last Hne) as (l & para & ->).
  rewrite fold_left_app. simpl.
  destruct (fold_left (split_step size) l st) as [chunks current].
  unfold split_step.
  destruct (String.length current + String.length para <? size)%nat; simpl.
  - destruct current; [apply append_nlnl_truthy | reflexivity].
  - apply append_nlnl_truthy.
Qed.

Lemma split_nlnl_nonempty text : split_nlnl text <> [].
Proof.
  induction text as [|c s IH]; [discriminate|].
  destruct s as [|c' s']; [discriminate|].
  change (split_nlnl (String c (String c' s')))
    with (if Ascii.eqb c nl && Ascii.eqb c' nl
          then EmptyString :: split_nlnl s'
          else match split_nlnl (String c' s') with
               | p :: ps => String c p :: ps
               | [] => [String c EmptyString]
               end).
  destruct (Ascii.eqb c nl && Ascii.eqb c' nl); [discriminate|].
  destruct (split_nlnl (String c' s')); discriminate.
Qed.

Lemma split_text_unfold text size :
  split_text text size
  = let st := fold_left (split_step size) (split_nlnl text) ([], EmptyString)
    in fst st ++ [strip (snd st)].
Proof.
  unfold split_text.
  pose proof (split_loop_current_truthy size (split_nlnl text)
                ([], EmptyString) (split_nlnl_nonempty text)) as H.
  destruct (fold_left (split_step size) (split_nlnl text) ([], EmptyString))
    as [chunks current]. simpl in *. rewrite H.
  destruct (chunks ++ [strip current]) eqn:E; [|reflexivity].
  now apply app_eq_nil in E as [_ E].
Qed.

Lemma split_text_nonempty text size : split_text text size <> [].
Proof.
  rewrite split_text_unfold. simpl. intros E.
  now apply app_eq_nil in E as [_ E].
Qed.

Lemma replicate_length n c : String.length (replicate n c) = n.
Proof. induction n; simpl; congruence. Qed.

Lemma replicate_no_boundary n :
  str_contains nlnl (replicate n "a"%char) = false.
Proof.
  induction n as [|n IH]; [reflexivity|].
  change (replicate (S n) "a"%char) with (String "a"%char (replicate n "a"%char)).
  rewrite str_contains_cons, IH. reflexivity.
Qed.

Lemma rstrip_replicate n : rstrip (replicate n "a"%char) = replicate n "a"%char.
Proof.
  induction n as [|n IH]; [reflexivity|].
  simpl. rewrite IH. now destruct (replicate n "a"%char).
Qed.

Lemma strip_replicate n : strip (replicate n "a"%char) = replicate n "a"%char.
Proof.
  unfold strip. destruct n; [reflexivity|].
  simpl. apply (rstrip_replicate (S n)).
Qed.

(** C9, the failing inputs.  A corpus of [chunk_size + k] letters with
    no paragraph boundary comes back as one chunk holding all of it:
    longer than the budget by [k], where the claim has one chunk truncated
    to the budget ([take chunk_size]). *)
Theorem split_text_keeps_oversized_paragraph (k : nat) :
  let text := replicate (chunk_size + k) "a"%char in
  str_contains nlnl text = false
  /\ split_text text chunk_size = [text]
  /\ String.length text = chunk_size + k
  /\ String.length (take chunk_size text) = chunk_size.
Proof.
  intros text. subst text.
  split; [apply replicate_no_boundary|].
  split; [|split].
  - rewrite split_text_no_boundary by apply replicate_no_boundary.
    now rewrite strip_replicate.
  - apply replicate_length.
  - unfold take. generalize chunk_size as n.
    induction n as [|n IH]; simpl; [now destruct (replicate k "a"%char)|].
    now rewrite IH.
Qed.

End SplitFacts.

(** ** [normalize] as a whole *)

Section NormalizeFacts.

Import Normalizer.

Lemma gather_chunks_outcome model rn chunks :
  exists results,
    gather_chunks model rn chunks = (map GeminiCall chunks, Ok results)
    /\ Forall walkable results.
Proof.
  induction chunks as [|c chunks (results & E & W)]; cbn [gather_chunks].
  - exists []. split; [reflexivity | constructor].
  - destruct (parse_chunk model c rn) as [t [r|e]] eqn:P;
      unfold parse_chunk in P; cbn [bind emit ret app] in P;
      injection P as <- P; [|discriminate].
    exists (r :: results). rewrite bind_ok, E, bind_ok.
    cbn [trace outcome_of fst snd ret map app]. rewrite app_nil_r.
    split; [reflexivity|]. constructor; [|exact W].
    subst r. destruct (model rn c) as [parsed|]; [|exact I].
    destruct (count_items parsed) eqn:C; [|exact I].
    cbn [walkable]. now rewrite C.
Qed.

(** [normalize] never raises; the menu it returns has the fixed keys and
    the item count it reports is the count of that menu. *)
Lemma normalize_total model raw rn :
  exists r,
    outcome_of (normalize model raw rn) = Ok r
    /\ match r with
       | NormMenu m n k =>
           shape m = shape combined_menu0 /\ n = counted m
           /\ k = List.length (split_text raw chunk_size)
       | NormError _ => True
       end.
Proof.
  unfold normalize. destruct model as [b|]; [|now eexists].
  destruct (negb (str_truthy raw) || (String.length raw <? min_text_length)%nat);
    [now eexists|].
  destruct (gather_chunks_outcome b rn (split_text raw chunk_size))
    as (results & E & W).
  destruct (merge_results_fixed_shape results combined_menu0 eq_refl W)
    as (m & Hm & Sm & _).
  rewrite E, bind_ok. unfold lift. rewrite Hm.
  cbn [trace outcome_of fst snd]. rewrite bind_ok, count_items_menu.
  cbn [trace outcome_of fst snd]. rewrite bind_ok.
  cbn [trace outcome_of fst snd ret].
  eexists. split; [reflexivity|]. cbv beta iota. auto.
Qed.

(** With a backend and a corpus of at least 50 characters, one call is
    made per chunk, and there is at least one chunk. *)
Lemma normalize_long_corpus_calls_backend b raw rn :
  min_text_length <= String.length raw ->
  trace (normalize (Some b) raw rn)
  = map GeminiCall (split_text raw chunk_size)
  /\ split_text raw chunk_size <> [].
Proof.
  intros Hlen. split; [|apply split_text_nonempty].
  unfold normalize.
  assert (T : str_truthy raw = true).
  { destruct raw; [simpl in Hlen; unfold min_text_length in Hlen; lia|].
    reflexivity. }
  apply Nat.ltb_ge in Hlen. rewrite T, Hlen. cbn [negb orb].
  destruct (gather_chunks_outcome b rn (split_text raw chunk_size))
    as (results & E & W).
  destruct (merge_results_fixed_shape results combined_menu0 eq_refl W)
    as (m & Hm & _).
  rewrite E, bind_ok. unfold lift. rewrite Hm.
  cbn [trace outcome_of fst snd]. rewrite bind_ok, count_items_menu.
  cbn [trace outcome_of fst snd]. rewrite bind_ok.
  cbn [trace outcome_of fst snd ret]. now rewrite !app_nil_r.
Qed.

End NormalizeFacts.

(** ** The OCR fan-out *)

Section OcrFacts.

Import Ocr.

Lemma gather_ocr_from client i urls :
  gather_ocr client (enumerate_from i urls)
  = (map VisionOcr urls,
     Ok (map (fun p => (fst p, ocr_text client (snd p)))
           (enumerate_from i urls))).
Proof.
  revert i; induction urls as [|u urls IH]; intro i; [reflexivity|].
  simpl. rewrite IH. simpl. now rewrite app_nil_r.
Qed.

(** The gather returns one result per URL, in the order of the URLs. *)
Lemma gather_ocr_results client urls :
  gather_ocr client (enumerate urls)
  = (map VisionOcr urls, Ok (ocr_results client urls)).
Proof. apply gather_ocr_from. Qed.

Lemma ocr_results_from_length client i urls :
  List.length (map (fun p => (fst p, ocr_text client (snd p)))
                 (enumerate_from i urls))
  = List.length urls.
Proof.
  rewrite length_map. revert i.
  induction urls as [|u urls IH]; intro i; simpl; [reflexivity|].
  now rewrite IH.
Qed.

Lemma ocr_results_length client urls :
  List.length (ocr_results client urls) = List.length urls.
Proof. apply ocr_results_from_length. Qed.

Lemma ocr_results_from_nth client i urls k url :
  nth_error urls k = Some url ->
  nth_error (map (fun p => (fst p, ocr_text client (snd p)))
               (enumerate_from i urls)) k
  = Some (i + k, ocr_text client url).
Proof.
  revert i k; induction urls as [|u urls IH]; intros i k H.
  - destruct k; discriminate.
  - destruct k as [|k]; simpl in *.
    + injection H as ->. now rewrite Nat.add_0_r.
    + rewrite (IH (S i) k H). f_equal. f_equal. lia.
Qed.

Lemma ocr_results_from_sorted client i urls :
  StronglySorted lt_index
    (map (fun p => (fst p, ocr_text client (snd p))) (enumerate_from i urls))
  /\ Forall (fun p => i <= fst p)
       (map (fun p => (fst p, ocr_text client (snd p)))
          (enumerate_from i urls)).
Proof.
  revert i; induction urls as [|u urls IH]; intro i; simpl.
  - split; constructor.
  - destruct (IH (S i)) as [Hs Hf]. split.
    + constructor; [exact Hs|].
      eapply Forall_impl; [|exact Hf].
      intros p Hp. unfold lt_index. cbn [fst]. cbv beta in Hp. lia.
    + constructor; [simpl; lia|].
      eapply Forall_impl; [|exact Hf]. intros p Hp. cbv beta in Hp. lia.
Qed.

Lemma ocr_results_sorted client urls :
  StronglySorted lt_index (ocr_results client urls).
Proof. apply ocr_results_from_sorted. Qed.

(** *** The stable sort *)

Lemma insert_by_index_perm x l : Permutation (insert_by_index x l) (x :: l).
Proof.
  induction l as [|y l IH]; simpl; [reflexivity|].
  destruct (fst x <=? fst y)%nat; [reflexivity|].
  rewrite IH. apply perm_swap.
Qed.

Lemma sorted_by_index_perm l : Permutation (sorted_by_index l) l.
Proof.
  induction l as [|x l IH]; simpl; [reflexivity|].
  rewrite insert_by_index_perm. now constructor.
Qed.

Lemma insert_by_index_sorted x l :
  StronglySorted le_index l -> StronglySorted le_index (insert_by_index x l).
Proof.
  induction 1 as [|y l Hs IH Hy]; simpl; [repeat constructor|].
  destruct (fst x <=? fst y)%nat eqn:E.
  - apply Nat.leb_le in E. constructor; [now constructor|].
    constructor; [exact E|].
    eapply Forall_impl; [|exact Hy]. unfold le_index. intros; lia.
  - apply Nat.leb_gt in E. constructor; [exact IH|].
    rewrite insert_by_index_perm. constructor; [|exact Hy].
    unfold le_index. lia.
Qed.

Lemma sorted_by_index_sorted l : StronglySorted le_index (sorted_by_index l).
Proof.
  induction l as [|x l IH]; simpl; [constructor|].
  now apply insert_by_index_sorted.
Qed.

(** A sorted list is determined by its elements when the indices are
    distinct. *)
Lemma sorted_unique l1 :
  forall l2,
    StronglySorted le_index l1 -> StronglySorted lt_index l2 ->
    Permutation l1 l2 -> l1 = l2.
Proof.
  induction l1 as [|a l1 IH]; intros l2 H1 H2 HP.
  - now apply Permutation_nil in HP.
  - destruct l2 as [|b l2].
    + now apply Permutation_sym, Permutation_nil in HP.
    + apply StronglySorted_inv in H1 as [H1 Ha].
      apply StronglySorted_inv in H2 as [H2 Hb].
      assert (Eab : a = b).
      { assert (Ia : In a (b :: l2))
          by (eapply Permutation_in; [exact HP | now left]).
        destruct Ia as [->|Ia]; [reflexivity|].
        assert (Ib : In b (a :: l1))
          by (eapply Permutation_in;
              [apply Permutation_sym; exact HP | now left]).
        destruct Ib as [->|Ib]; [reflexivity|].
        rewrite Forall_forall in Ha, Hb.
        specialize (Ha b Ib). specialize (Hb a Ia).
        unfold le_index, lt_index in *. lia. }
      subst b. f_equal.
      apply IH; [exact H1 | exact H2 |].
      eapply Permutation_cons_inv; exact HP.
Qed.

(** Whatever order the results arrive in, sorting restores the order of
    the URLs. *)
Lemma sorted_by_index_restores client urls rs :
  Permutation rs (ocr_results client urls) ->
  sorted_by_index rs = ocr_results client urls.
Proof.
  intros HP. apply sorted_unique.
  - apply sorted_by_index_sorted.
  - apply ocr_results_sorted.
  - rewrite sorted_by_index_perm. exact HP.
Qed.

Lemma collect_eq rs :
  collect rs = (map to_item (filter has_text rs), map snd (filter has_text rs)).
Proof.
  induction rs as [|[i text] rs IH]; [reflexivity|].
  simpl. rewrite IH.
  change (has_text (i, text)) with (str_truthy text).
  destruct (str_truthy text); reflexivity.
Qed.

Lemma combine_results_eq rs :
  combine_results rs
  = {| source := "google_vision";
       items := map to_item (filter has_text (sorted_by_index rs));
       combined_text :=
         join separator (map snd (filter has_text (sorted_by_index rs))) |}.
Proof. unfold combine_results. now rewrite collect_eq. Qed.

Lemma process_images_eq client urls :
  process_images client urls
  = (map VisionOcr urls, Ok (combine_results (ocr_results client urls))).
Proof.
  destruct urls as [|u urls]; [reflexivity|].
  unfold process_images. rewrite gather_ocr_results.
  cbn [bind ret]. now rewrite app_nil_r.
Qed.

Lemma filter_length_le {A} (f : A -> bool) l :
  List.length (filter f l) <= List.length l.
Proof.
  induction l as [|x l IH]; simpl; [lia|].
  destruct (f x); simpl; lia.
Qed.

Lemma filter_sorted_lt f l :
  StronglySorted lt_index l -> StronglySorted lt_index (filter f l).
Proof.
  induction 1 as [|x l Hs IH Hx]; simpl; [constructor|].
  destruct (f x); [|exact IH].
  constructor; [exact IH|].
  rewrite Forall_forall in *. intros y Hy.
  apply filter_In in Hy as [Hy _]. now apply Hx.
Qed.

(** C2, counterexample.  Three URLs are processed, the second image has
    no text and the third call fails: the per-image list of the result
    has one entry, not three. *)
Lemma process_images_drops_empty_slots :
  List.length sample_urls = 3
  /\ process_images sample_vision sample_urls
     = ([VisionOcr "u0"; VisionOcr "u1"; VisionOcr "u2"],
        Ok {| source := "google_vision";
              items := [{| raw_text := "A"; image_index := 0 |}];
              combined_text := "A" |}).
Proof. split; reflexivity. Qed.

(** C2, as amended.  One OCR call is made per URL and the gathered list
    has one [(index, text)] entry per URL, at the index of the URL, a
    failing or empty call giving the empty string there.  The per-image
    list of the result keeps, in that order and with their original index,
    the entries whose text is not empty, and the combined text joins the
    texts of these same entries: an entry with an empty text is left out
    of both, so the per-image list is at most as long as the list of
    URLs. *)
Theorem process_images_slots (client : vision) (urls : list string) :
  exists gathered out,
    gather_ocr client (enumerate urls) = (map VisionOcr urls, Ok gathered)
    /\ process_images client urls = (map VisionOcr urls, Ok out)
    /\ List.length gathered = List.length urls
    /\ (forall i url,
          nth_error urls i = Some url ->
          nth_error gathered i = Some (i, ocr_text client url)
          /\ (client url = None \/ client url = Some [] ->
              nth_error gathered i = Some (i, EmptyString)))
    /\ items out = map to_item (filter has_text gathered)
    /\ combined_text out
       = join separator (map snd (filter has_text gathered))
    /\ List.length (items out) <= List.length urls.
Proof.
  exists (ocr_results client urls), (combine_results (ocr_results client urls)).
  split; [apply gather_ocr_results|].
  split; [apply process_images_eq|].
  split; [apply ocr_results_length|].
  split.
  { intros i url H.
    pose proof (ocr_results_from_nth client 0 urls i url H) as N.
    split; [exact N|].
    intros E. change (ocr_results client urls)
      with (map (fun p => (fst p, ocr_text client (snd p)))
              (enumerate_from 0 urls)).
    rewrite N. unfold ocr_text. now destruct E as [-> | ->]. }
  rewrite combine_results_eq. cbn [items combined_text].
  rewrite (sorted_by_index_restores client urls _ (Permutation_refl _)).
  split; [reflexivity|]. split; [reflexivity|].
  rewrite length_map.
  etransitivity; [apply filter_length_le|].
  now rewrite ocr_results_length.
Qed.



Example abc_combined_text :
  combined_text (combine_results [(1, "B"); (2, "C"); (0, "A")])
  = ("A" ++ separator ++ "B" ++ separator ++ "C")%string.
Proof. reflexivity. Qed.

End OcrFacts.

(** ** The durable-store lookup *)

Section MongoFacts.

Import Mongo.

Lemma not_meta c :
  is_meta c = false ->
  is_special c = false /\ quant_of c = None /\ atom_of c = Lit c.
Proof.
  unfold is_meta, atom_of. intros H.
  apply orb_false_iff in H as [H Hq].
  apply orb_false_iff in H as [Hd Hs].
  rewrite Hd. repeat split; [exact Hs|].
  now destruct (quant_of c).
Qed.

(** A literal query compiles to the sequence of its characters. *)
Lemma compile_literal q : literal q = true -> compile q = Some (lits q).
Proof.
  induction q as [|c q IH]; [reflexivity|].
  intros H. cbn [literal] in H. apply andb_true_iff in H as [Hc Hq].
  apply negb_true_iff, not_meta in Hc as (Hs & Hn & Ha).
  specialize (IH Hq).
  cbn [compile lits]. rewrite Hs, Hn, Ha.
  destruct q as [|c' q']; [reflexivity|].
  cbn [literal] in Hq. apply andb_true_iff in Hq as [Hc' _].
  apply negb_true_iff, not_meta in Hc' as (_ & Hn' & _).
  rewrite Hn', IH. reflexivity.
Qed.

Lemma match_here_lits q s : match_here (lits q) s = ci_starts_with q s.
Proof.
  revert s; induction q as [|c q IH]; intro s; [now destruct s|].
  destruct s as [|b s]; [reflexivity|].
  cbn [lits match_here ci_starts_with atom_matches]. now rewrite IH.
Qed.

(** On a literal query the store's search is case-insensitive
    containment. *)
Lemma search_lits q s : search (lits q) s = ci_contains q s.
Proof.
  induction s as [|b s IH]; cbn [search ci_contains];
    rewrite match_here_lits; [reflexivity|].
  now rewrite IH.
Qed.

(** [ci_contains] is containment of the lower-cased strings. *)
Lemma ci_starts_with_spec q s :
  ci_starts_with q s = true
  <-> exists post, lower_string s = (lower_string q ++ post)%string.
Proof.
  revert s; induction q as [|a q IH]; intro s.
  - split; [intros _; now exists (lower_string s) | reflexivity].
  - destruct s as [|b s]; cbn [ci_starts_with lower_string].
    + split; [discriminate | intros [post H]; discriminate].
    + rewrite andb_true_iff, Ascii.eqb_eq, IH. split.
      * intros [-> [post ->]]. now exists post.
      * intros [post H]. injection H as -> ->. split; [reflexivity|].
        now exists post.
Qed.

Lemma ci_contains_spec q s :
  ci_contains q s = true
  <-> exists pre post,
        lower_string s = (pre ++ lower_string q ++ post)%string.
Proof.
  induction s as [|b s IH]; cbn [ci_contains].
  - rewrite orb_false_r, ci_starts_with_spec. split.
    + intros [post H]. now exists EmptyString, post.
    + intros (pre & post & H). destruct pre; [now exists post|discriminate].
  - rewrite orb_true_iff, ci_starts_with_spec, IH. split.
    + intros [[post H]|(pre & post & H)].
      * now exists EmptyString, post.
      * exists (String (lower b) pre), post. cbn [lower_string].
        now rewrite H.
    + intros (pre & post & H). destruct pre as [|p pre].
      * left. now exists post.
      * right. cbn [lower_string] in H. injection H as _ H.
        now exists pre, post.
Qed.

Lemma find_first {A} (f : A -> bool) l x :
  In x l -> f x = true ->
  exists y, find f l = Some y /\ In y l /\ f y = true.
Proof.
  induction l as [|a l IH]; intros Hin Hx; [destruct Hin|].
  simpl. destruct (f a) eqn:Ea.
  - exists a. repeat split; [now left | exact Ea].
  - destruct Hin as [->|Hin]; [congruence|].
    destruct (IH Hin Hx) as (y & Hy & Iy & Fy).
    exists y. repeat split; [exact Hy | now right | exact Fy].
Qed.

Lemma field_matches_name q doc :
  field_matches (lits q) doc "restaurant_name" = name_contains q doc.
Proof.
  unfold field_matches, name_contains.
  destruct (assoc "restaurant_name" doc) as [[]|]; try reflexivity.
  apply search_lits.
Qed.

Lemma field_matches_location l doc :
  field_matches (lits l) doc "location" = location_contains l doc.
Proof.
  unfold field_matches, location_contains.
  destruct (assoc "location" doc) as [[]|]; try reflexivity.
  apply search_lits.
Qed.




Example tandoori_treat_is_found :
  get_menu [sample_document "Tandoori Treat" "Koramangala"]
    (Some "tandoori") (Some "koramangala")
  = ([MongoFind "tandoori"],
     Ok (Some (sample_document "Tandoori Treat" "Koramangala"))).
Proof. reflexivity. Qed.

(** An empty query name is answered [None] without a lookup, though the
    empty string is contained in every name. *)
Example empty_name_finds_nothing :
  get_menu [sample_document "Tandoori Treat" "Koramangala"] (Some "") None
  = ([], Ok None).
Proof. reflexivity. Qed.

End MongoFacts.

(** ** The stages of a fresh extraction *)

Section StageFacts.

Import Normalizer Ocr Mongo Serp Endpoints.

Lemma search_restaurant_events c n l : all_events not_read (search_restaurant c n l).
Proof. unfold search_restaurant. auto with events. Qed.

Lemma get_menu_photos_events c d : all_events not_read (get_menu_photos c d).
Proof. unfold get_menu_photos. auto with events. Qed.

Lemma extract_menu_images_events c n l k u :
  all_events not_read (extract_menu_images c n l k u).
Proof.
  unfold extract_menu_images.
  apply all_events_bind; [apply search_restaurant_events|].
  intros [pl|]; [|auto with events].
  destruct (negb (opt_str_truthy (data_id pl))); [auto with events|].
  apply all_events_bind; [apply get_menu_photos_events | auto with events].
Qed.

Lemma process_images_events client urls :
  all_events not_read (process_images client urls).
Proof.
  rewrite process_images_eq. unfold all_events. simpl.
  induction urls; simpl; constructor; auto.
Qed.

Lemma gather_chunks_events model rn chunks :
  all_events not_read (gather_chunks model rn chunks).
Proof.
  induction chunks as [|c chunks IH]; cbn [gather_chunks]; [auto with events|].
  apply all_events_bind; [unfold parse_chunk; auto with events|].
  intros r. apply all_events_bind; [exact IH | auto with events].
Qed.

Lemma normalize_events model raw rn : all_events not_read (normalize model raw rn).
Proof.
  unfold normalize. destruct model as [m|]; [|auto with events].
  destruct (negb (str_truthy raw) || (String.length raw <? min_text_length)%nat);
    [auto with events|].
  apply all_events_bind; [apply gather_chunks_events|]. intros results.
  apply all_events_bind; [auto with events|]. intros cm.
  apply all_events_bind; auto with events.
Qed.

(** A fresh extraction reads neither tier. *)
Lemma fresh_extraction_events w request :
  all_events not_read (fresh_extraction w request).
Proof.
  unfold fresh_extraction.
  apply all_events_bind; [apply extract_menu_images_events|]. intros sr.
  destruct (not_found sr); [auto with events|].
  apply all_events_bind; [apply process_images_events|]. intros o.
  destruct (negb (str_truthy (combined_text o))); [auto with events|].
  apply all_events_bind; [apply normalize_events|]. intros n.
  apply all_events_bind; [auto with events|]. intros _.
  apply all_events_bind; auto with events.
Qed.

(** It starts by asking the image source. *)
Lemma fresh_extraction_starts w request :
  exists rest,
    trace (fresh_extraction w request)
    = SerpSearch (search_query_of request) :: rest.
Proof.
  unfold fresh_extraction, extract_menu_images, search_restaurant.
  rewrite !trace_bind. simpl. eexists. reflexivity.
Qed.

(** It answers without a source or with the source "fresh". *)
Lemma fresh_extraction_source w request r :
  outcome_of (fresh_extraction w request) = Ok r ->
  source_of r = None \/ source_of r = Some "fresh".
Proof.
  unfold fresh_extraction. rewrite outcome_bind.
  destruct (outcome_of (extract_menu_images _ _ _ _ _)) as [sr|]; [|discriminate].
  destruct (not_found sr); [discriminate|].
  rewrite outcome_bind.
  destruct (outcome_of (process_images _ _)) as [o|]; [|discriminate].
  destruct (negb (str_truthy (combined_text o))).
  - intros [= <-]. now left.
  - rewrite outcome_bind.
    destruct (outcome_of (normalize _ _ _)) as [n|]; [|discriminate].
    simpl. intros [= <-]. now right.
Qed.

End StageFacts.

(** ** Claims on [extract_menu] *)

Section EndpointClaims.

Import Normalizer Ocr Mongo Serp Endpoints.

Lemma extract_menu_after_miss w request log :
  resolve w request = (log, Ok None) ->
  extract_menu w request
  = http_guard (log ++ trace (fresh_extraction w request),
                outcome_of (fresh_extraction w request)).
Proof.
  intros H. unfold extract_menu. rewrite H. now rewrite bind_ok.
Qed.

Lemma resolve_without_name w request :
  opt_str_truthy (restaurant_name request) = false ->
  resolve w request = ([], Ok None).
Proof.
  intros H. unfold resolve, check_cache, check_mongo, cache_key_of.
  rewrite H. reflexivity.
Qed.

(** C10.  A request without a restaurant name (a Google Maps URL only)
    reads neither the fast cache nor the durable store: the resolution
    chain answers "miss" with an empty trace, the request runs the fresh
    extraction, whose first call is the search of the image source, no
    event of the whole request is a read of a tier, and an answer never
    has the source "cache" or "mongodb". *)
Theorem url_only_request_skips_both_tiers (w : world) (request : MenuRequest) :
  opt_str_truthy (restaurant_name request) = false ->
  resolve w request = ([], Ok None)
  /\ extract_menu w request = http_guard (fresh_extraction w request)
  /\ (exists rest,
        trace (extract_menu w request)
        = SerpSearch (search_query_of request) :: rest)
  /\ (forall key, ~ In (RedisGet key) (trace (extract_menu w request)))
  /\ (forall name, ~ In (MongoFind name) (trace (extract_menu w request)))
  /\ (forall r, outcome_of (extract_menu w request) = Ok r ->
        source_of r = None \/ source_of r = Some "fresh").
Proof.
  intros H.
  pose proof (resolve_without_name w request H) as R.
  assert (E : extract_menu w request = http_guard (fresh_extraction w request)).
  { rewrite (extract_menu_after_miss w request [] R). cbn [app].
    now rewrite <- pair_trace_outcome. }
  split; [exact R|]. split; [exact E|].
  rewrite E, trace_http_guard.
  pose proof (fresh_extraction_events w request) as Hev.
  unfold all_events in Hev. rewrite Forall_forall in Hev.
  split; [apply fresh_extraction_starts|].
  split; [|split].
  - intros key Hin. apply Hev in Hin. discriminate Hin.
  - intros name Hin. apply Hev in Hin. discriminate Hin.
  - intros r Hr. apply (proj1 (outcome_http_guard_ok _ _)) in Hr.
    now apply fresh_extraction_source in Hr.
Qed.

Lemma url_only_request_skips_both_tiers_witness :
  resolve no_photos_world url_request = ([], Ok None)
  /\ extract_menu no_photos_world url_request
     = http_guard (fresh_extraction no_photos_world url_request)
  /\ (exists rest,
        trace (extract_menu no_photos_world url_request)
        = SerpSearch (search_query_of url_request) :: rest)
  /\ (forall key,
        ~ In (RedisGet key) (trace (extract_menu no_photos_world url_request)))
  /\ (forall name,
        ~ In (MongoFind name) (trace (extract_menu no_photos_world url_request)))
  /\ (forall r, outcome_of (extract_menu no_photos_world url_request) = Ok r ->
        source_of r = None \/ source_of r = Some "fresh").
Proof.
  apply (url_only_request_skips_both_tiers no_photos_world url_request).
  reflexivity.
Defined.

(** *** The two tiers *)

Lemma existsb_nonempty_sum vs :
  existsb is_nonempty_list vs = (0 <? list_sum (map list_len vs))%nat.
Proof.
  induction vs as [|v vs IH]; [reflexivity|].
  cbn [existsb map list_sum]. rewrite IH.
  destruct v as [| | | |[|x l]|]; cbn [is_nonempty_list list_len List.length];
    try reflexivity.
Qed.

Lemma has_items_group_src m vt :
  has_items_group m vt
  = rbind (group_src m vt)
      (fun o => Ok (match o with
                    | Some src => existsb is_nonempty_list (values src)
                    | None => false
                    end)).
Proof.
  unfold has_items_group, group_src.
  destruct (py_in vt m) as [[|]|e]; simpl; try reflexivity.
  destruct (py_index m vt) as [g|e]; simpl; try reflexivity.
  now destruct g.
Qed.

(** The scan of the durable tier finds an item exactly when
    [_count_items] counts one. *)
Lemma has_items_count m :
  has_items_loop m veg_types false
  = rbind (count_items m) (fun n => Ok (0 <? n)%nat).
Proof.
  unfold count_items, veg_types. cbn [has_items_loop count_loop].
  rewrite !has_items_group_src, !count_group_src.
  destruct (group_src m "vegetarian") as [o1|e]; [|reflexivity].
  destruct (group_src m "non_vegetarian") as [o2|e]; [|reflexivity].
  cbn [rbind orb]. f_equal.
  assert (Hb : forall o : option (list (string * json)),
             match o with
             | Some src => existsb is_nonempty_list (values src)
             | None => false
             end
             = (0 <? match o with
                     | Some src => list_sum (map list_len (values src))
                     | None => 0
                     end)%nat).
  { intros [src|]; [apply existsb_nonempty_sum | reflexivity]. }
  rewrite !Hb. cbn [Nat.add].
  repeat match goal with
         | |- context [(0 <? ?n)%nat] => destruct (Nat.ltb_spec 0 n)
         end; try reflexivity; lia.
Qed.

Lemma has_items_group_slot m vt :
  has_items_group m vt = Ok true ->
  exists gd cat x its,
    py_index m vt = Ok (JDict gd) /\ In (cat, JList (x :: its)) gd.
Proof.
  unfold has_items_group.
  destruct (py_in vt m) as [[|]|e]; simpl; try discriminate.
  destruct (py_index m vt) as [g|e]; simpl; try discriminate.
  destruct g as [| | | | |gd]; simpl; try discriminate.
  intros [= H]. apply existsb_exists in H as (v & Hin & Hv).
  unfold values in Hin. apply in_map_iff in Hin as ([cat v'] & <- & Hin).
  destruct v' as [| | | |[|x its]|]; try discriminate.
  now exists gd, cat, x, its.
Qed.

Lemma has_items_slot m :
  has_items_loop m veg_types false = Ok true ->
  exists g gd cat x its,
    In g veg_types /\ py_index m g = Ok (JDict gd)
    /\ In (cat, JList (x :: its)) gd.
Proof.
  unfold veg_types. cbn [has_items_loop].
  destruct (has_items_group m "vegetarian") as [[|]|e] eqn:E1; simpl;
    try discriminate.
  - intros _. apply has_items_group_slot in E1 as (gd & cat & x & its & H1 & H2).
    exists "vegetarian", gd, cat, x, its. repeat split; auto.
  - destruct (has_items_group m "non_vegetarian") as [[|]|e] eqn:E2; simpl;
      try discriminate.
    intros _. apply has_items_group_slot in E2 as (gd & cat & x & its & H1 & H2).
    exists "non_vegetarian", gd, cat, x, its. repeat split; auto.
Qed.

Lemma cache_valid_true d :
  cache_valid (Some (JDict d)) = Ok true ->
  exists n, cached_items_count (JDict d) = Ok n /\ py_gt0 n = Ok true.
Proof.
  unfold cache_valid.
  destruct (negb (truthy (JDict d))); [discriminate|].
  cbn [py_get rbind].
  destruct (negb (truthy _)); [discriminate|].
  destruct (cached_items_count (JDict d)) as [n|e]; [|discriminate].
  cbn [rbind]. intros H. now exists n.
Qed.

(** A cached entry whose recorded item count is 0 is not a valid hit. *)
Lemma cache_valid_zero c :
  cached_items_count c = Ok (JNum 0) -> cache_valid (Some c) = Ok false.
Proof.
  intros H. destruct c as [| | | | |d]; try discriminate.
  unfold cache_valid.
  destruct (negb (truthy (JDict d))); [reflexivity|].
  cbn [py_get rbind].
  destruct (negb (truthy _)); [reflexivity|].
  rewrite H. reflexivity.
Qed.

(** A stored document without an item in its menu is not a valid hit. *)
Lemma stored_has_items_zero doc :
  count_items (stored_menu doc) = Ok 0 ->
  stored_has_items (Some doc) = Ok false.
Proof.
  intros H. unfold stored_has_items.
  destruct doc as [|kv doc]; [reflexivity|].
  destruct (truthy (stored_menu (kv :: doc))); [|reflexivity].
  rewrite has_items_count, H. reflexivity.
Qed.

Lemma check_cache_hit w request r :
  outcome_of (check_cache w request) = Ok (Some r) ->
  exists d, r = CacheHit d /\ cache_valid (Some (JDict d)) = Ok true.
Proof.
  unfold check_cache.
  destruct (cache_key_of request) as [key|]; [|discriminate].
  destruct (str_truthy key); [|discriminate].
  rewrite outcome_bind. cbn [emit outcome_of snd].
  rewrite outcome_bind. cbn [lift outcome_of snd].
  destruct (cache_valid (redis_get w key)) as [[|]|e] eqn:E;
    try discriminate.
  destruct (redis_get w key) as [[| | | | |d]|]; try discriminate.
  intros [= <-]. now exists d.
Qed.

Lemma check_cache_miss w request :
  (forall key c, redis_get w key = Some c ->
                 cached_items_count c = Ok (JNum 0)) ->
  exists log, check_cache w request = (log, Ok None).
Proof.
  intros Hz. unfold check_cache.
  destruct (cache_key_of request) as [key|]; [|now exists []].
  destruct (str_truthy key); [|now exists []].
  destruct (redis_get w key) as [c|] eqn:E.
  - rewrite (cache_valid_zero c (Hz key c E)). now eexists.
  - now eexists.
Qed.

Lemma get_menu_in menus name loc doc :
  outcome_of (get_menu menus name loc) = Ok (Some doc) -> In doc menus.
Proof.
  unfold get_menu.
  destruct name as [n|]; [|discriminate].
  destruct (negb (str_truthy n)); [discriminate|].
  rewrite outcome_bind. cbn [emit outcome_of snd].
  destruct (compile n) as [pn|]; [|discriminate].
  destruct loc as [l|].
  - destruct (str_truthy l).
    + destruct (compile l) as [pl|]; [|discriminate].
      intros [= H]. now apply find_some in H.
    + intros [= H]. now apply find_some in H.
  - intros [= H]. now apply find_some in H.
Qed.

Lemma outcome_try_except {A} (c : M (option A)) :
  outcome_of (try_except c (ret None))
  = match outcome_of c with
    | Ok a => Ok a
    | Raise _ => Ok None
    end.
Proof. now destruct c as [t [a|e]]. Qed.

Lemma check_mongo_total w request :
  exists log hit, check_mongo w request = (log, Ok hit).
Proof.
  unfold check_mongo.
  destruct (opt_str_truthy (restaurant_name request)); [|now exists [], None].
  match goal with |- context [try_except ?c _] => destruct c as [t [a|e]] end;
    simpl; eauto.
Qed.

Lemma check_mongo_hit w request r :
  outcome_of (check_mongo w request) = Ok (Some r) ->
  exists doc rj m mt,
    In doc (menus w) /\ r = MongoHit rj m mt
    /\ stored_menu doc = m
    /\ has_items_loop m veg_types false = Ok true.
Proof.
  unfold check_mongo.
  destruct (opt_str_truthy (restaurant_name request)); [|discriminate].
  rewrite outcome_try_except, outcome_bind.
  destruct (outcome_of (get_menu _ _ _)) as [stored|e] eqn:G; [|discriminate].
  rewrite outcome_bind. cbn [lift outcome_of snd].
  destruct (stored_has_items stored) as [b|e] eqn:S; [|discriminate].
  destruct stored as [doc|]; [|discriminate].
  apply get_menu_in in G.
  destruct (is_some_nonempty (Some doc) && b) eqn:Hb; [|discriminate].
  apply andb_true_iff in Hb as [Hne ->].
  unfold mongo_hit.
  destruct (assoc "restaurant_info" doc) as [rj|]; [|discriminate].
  destruct (assoc "menu" doc) as [m|] eqn:Em; [|discriminate].
  destruct (assoc "meta" doc) as [mt|]; [|discriminate].
  rewrite outcome_bind.
  destruct (outcome_of _); [|discriminate].
  intros [= <-].
  exists doc, rj, m, mt. repeat split; [exact G | | ].
  - unfold stored_menu. now rewrite Em.
  - unfold stored_has_items, stored_menu in S. rewrite Em in S.
    destruct doc; [discriminate|].
    destruct (truthy m); [exact S | discriminate].
Qed.

Lemma check_mongo_miss w request :
  (forall doc n, In doc (menus w) ->
                 count_items (stored_menu doc) = Ok n -> n = 0) ->
  exists log, check_mongo w request = (log, Ok None).
Proof.
  intros Hz.
  destruct (check_mongo_total w request) as (log & [r|] & E); [|now exists log].
  exfalso.
  assert (H : outcome_of (check_mongo w request) = Ok (Some r))
    by now rewrite E.
  apply check_mongo_hit in H as (doc & rj & m & mt & Hin & _ & Hm & Hi).
  rewrite has_items_count in Hi.
  destruct (count_items m) as [n|e] eqn:C; [|discriminate].
  rewrite <- Hm in C. rewrite (Hz doc n Hin C) in Hi. discriminate.
Qed.

Lemma resolve_hit w request r :
  outcome_of (resolve w request) = Ok (Some r) ->
  outcome_of (check_cache w request) = Ok (Some r)
  \/ outcome_of (check_mongo w request) = Ok (Some r).
Proof.
  unfold resolve. rewrite outcome_bind.
  destruct (outcome_of (check_cache w request)) as [[r'|]|e];
    [ intros [= <-]; now left | now right | discriminate ].
Qed.

Lemma extract_menu_hit w request r :
  outcome_of (extract_menu w request) = Ok r ->
  source_of r = Some "cache" \/ source_of r = Some "mongodb" ->
  outcome_of (resolve w request) = Ok (Some r).
Proof.
  unfold extract_menu. intros H Hs.
  apply (proj1 (outcome_http_guard_ok _ _)) in H.
  rewrite outcome_bind in H.
  destruct (outcome_of (resolve w request)) as [[r'|]|e]; [| |discriminate].
  - now injection H as <-.
  - apply fresh_extraction_source in H.
    destruct H as [H|H], Hs as [Hs|Hs]; congruence.
Qed.

(** What a fresh extraction writes records the item count of its menu. *)
Lemma fresh_meta_counts_menu w request r menu meta :
  outcome_of (fresh_extraction w request) = Ok (Fresh r menu meta) ->
  items_count meta = match menu with Some m => counted m | None => 0 end.
Proof.
  unfold fresh_extraction. rewrite outcome_bind.
  destruct (outcome_of (extract_menu_images _ _ _ _ _)) as [sr|]; [|discriminate].
  destruct (not_found sr); [discriminate|].
  rewrite outcome_bind.
  destruct (outcome_of (process_images _ _)) as [o|]; [|discriminate].
  destruct (negb (str_truthy (combined_text o))); [discriminate|].
  rewrite outcome_bind.
  match goal with
  | |- context [normalize ?m ?t ?n] =>
      destruct (normalize_total m t n) as (nr & E & Hn); rewrite E
  end.
  simpl. intros [= _ <- <-].
  destruct nr as [msg|m n k]; [reflexivity|]. cbn [items_count]. apply Hn.
Qed.

Lemma written_entry_count r menu meta :
  cached_items_count (response_data r menu meta)
  = Ok (JNum (Z.of_nat (items_count meta))).
Proof. reflexivity. Qed.

(** An entry written with no item is not a valid hit when read back. *)
Lemma written_empty_entry_invalid r menu meta :
  items_count meta = 0 ->
  cache_valid (Some (response_data r menu meta)) = Ok false.
Proof.
  intros H. apply cache_valid_zero. rewrite written_entry_count, H.
  reflexivity.
Qed.


Lemma records_own_count_valid c n :
  records_own_count c n ->
  (cache_valid (Some c) = Ok true -> 0 < n)
  /\ (n = 0 -> cache_valid (Some c) = Ok false).
Proof.
  intros (menu & Hm & _ & Hc). split.
  - intros V. destruct c as [| | | | |d]; try discriminate Hm.
    apply cache_valid_true in V as (k & Hk & G).
    rewrite Hc in Hk. injection Hk as <-.
    cbn [py_gt0] in G. injection G as G. apply Z.ltb_lt in G. lia.
  - intros ->. now apply cache_valid_zero.
Qed.



(** The entry of the stale world records the count of its own menu, 0. *)
Example stale_entry_records_own_count : records_own_count stale_entry 0.
Proof. exists empty_menu_json. repeat split. Qed.

(** *** The image-fetching stage *)

Lemma fresh_restaurant_not_found w request :
  search (serpapi w) (search_query_of request) = None ->
  fresh_extraction w request
  = ([SerpSearch (search_query_of request)],
     Raise (HTTPException 404 "Restaurant not found on Google Maps")).
Proof.
  intros H. unfold fresh_extraction, extract_menu_images, search_restaurant.
  cbn [bind emit ret app]. unfold search_query_of in H. rewrite H.
  reflexivity.
Qed.

Lemma fresh_no_data_id w request pl :
  search (serpapi w) (search_query_of request) = Some pl ->
  opt_str_truthy (data_id pl) = false ->
  fresh_extraction w request
  = ([SerpSearch (search_query_of request)],
     Raise (HTTPException 404 "No data_id found")).
Proof.
  intros H Hd. unfold fresh_extraction, extract_menu_images, search_restaurant.
  cbn [bind emit ret app]. unfold search_query_of in H. rewrite H, Hd.
  reflexivity.
Qed.

Lemma fresh_no_images w request pl :
  search (serpapi w) (search_query_of request) = Some pl ->
  opt_str_truthy (data_id pl) = true ->
  collect_urls (photos (serpapi w) (or_else (data_id pl) "")) = [] ->
  fresh_extraction w request
  = ([SerpSearch (search_query_of request);
      SerpPhotos (or_else (data_id pl) "")],
     Ok (NoText (Some (info_of request pl)))).
Proof.
  intros H Hd Hu.
  unfold fresh_extraction, extract_menu_images, search_restaurant,
    get_menu_photos.
  cbn [bind emit ret app]. unfold search_query_of in H. rewrite H, Hd.
  cbn [negb bind emit ret app Nat.eqb]. rewrite Hu. reflexivity.
Qed.

(** C8, counterexample.  The restaurant is found, it has a place id and
    no menu photo: the request does not end in a not-found error, it
    returns the "No text extracted from menu images" answer. *)
Lemma zero_images_is_not_fatal :
  outcome_of
    (extract_menu_images (serpapi no_photos_world)
       (restaurant_name name_request) "Koramangala" 0 None)
  = Ok {| restaurant := Some (info_of name_request bare_place);
          image_urls := Some [];
          error := None |}
  /\ extract_menu no_photos_world name_request
     = ([RedisGet "Tandoori Treat_Koramangala"; MongoFind "Tandoori Treat";
         SerpSearch "Tandoori Treat Koramangala"; SerpPhotos "0x1"],
        Ok (NoText (Some (info_of name_request bare_place)))).
Proof. split; reflexivity. Qed.

(** C8, as amended.  Once both tiers have missed: if the image source
    finds no restaurant, or finds one without a place id, the request
    ends in the not-found error (status 404) right after the search, with
    no photo lookup, no OCR, no normalization and nothing written.  If it
    finds a restaurant with a place id that has no menu image, the request
    is not an error: it returns the "No text extracted from menu images"
    answer after the photo lookup, again with no OCR call, no
    normalization and nothing written. *)
Theorem image_fetch_failure (w : world) (request : MenuRequest)
  (log : list event) :
  resolve w request = (log, Ok None) ->
  let q := search_query_of request in
  (search (serpapi w) q = None ->
   extract_menu w request
   = (log ++ [SerpSearch q],
      Raise (HTTPException 404 "Restaurant not found on Google Maps")))
  /\ (forall pl,
        search (serpapi w) q = Some pl ->
        opt_str_truthy (data_id pl) = false ->
        extract_menu w request
        = (log ++ [SerpSearch q], Raise (HTTPException 404 "No data_id found")))
  /\ (forall pl,
        search (serpapi w) q = Some pl ->
        opt_str_truthy (data_id pl) = true ->
        collect_urls (photos (serpapi w) (or_else (data_id pl) "")) = [] ->
        extract_menu w request
        = (log ++ [SerpSearch q; SerpPhotos (or_else (data_id pl) "")],
           Ok (NoText (Some (info_of request pl))))).
Proof.
  intros R q. rewrite (extract_menu_after_miss w request log R).
  split; [|split].
  - intros H. now rewrite (fresh_restaurant_not_found w request H).
  - intros pl H Hd. now rewrite (fresh_no_data_id w request pl H Hd).
  - intros pl H Hd Hu. now rewrite (fresh_no_images w request pl H Hd Hu).
Qed.

Lemma image_fetch_failure_witness :
  let q := search_query_of name_request in
  (search (serpapi stale_world) q = None ->
   extract_menu stale_world name_request
   = ([RedisGet "Tandoori Treat_Koramangala"; MongoFind "Tandoori Treat"]
      ++ [SerpSearch q],
      Raise (HTTPException 404 "Restaurant not found on Google Maps")))
  /\ (forall pl,
        search (serpapi stale_world) q = Some pl ->
        opt_str_truthy (data_id pl) = false ->
        extract_menu stale_world name_request
        = ([RedisGet "Tandoori Treat_Koramangala"; MongoFind "Tandoori Treat"]
           ++ [SerpSearch q],
           Raise (HTTPException 404 "No data_id found")))
  /\ (forall pl,
        search (serpapi stale_world) q = Some pl ->
        opt_str_truthy (data_id pl) = true ->
        collect_urls (photos (serpapi stale_world) (or_else (data_id pl) ""))
        = [] ->
        extract_menu stale_world name_request
        = ([RedisGet "Tandoori Treat_Koramangala"; MongoFind "Tandoori Treat"]
           ++ [SerpSearch q; SerpPhotos (or_else (data_id pl) "")],
           Ok (NoText (Some (info_of name_request pl))))).
Proof.
  apply (image_fetch_failure stale_world name_request
           [RedisGet "Tandoori Treat_Koramangala"; MongoFind "Tandoori Treat"]).
  reflexivity.
Defined.

Example stale_world_not_found :
  extract_menu stale_world name_request
  = ([RedisGet "Tandoori Treat_Koramangala"; MongoFind "Tandoori Treat";
      SerpSearch "Tandoori Treat Koramangala"],
     Raise (HTTPException 404 "Restaurant not found on Google Maps")).
Proof. reflexivity. Qed.

End EndpointClaims.

(* ================================================================== *)
(** * Further properties *)

(** ** Strings *)

Section StringFacts.

Lemma split_aux_nonempty sep k s : split_aux sep k s <> [].
Proof.
  revert k; induction s as [|c s IH]; intro k; [discriminate|].
  cbn [split_aux]. destruct k as [|k]; [|apply IH].
  destruct (starts_with sep (String c s)); [discriminate|].
  destruct (split_aux sep 0 s); discriminate.
Qed.

Lemma starts_with_app sep s : starts_with sep (sep ++ s) = true.
Proof.
  induction sep as [|a sep IH]; [reflexivity|].
  cbn [append starts_with]. now rewrite Ascii.eqb_refl, IH.
Qed.

(** Once an occurrence is found, its remaining characters are passed
    over. *)
Lemma split_aux_skip sep y s :
  split_aux sep (String.length y) (y ++ s) = split_aux sep 0 s.
Proof.
  induction y as [|c y IH]; [reflexivity|].
  cbn [append String.length split_aux]. exact IH.
Qed.

Lemma split_on_sep a sep s :
  split_on (String a sep) (String a sep ++ s)
  = EmptyString :: split_on (String a sep) s.
Proof.
  unfold split_on.
  change (String a sep ++ s)%string with (String a (sep ++ s)).
  cbn [split_aux].
  change (String a (sep ++ s)) with (String a sep ++ s)%string.
  rewrite starts_with_app.
  replace (String.length (String a sep) - 1) with (String.length sep)
    by (cbn [String.length]; lia).
  rewrite split_aux_skip. reflexivity.
Qed.

(** A prefix without the first character of the separator is the first
    piece. *)
Lemma split_on_before a sep x s :
  has_char a x = false ->
  split_on (String a sep) (x ++ String a sep ++ s)
  = x :: split_on (String a sep) s.
Proof.
  induction x as [|c x IH]; intros H.
  - apply split_on_sep.
  - cbn [has_char] in H. apply orb_false_iff in H as [Hc Hx].
    specialize (IH Hx). unfold split_on in *.
    change ((String c x ++ String a sep ++ s)%string)
      with (String c (x ++ String a sep ++ s)).
    cbn [split_aux starts_with].
    rewrite (Ascii.eqb_sym a c), Hc. cbn [andb]. now rewrite IH.
Qed.

Lemma split_on_absent a sep x :
  has_char a x = false -> split_on (String a sep) x = [x].
Proof.
  induction x as [|c x IH]; intros H; [reflexivity|].
  cbn [has_char] in H. apply orb_false_iff in H as [Hc Hx].
  specialize (IH Hx). unfold split_on in *.
  cbn [split_aux starts_with].
  rewrite (Ascii.eqb_sym a c), Hc. cbn [andb]. now rewrite IH.
Qed.

(** When the string starts with the separator there are at least two
    pieces. *)
Lemma split_on_second a sep s :
  starts_with (String a sep) s = true ->
  exists x, py_nth (split_on (String a sep) s) 1 = Ok x.
Proof.
  intros H. destruct s as [|c s]; [discriminate|].
  unfold split_on, py_nth. cbn [split_aux]. rewrite H.
  cbn [nth_error].
  pose proof (split_aux_nonempty (String a sep)
                (String.length (String a sep) - 1) s) as Hne.
  destruct (split_aux _ _ s) as [|x l]; [congruence|].
  now exists x.
Qed.

Lemma lstrip_head s :
  match lstrip s with
  | EmptyString => True
  | String c _ => is_space c = false
  end.
Proof.
  induction s as [|c s IH]; [exact I|].
  cbn [lstrip]. destruct (is_space c) eqn:E; [exact IH | exact E].
Qed.

Lemma lstrip_nonspace c s : is_space c = false -> lstrip (String c s) = String c s.
Proof. intros H. cbn [lstrip]. now rewrite H. Qed.

Lemma rstrip_nonspace c s :
  is_space c = false -> exists r, rstrip (String c s) = String c r.
Proof.
  intros H. cbn [rstrip]. rewrite H.
  destruct (rstrip s); eauto.
Qed.

Lemma rstrip_cons c s :
  rstrip (String c s)
  = match rstrip s with
    | EmptyString => if is_space c then EmptyString else String c EmptyString
    | String c' r => String c (String c' r)
    end.
Proof. cbn [rstrip]. now destruct (rstrip s). Qed.

Lemma rstrip_idempotent s : rstrip (rstrip s) = rstrip s.
Proof.
  induction s as [|c s IH]; [reflexivity|].
  rewrite rstrip_cons. destruct (rstrip s) as [|c' r] eqn:E.
  - destruct (is_space c) eqn:Ec; [reflexivity|].
    rewrite rstrip_cons. cbn [rstrip]. now rewrite Ec.
  - rewrite rstrip_cons, IH. reflexivity.
Qed.

(** [strip] does nothing to a stripped string. *)
Lemma strip_idempotent s : strip (strip s) = strip s.
Proof.
  unfold strip. pose proof (lstrip_head s) as H.
  destruct (lstrip s) as [|c r]; [reflexivity|].
  destruct (rstrip_nonspace c r H) as (r' & E). rewrite E.
  rewrite (lstrip_nonspace c r' H), <- E. apply rstrip_idempotent.
Qed.

Lemma strip_length s : String.length (strip s) <= String.length s.
Proof.
  unfold strip.
  assert (L : forall x, String.length (lstrip x) <= String.length x).
  { induction x as [|c x IH]; [reflexivity|].
    cbn [lstrip]. destruct (is_space c); cbn [String.length]; lia. }
  assert (R : forall x, String.length (rstrip x) <= String.length x).
  { induction x as [|c x IH]; [reflexivity|].
    cbn [rstrip]. destruct (rstrip x); [destruct (is_space c)|];
      cbn [String.length] in *; lia. }
  specialize (L s). specialize (R (lstrip s)). lia.
Qed.

End StringFacts.

(** ** The code fence of a backend answer *)

Section FenceFacts.

Import Fence.

Lemma has_char_app c x y :
  has_char c (x ++ y) = has_char c x || has_char c y.
Proof.
  induction x as [|a x IH]; [reflexivity|].
  cbn [append has_char]. now rewrite IH, orb_assoc.
Qed.

(** X1.  A fenced answer: when the stripped answer is a fence, a text
    [inner] without backtick and then either nothing or a second fence
    followed by anything, the text given to the JSON decoder is [inner]
    without a leading [json] tag, stripped; what follows the closing
    fence is dropped. *)
Theorem clean_response_fenced (text inner rest : string) :
  has_char backtick inner = false ->
  strip text = (fence ++ inner)%string
  \/ strip text = (fence ++ inner ++ fence ++ rest)%string ->
  clean_response text = Ok (strip (untagged inner)).
Proof.
  intros Hb Hs. unfold clean_response.
  assert (Hn : py_nth (split_on fence (strip text)) 1 = Ok inner).
  { destruct Hs as [-> | ->]; unfold fence at 1 2.
    - rewrite split_on_sep.
      unfold fence. rewrite (split_on_absent backtick _ inner Hb).
      reflexivity.
    - rewrite split_on_sep.
      unfold fence. rewrite (split_on_before backtick _ inner rest Hb).
      reflexivity. }
  assert (Hf : starts_with fence (strip text) = true).
  { destruct Hs as [-> | ->]; apply starts_with_app. }
  rewrite Hf, Hn. reflexivity.
Qed.

Lemma clean_response_fenced_witness :
  clean_response
    (String nl ("```json" ++ String nl ("[1, 2]" ++ String nl ("```" ++ " done"))))
  = Ok (strip (untagged ("json" ++ String nl ("[1, 2]" ++ String nl "")))).
Proof.
  apply (clean_response_fenced _
           ("json" ++ String nl ("[1, 2]" ++ String nl "")) " done").
  - reflexivity.
  - right. reflexivity.
Defined.

(** X2.  The cleaning never fails with an IndexError, and an answer that
    does not start with a fence is handed over stripped and otherwise
    unchanged. *)
Theorem clean_response_total (text : string) :
  (exists cleaned, clean_response text = Ok cleaned)
  /\ (starts_with fence (strip text) = false ->
      clean_response text = Ok (strip text)).
Proof.
  unfold clean_response, fence. split.
  - destruct (starts_with "```" (strip text)) eqn:E.
    + destruct (split_on_second _ _ _ E) as (x & ->). cbn [rbind]. eauto.
    + cbn [rbind]. eauto.
  - intros ->. cbn [rbind]. now rewrite strip_idempotent.
Qed.

End FenceFacts.

(** ** Chunking within the budget *)

Section SplitBudget.

Import Normalizer.

Lemma split_step_budget size st para :
  String.length para < size ->
  Forall (fun c => String.length c < size) (fst st) ->
  (snd st = EmptyString
   \/ exists c, snd st = (c ++ nlnl)%string /\ String.length c < size) ->
  Forall (fun c => String.length c < size) (fst (split_step size st para))
  /\ exists c, snd (split_step size st para) = (c ++ nlnl)%string
               /\ String.length c < size.
Proof.
  destruct st as [chunks current]. cbn [fst snd]. intros Hp Hc Hcur.
  unfold split_step.
  destruct (String.length current + String.length para <? size)%nat eqn:E;
    cbn [fst snd].
  - split; [exact Hc|]. exists (current ++ para)%string.
    split.
    + clear. induction current as [|a s IH]; [reflexivity|].
      cbn [append]. now rewrite IH.
    + apply Nat.ltb_lt in E.
      assert (L : forall x y, String.length (x ++ y) = String.length x + String.length y).
      { clear. induction x as [|a x IH]; intro y; [reflexivity|].
        cbn [append String.length]. now rewrite IH. }
      rewrite L. exact E.
  - split; [|now exists para].
    destruct Hcur as [-> | (c & -> & Lc)]; [exact Hc|].
    rewrite append_nlnl_truthy, strip_app_nlnl.
    apply Forall_app. split; [exact Hc|].
    constructor; [|constructor].
    pose proof (strip_length c). lia.
Qed.

Lemma split_loop_budget size paras :
  forall st,
    Forall (fun p => String.length p < size) paras ->
    Forall (fun c => String.length c < size) (fst st) ->
    (snd st = EmptyString
     \/ exists c, snd st = (c ++ nlnl)%string /\ String.length c < size) ->
    let st' := fold_left (split_step size) paras st in
    Forall (fun c => String.length c < size) (fst st')
    /\ (snd st' = EmptyString
        \/ exists c, snd st' = (c ++ nlnl)%string /\ String.length c < size).
Proof.
  induction paras as [|p paras IH]; intros st Hp Hc Hcur; [now split|].
  inversion Hp as [|? ? Hp1 Hp2]; subst.
  destruct (split_step_budget size st p Hp1 Hc Hcur) as (Hc' & Hcur').
  cbn [fold_left]. apply IH; auto.
Qed.

(** X3.  When every paragraph of the corpus is shorter than the budget,
    every chunk is shorter than the budget. *)
Theorem split_text_within_budget (text : string) (size : nat) :
  Forall (fun p => String.length p < size) (split_nlnl text) ->
  Forall (fun c => String.length c < size) (split_text text size).
Proof.
  intros Hp. rewrite split_text_unfold. cbn zeta.
  destruct (split_loop_budget size (split_nlnl text) ([], EmptyString) Hp)
    as (Hc & Hcur); [constructor | now left |].
  apply Forall_app. split; [exact Hc|].
  constructor; [|constructor].
  destruct Hcur as [E | (c & -> & Lc)].
  - pose proof (split_loop_current_truthy size (split_nlnl text)
                  ([], EmptyString) (split_nlnl_nonempty text)) as T.
    rewrite E in T. discriminate T.
  - rewrite strip_app_nlnl. pose proof (strip_length c). lia.
Qed.

Lemma split_text_within_budget_witness :
  Forall (fun c => String.length c < 40) (split_text two_paragraphs 40).
Proof.
  apply (split_text_within_budget two_paragraphs 40).
  repeat constructor.
Defined.

Example two_paragraphs_two_chunks :
  split_text two_paragraphs 40 = [replicate 30 "a"; replicate 30 "b"]
  /\ split_text two_paragraphs 100 = [two_paragraphs].
Proof. split; reflexivity. Qed.

Lemma split_loop_count size paras :
  forall st,
    List.length (fst (fold_left (split_step size) paras st))
    + (if str_truthy (snd (fold_left (split_step size) paras st)) then 1 else 0)
    <= List.length (fst st) + (if str_truthy (snd st) then 1 else 0)
       + List.length paras.
Proof.
  induction paras as [|p paras IH]; intro st; cbn [fold_left List.length];
    [lia|].
  specialize (IH (split_step size st p)).
  assert (S : List.length (fst (split_step size st p))
              + (if str_truthy (snd (split_step size st p)) then 1 else 0)
              <= List.length (fst st) + (if str_truthy (snd st) then 1 else 0)
                 + 1).
  { destruct st as [chunks current]. unfold split_step. cbn [fst snd].
    destruct (String.length current + String.length p <? size)%nat;
      cbn [fst snd].
    - destruct (str_truthy (current ++ p ++ nlnl));
        destruct (str_truthy current); lia.
    - rewrite append_nlnl_truthy.
      destruct (str_truthy current); [rewrite length_app|];
        cbn [List.length]; lia. }
  lia.
Qed.

(** X4.  There is at least one chunk and there are at most as many chunks
    as paragraphs: a chunk is never produced from nothing. *)
Theorem split_text_chunk_count (text : string) (size : nat) :
  1 <= List.length (split_text text size)
  /\ List.length (split_text text size) <= List.length (split_nlnl text).
Proof.
  rewrite split_text_unfold. cbn zeta. rewrite length_app. cbn [List.length].
  split; [lia|].
  pose proof (split_loop_count size (split_nlnl text) ([], EmptyString)) as H.
  rewrite (split_loop_current_truthy size (split_nlnl text)
             ([], EmptyString) (split_nlnl_nonempty text)) in H.
  cbn [fst snd List.length] in H.
  change (str_truthy EmptyString) with false in H. cbv iota in H.
  cbn [Nat.add] in H. exact H.
Qed.

End SplitBudget.

(** ** What [normalize] returns *)

Section NormalizeResults.

Import Normalizer.

Lemma gain_le ks src : gain ks src <= list_sum (map list_len (values src)).
Proof.
  unfold gain, values.
  induction src as [|[k v] src IH]; simpl in *; [lia|].
  destruct (has_key k ks); lia.
Qed.

Lemma known_items_le r : walkable r -> known_items r <= chunk_count r.
Proof.
  destruct r as [parsed|]; [|reflexivity].
  cbn [walkable known_items chunk_count]. intros W.
  unfold count_items, veg_types in *. cbn [count_loop] in *.
  rewrite !count_group_src in *. unfold group_entries.
  destruct (group_src parsed "vegetarian") as [o1|]; [|discriminate].
  destruct (group_src parsed "non_vegetarian") as [o2|]; [|discriminate].
  cbn [rbind Nat.add].
  destruct o1 as [s1|], o2 as [s2|]; cbv beta iota;
    apply Nat.add_le_mono; try apply gain_le; reflexivity.
Qed.

Lemma list_sum_cons a l : list_sum (a :: l) = a + list_sum l.
Proof. reflexivity. Qed.

Lemma known_items_sum_le results :
  Forall walkable results ->
  list_sum (map known_items results) <= list_sum (map chunk_count results).
Proof.
  induction 1 as [|r rest Wr Wrest IH]; cbn [map]; [reflexivity|].
  rewrite !list_sum_cons. pose proof (known_items_le r Wr). lia.
Qed.

(** X5.  The merge invents no item: the item count of the merged menu is
    at most the sum of the item counts of the chunk results (what sits
    under a key outside the vocabulary is lost). *)
Theorem merged_count_at_most_chunk_counts (results : list chunk_result) :
  Forall walkable results ->
  exists m n,
    merge_results combined_menu0 results = Ok m
    /\ count_items (menu_to_json m) = Ok n
    /\ n <= list_sum (map chunk_count results).
Proof.
  intros W.
  destruct (merge_results_fixed_shape results combined_menu0 eq_refl W)
    as (m & Hm & _ & Cm).
  exists m, (counted m). split; [exact Hm|]. split; [apply count_items_menu|].
  rewrite Cm. change (counted combined_menu0) with 0. cbn [Nat.add].
  now apply known_items_sum_le.
Qed.

Lemma merged_count_at_most_chunk_counts_witness :
  exists m n,
    merge_results combined_menu0 sample_results = Ok m
    /\ count_items (menu_to_json m) = Ok n
    /\ n <= list_sum (map chunk_count sample_results).
Proof.
  apply (merged_count_at_most_chunk_counts sample_results).
  repeat constructor.
Defined.

(** X6.  With a backend configured and a corpus of at least 50
    characters, [normalize] does not raise: it calls the backend once per
    chunk, in the order of the chunks, whether or not a chunk fails, and
    returns a menu with the fixed keys, the item count of that menu and
    the number of chunks. *)
Theorem normalize_calls_every_chunk (model : backend)
  (raw_text restaurant_name : string) :
  min_text_length <= String.length raw_text ->
  exists m,
    normalize (Some model) raw_text restaurant_name
    = (map GeminiCall (split_text raw_text chunk_size),
       Ok (NormMenu m (counted m)
             (List.length (split_text raw_text chunk_size))))
    /\ shape m = shape combined_menu0.
Proof.
  intros Hlen.
  destruct (normalize_long_corpus_calls_backend model raw_text restaurant_name
              Hlen) as (T & _).
  destruct (normalize_total (Some model) raw_text restaurant_name)
    as (r & O & Hr).
  destruct r as [msg|m n k].
  - exfalso. unfold normalize in O.
    assert (Tr : str_truthy raw_text = true).
    { destruct raw_text; [cbn in Hlen; unfold min_text_length in Hlen; lia|].
      reflexivity. }
    apply Nat.ltb_ge in Hlen. rewrite Tr, Hlen in O. cbn [negb orb] in O.
    destruct (gather_chunks_outcome model restaurant_name
                (split_text raw_text chunk_size)) as (results & E & W).
    destruct (merge_results_fixed_shape results combined_menu0 eq_refl W)
      as (m & Hm & _).
    rewrite E, bind_ok in O. unfold lift in O. rewrite Hm in O.
    cbn [trace outcome_of fst snd] in O.
    rewrite bind_ok, count_items_menu in O.
    cbn [trace outcome_of fst snd] in O. rewrite bind_ok in O.
    discriminate O.
  - destruct Hr as (S & -> & ->). exists m. split; [|exact S].
    rewrite (pair_trace_outcome (normalize _ _ _)), T, O. reflexivity.
Qed.

Lemma normalize_calls_every_chunk_witness :
  exists m,
    normalize (Some sample_backend) (replicate 60 "a") "Tandoori Treat"
    = (map GeminiCall (split_text (replicate 60 "a") chunk_size),
       Ok (NormMenu m (counted m)
             (List.length (split_text (replicate 60 "a") chunk_size))))
    /\ shape m = shape combined_menu0.
Proof.
  apply (normalize_calls_every_chunk sample_backend (replicate 60 "a")
           "Tandoori Treat").
  unfold min_text_length. rewrite replicate_length. lia.
Defined.

Lemma gather_chunks_all_fail model rn chunks :
  (forall chunk, model rn chunk = None) ->
  gather_chunks model rn chunks
  = (map GeminiCall chunks, Ok (map (fun _ => ChunkError) chunks)).
Proof.
  intros Hf. induction chunks as [|c chunks IH]; [reflexivity|].
  cbn [gather_chunks]. unfold parse_chunk. rewrite (Hf c), IH.
  cbn. now rewrite app_nil_r.
Qed.

Lemma merge_results_all_errors {A} t (l : list A) :
  merge_results t (map (fun _ => ChunkError) l) = Ok t.
Proof. induction l; [reflexivity | exact IHl]. Qed.

(** X7.  When the backend fails on every chunk, [normalize] still returns
    a result and not an error: the empty menu of the fixed vocabulary with
    an item count of 0. *)
Theorem normalize_all_chunks_fail (model : backend)
  (raw_text restaurant_name : string) :
  min_text_length <= String.length raw_text ->
  (forall chunk, model restaurant_name chunk = None) ->
  outcome_of (normalize (Some model) raw_text restaurant_name)
  = Ok (NormMenu combined_menu0 0
          (List.length (split_text raw_text chunk_size))).
Proof.
  intros Hlen Hf. unfold normalize.
  assert (Tr : str_truthy raw_text = true).
  { destruct raw_text; [cbn in Hlen; unfold min_text_length in Hlen; lia|].
    reflexivity. }
  apply Nat.ltb_ge in Hlen. rewrite Tr, Hlen. cbn [negb orb].
  rewrite (gather_chunks_all_fail model restaurant_name _ Hf), bind_ok.
  unfold lift. rewrite merge_results_all_errors. reflexivity.
Qed.

Lemma normalize_all_chunks_fail_witness :
  outcome_of (normalize (Some silent_backend) (replicate 60 "a")
                "Tandoori Treat")
  = Ok (NormMenu combined_menu0 0
          (List.length (split_text (replicate 60 "a") chunk_size))).
Proof.
  apply (normalize_all_chunks_fail silent_backend (replicate 60 "a")
           "Tandoori Treat").
  - unfold min_text_length. rewrite replicate_length. lia.
  - reflexivity.
Defined.

End NormalizeResults.

(** ** The per-image results *)

Section OcrItems.

Import Ocr.

Lemma join_empty sep l :
  Forall (fun s => str_truthy s = true) l ->
  (join sep l = EmptyString <-> l = []).
Proof.
  intros H. split; [|now intros ->].
  destruct l as [|x l]; [reflexivity|].
  inversion H as [|? ? Hx _]; subst.
  destruct x as [|c x]; [discriminate|].
  cbn [join]. destruct l; discriminate.
Qed.

Lemma in_ocr_results_from client k urls i t :
  In (i, t) (map (fun p => (fst p, ocr_text client (snd p)))
               (enumerate_from k urls)) ->
  exists url, k <= i /\ nth_error urls (i - k) = Some url
              /\ t = ocr_text client url.
Proof.
  revert k; induction urls as [|u urls IH]; intros k Hin; [destruct Hin|].
  cbn [enumerate_from map In fst snd] in Hin. destruct Hin as [E|Hin].
  - injection E as <- <-. exists u. rewrite Nat.sub_diag. auto.
  - destruct (IH (S k) Hin) as (url & Hk & Hn & Ht).
    exists url. split; [lia|]. split; [|exact Ht].
    replace (i - k) with (S (i - S k)) by lia. exact Hn.
Qed.

Lemma in_ocr_results client urls i t :
  In (i, t) (ocr_results client urls) ->
  exists url, nth_error urls i = Some url /\ t = ocr_text client url.
Proof.
  intros H. destruct (in_ocr_results_from client 0 urls i t H)
    as (url & _ & Hn & Ht).
  rewrite Nat.sub_0_r in Hn. eauto.
Qed.

Lemma ocr_results_in client urls url :
  In url urls -> exists i, In (i, ocr_text client url) (ocr_results client urls).
Proof.
  intros H. apply In_nth_error in H as (i & Hi). exists i.
  eapply nth_error_In. apply (ocr_results_from_nth client 0 urls i url Hi).
Qed.

Lemma items_of_process_images client urls :
  items (combine_results (ocr_results client urls))
  = map to_item (filter has_text (ocr_results client urls))
  /\ combined_text (combine_results (ocr_results client urls))
     = join separator (map snd (filter has_text (ocr_results client urls))).
Proof.
  rewrite combine_results_eq. cbn [items combined_text].
  now rewrite (sorted_by_index_restores client urls _ (Permutation_refl _)).
Qed.

(** X8.  The combined text of the OCR stage is empty exactly when the
    per-image list is empty, which is exactly when no URL yields a text:
    the "no text" outcome means that every image failed or was blank. *)
Theorem no_text_means_no_image_has_text (client : vision)
  (urls : list string) :
  exists out,
    process_images client urls = (map VisionOcr urls, Ok out)
    /\ (combined_text out = EmptyString <-> items out = [])
    /\ (items out = []
        <-> forall url, In url urls -> ocr_text client url = EmptyString).
Proof.
  exists (combine_results (ocr_results client urls)).
  split; [apply process_images_eq|].
  destruct (items_of_process_images client urls) as [-> ->].
  set (kept := filter has_text (ocr_results client urls)).
  assert (K : kept = [] <-> forall url, In url urls ->
                                        ocr_text client url = EmptyString).
  { unfold kept. split.
    - intros E url Hin. destruct (ocr_results_in client urls url Hin) as (i & Hi).
      destruct (str_truthy (ocr_text client url)) eqn:T.
      + assert (Hf : In (i, ocr_text client url)
                       (filter has_text (ocr_results client urls)))
          by (apply filter_In; split; [exact Hi | exact T]).
        rewrite E in Hf. destruct Hf.
      + now destruct (ocr_text client url).
    - intros H.
      destruct (filter has_text (ocr_results client urls)) as [|[i t] l] eqn:E;
        [reflexivity|].
      assert (Hin : In (i, t) (filter has_text (ocr_results client urls)))
        by (rewrite E; now left).
      apply filter_In in Hin as [Hin Ht].
      apply in_ocr_results in Hin as (url & Hn & ->).
      apply nth_error_In in Hn. unfold has_text in Ht. cbn [snd] in Ht.
      rewrite (H url Hn) in Ht. discriminate Ht. }
  split; [|].
  - rewrite join_empty.
    + split; intros E.
      * apply map_eq_nil in E. now rewrite E.
      * apply map_eq_nil in E. now rewrite E.
    + rewrite Forall_map. unfold kept. apply Forall_forall.
      intros p Hp. now apply filter_In in Hp.
  - rewrite <- K. split; intros E.
    + now apply map_eq_nil in E.
    + now rewrite E.
Qed.

(** X9.  Every entry of the per-image list points back at its image: its
    index is the position of a URL of the input, its text is the OCR text
    of that URL, and that text is not empty. *)
Theorem items_point_at_their_image (client : vision) (urls : list string)
  (out : ocr_output) (item : ocr_item) :
  outcome_of (process_images client urls) = Ok out ->
  In item (items out) ->
  exists url,
    nth_error urls (image_index item) = Some url
    /\ raw_text item = ocr_text client url
    /\ str_truthy (raw_text item) = true.
Proof.
  rewrite process_images_eq. cbn [outcome_of snd]. intros [= <-].
  destruct (items_of_process_images client urls) as [-> _].
  intros Hin. apply in_map_iff in Hin as ([i t] & <- & Hin).
  apply filter_In in Hin as [Hin Ht].
  apply in_ocr_results in Hin as (url & Hn & ->).
  exists url. cbn [to_item image_index raw_text fst snd]. auto.
Qed.

Lemma items_point_at_their_image_witness :
  exists url,
    nth_error sample_urls (image_index {| raw_text := "A"; image_index := 0 |})
    = Some url
    /\ raw_text {| raw_text := "A"; image_index := 0 |}
       = ocr_text sample_vision url
    /\ str_truthy (raw_text {| raw_text := "A"; image_index := 0 |}) = true.
Proof.
  apply (items_point_at_their_image sample_vision sample_urls
           {| source := "google_vision";
              items := [{| raw_text := "A"; image_index := 0 |}];
              combined_text := "A" |}).
  - reflexivity.
  - now left.
Defined.

End OcrItems.

(** ** Writing to and deleting from the durable store *)

Section StoreFacts.

Import Mongo Store.

Lemma assoc_assoc_set {V} k k' (v : V) d :
  assoc k' (assoc_set k v d) = if String.eqb k k' then Some v else assoc k' d.
Proof.
  induction d as [|[k0 v0] d IH]; cbn [assoc_set assoc].
  - rewrite (String.eqb_sym k' k). now destruct (String.eqb k k').
  - destruct (String.eqb k k0) eqn:E0; cbn [assoc].
    + apply String.eqb_eq in E0; subst k0.
      rewrite (String.eqb_sym k' k). now destruct (String.eqb k k').
    + destruct (String.eqb k' k0) eqn:E1.
      * apply String.eqb_eq in E1; subst k0. now rewrite E0.
      * exact IH.
Qed.

(** After [$set], a field of the saved document holds the saved value and
    any other field is as it was. *)
Lemma assoc_set_saved_fields k n l ri m mt d :
  assoc k (set_fields (saved_fields n l ri m mt) d)
  = match assoc k (saved_fields n l ri m mt) with
    | Some v => Some v
    | None => assoc k d
    end.
Proof.
  unfold set_fields, saved_fields. cbn [fold_left fst snd assoc].
  rewrite !assoc_assoc_set.
  rewrite (String.eqb_sym k "restaurant_name"), (String.eqb_sym k "location"),
    (String.eqb_sym k "restaurant_info"), (String.eqb_sym k "menu"),
    (String.eqb_sym k "meta").
  destruct (String.eqb "meta" k) eqn:E5;
    [apply String.eqb_eq in E5; subst k; reflexivity|].
  destruct (String.eqb "menu" k) eqn:E4;
    [apply String.eqb_eq in E4; subst k; reflexivity|].
  destruct (String.eqb "restaurant_info" k) eqn:E3;
    [apply String.eqb_eq in E3; subst k; reflexivity|].
  destruct (String.eqb "location" k) eqn:E2;
    [apply String.eqb_eq in E2; subst k; reflexivity|].
  now destruct (String.eqb "restaurant_name" k).
Qed.

Lemma same_identity_saved n l ri m mt d n' l' :
  same_identity n' l' (set_fields (saved_fields n l ri m mt) d)
  = String.eqb n n' && String.eqb l l'.
Proof.
  unfold same_identity, field_is. now rewrite !assoc_set_saved_fields.
Qed.

Lemma same_identity_fresh n l ri m mt n' l' :
  same_identity n' l' (saved_fields n l ri m mt)
  = String.eqb n n' && String.eqb l l'.
Proof. reflexivity. Qed.

Lemma same_identity_eq n l n' l' d :
  same_identity n l d = true ->
  same_identity n' l' d = String.eqb n n' && String.eqb l l'.
Proof.
  unfold same_identity, field_is.
  destruct (assoc "restaurant_name" d) as [[| | |s| |]|]; try discriminate.
  destruct (assoc "location" d) as [[| | |s'| |]|];
    try (rewrite andb_false_r; discriminate).
  intros H. apply andb_true_iff in H as [H1 H2].
  apply String.eqb_eq in H1, H2. now subst.
Qed.

Lemma update_first_none f g l :
  update_first f g l = None <-> forall d, In d l -> f d = false.
Proof.
  induction l as [|d l IH]; cbn [update_first].
  - split; [intros _ d [] | reflexivity].
  - destruct (f d) eqn:E.
    + split; [discriminate|]. intros H. specialize (H d (or_introl eq_refl)).
      congruence.
    + destruct (update_first f g l) eqn:U; cbn [option_map].
      * split; [discriminate|]. intros H.
        assert (X : forall d0, In d0 l -> f d0 = false)
          by (intros d0 Hd; apply H; now right).
        apply (proj2 IH) in X. discriminate X.
      * split; [|reflexivity]. intros _ d0 [<-|Hd]; [exact E|].
        now apply (proj1 IH).
Qed.

Lemma update_first_filter f g (h : document -> bool) l l' :
  update_first f g l = Some l' ->
  (forall d, f d = true -> h (g d) = h d) ->
  List.length (filter h l') = List.length (filter h l).
Proof.
  revert l'; induction l as [|d l IH]; intros l' U Hg; [discriminate|].
  cbn [update_first] in U. destruct (f d) eqn:E.
  - injection U as <-. cbn [filter]. rewrite (Hg d E).
    now destruct (h d).
  - destruct (update_first f g l) as [l0|]; [|discriminate].
    injection U as <-. cbn [filter].
    destruct (h d); cbn [List.length]; rewrite (IH l0 eq_refl Hg); reflexivity.
Qed.

Lemma update_first_length f g l l' :
  update_first f g l = Some l' -> List.length l' = List.length l.
Proof.
  revert l'; induction l as [|d l IH]; intros l' U; [discriminate|].
  cbn [update_first] in U. destruct (f d).
  - now injection U as <-.
  - destruct (update_first f g l) as [l0|]; [|discriminate].
    injection U as <-. cbn [List.length]. now rewrite (IH l0).
Qed.

Lemma filter_none {A} (f : A -> bool) l :
  (forall x, In x l -> f x = false) -> filter f l = [].
Proof.
  induction l as [|x l IH]; intros H; [reflexivity|].
  cbn [filter]. rewrite (H x (or_introl eq_refl)). apply IH.
  intros y Hy. apply H. now right.
Qed.

(** X10.  [save_menu] is an upsert on the exact name and location: the
    collection grows by one document when none carried this identity and
    keeps its size otherwise; afterwards at least one document carries
    the identity, exactly one if at most one did before, and the number
    of documents of every other identity is unchanged. *)
Theorem save_menu_upserts (menus : list document) (n l : string)
  (ri m mt : json) (n' l' : string) :
  let saved := save_menu menus n l ri m mt in
  List.length (snd saved)
  = List.length menus + (if fst saved then 1 else 0)
  /\ fst saved = (identity_count menus n l =? 0)%nat
  /\ identity_count (snd saved) n' l'
     = if String.eqb n n' && String.eqb l l'
       then Nat.max 1 (identity_count menus n l)
       else identity_count menus n' l'.
Proof.
  cbv zeta. unfold save_menu, identity_count.
  destruct (update_first (same_identity n l)
              (set_fields (saved_fields n l ri m mt)) menus) as [menus'|] eqn:U;
    cbn [fst snd].
  - assert (Hpos : 1 <= List.length (filter (same_identity n l) menus)).
    { destruct (filter (same_identity n l) menus) eqn:F; [|cbn; lia].
      exfalso.
      assert (N : forall d, In d menus -> same_identity n l d = false).
      { intros d Hd. destruct (same_identity n l d) eqn:E; [|reflexivity].
        assert (X : In d (filter (same_identity n l) menus))
          by (apply filter_In; auto).
        rewrite F in X. destruct X. }
      apply update_first_none with (g := set_fields (saved_fields n l ri m mt))
        in N. congruence. }
    split; [rewrite (update_first_length _ _ _ _ U); lia|].
    split; [symmetry; apply Nat.eqb_neq; lia|].
    rewrite (update_first_filter _ _ (same_identity n' l') _ _ U).
    + destruct (String.eqb n n' && String.eqb l l') eqn:E; [|reflexivity].
      apply andb_true_iff in E as [E1 E2].
      apply String.eqb_eq in E1, E2. subst. lia.
    + intros d Hd. rewrite same_identity_saved.
      symmetry. now apply same_identity_eq.
  - pose proof (proj1 (update_first_none _ _ _) U) as N.
    rewrite (filter_none _ _ N).
    split; [rewrite length_app; reflexivity|].
    split; [reflexivity|].
    rewrite filter_app, length_app. cbn [filter].
    rewrite same_identity_fresh.
    destruct (String.eqb n n' && String.eqb l l') eqn:E; cbn [List.length].
    + apply andb_true_iff in E as [E1 E2].
      apply String.eqb_eq in E1, E2. subst.
      rewrite (filter_none _ _ N). reflexivity.
    + lia.
Qed.

Lemma ci_starts_with_refl q : ci_starts_with q q = true.
Proof.
  induction q as [|c q IH]; [reflexivity|].
  cbn [ci_starts_with]. now rewrite Ascii.eqb_refl, IH.
Qed.

Lemma ci_contains_refl q : ci_contains q q = true.
Proof. destruct q; cbn [ci_contains]; now rewrite ci_starts_with_refl. Qed.

Lemma lookup_matches_saved n l ri m mt d :
  lookup_matches n l (set_fields (saved_fields n l ri m mt) d) = true.
Proof.
  unfold lookup_matches, name_contains, location_contains.
  rewrite !assoc_set_saved_fields. cbn [saved_fields assoc String.eqb].
  cbn. rewrite !ci_contains_refl. now destruct (str_truthy l).
Qed.

Lemma lookup_matches_fresh n l ri m mt :
  lookup_matches n l (saved_fields n l ri m mt) = true.
Proof.
  unfold lookup_matches, name_contains, location_contains.
  cbn. rewrite !ci_contains_refl. now destruct (str_truthy l).
Qed.

Lemma find_after_update f g (h : document -> bool) l l' :
  update_first f g l = Some l' ->
  (forall d, In d l -> h d = true -> f d = true) ->
  (forall d, h (g d) = true) ->
  exists d0, In d0 l /\ f d0 = true /\ find h l' = Some (g d0).
Proof.
  revert l'; induction l as [|d l IH]; intros l' U Hh Hg; [discriminate|].
  cbn [update_first] in U. destruct (f d) eqn:E.
  - injection U as <-. exists d. cbn [find]. rewrite Hg.
    repeat split; [now left | exact E].
  - destruct (update_first f g l) as [l0|] eqn:U0; [|discriminate].
    injection U as <-.
    destruct (IH l0 eq_refl) as (d0 & Hin & Hf & Hfind).
    { intros x Hx. apply Hh. now right. }
    { exact Hg. }
    exists d0. cbn [find].
    destruct (h d) eqn:Hd.
    + rewrite (Hh d (or_introl eq_refl) Hd) in E. discriminate E.
    + repeat split; [now right | exact Hf | exact Hfind].
Qed.

Lemma find_after_append (h : document -> bool) l x :
  (forall d, In d l -> h d = false) -> h x = true ->
  find h (l ++ [x]) = Some x.
Proof.
  intros Hl Hx. induction l as [|d l IH]; cbn [app find].
  - now rewrite Hx.
  - rewrite (Hl d (or_introl eq_refl)). apply IH.
    intros y Hy. apply Hl. now right.
Qed.

Lemma get_menu_literal menus q l :
  q <> EmptyString -> literal q = true -> literal l = true ->
  get_menu menus (Some q) (Some l)
  = ([MongoFind q], Ok (find (lookup_matches q l) menus)).
Proof.
  intros Hq Lq Ll. unfold get_menu.
  assert (Tq : str_truthy q = true) by (destruct q; [congruence|reflexivity]).
  rewrite Tq. cbn [negb bind emit]. rewrite (compile_literal q Lq).
  assert (E : forall pl,
             (pl = if str_truthy l then Some (lits l) else None) ->
             find (query_matches (lits q) pl) menus
             = find (lookup_matches q l) menus).
  { intros pl ->. induction menus as [|d menus IH]; [reflexivity|].
    cbn [find]. rewrite IH.
    assert (M : query_matches (lits q)
                  (if str_truthy l then Some (lits l) else None) d
                = lookup_matches q l d).
    { unfold query_matches, lookup_matches. rewrite field_matches_name.
      destruct (str_truthy l); [now rewrite field_matches_location|reflexivity]. }
    now rewrite M. }
  destruct (str_truthy l) eqn:Tl.
  - rewrite (compile_literal l Ll). cbn. now rewrite (E (Some (lits l))).
  - cbn. now rewrite (E None).
Qed.

Lemma update_first_in f g (l l' : list document) :
  update_first f g l = Some l' ->
  exists d0, In d0 l /\ f d0 = true /\ In (g d0) l'.
Proof.
  revert l'; induction l as [|d l IH]; intros l' U; [discriminate|].
  cbn [update_first] in U. destruct (f d) eqn:E.
  - injection U as <-. exists d. repeat split; [now left | exact E | now left].
  - destruct (update_first f g l) as [l0|]; [|discriminate].
    injection U as <-. destruct (IH l0 eq_refl) as (d0 & Hin & Hf & Hg).
    exists d0. repeat split; [now right | exact Hf | now right].
Qed.

(** X11.  What is saved can be looked up.  For a name that is not empty
    and a name and a location that both hold no pattern character, after
    [save_menu] under this name and location [get_menu] with the same
    name and location returns a stored document whose name and location
    contain the given ones.  When moreover every document the name
    matched before carried this very name and location, the document
    returned is the one just saved, with the saved restaurant, menu and
    meta. *)
Theorem saved_menu_is_found (menus : list document) (n l : string)
  (ri m mt : json) :
  n <> EmptyString -> literal n = true -> literal l = true ->
  exists found,
    get_menu (snd (save_menu menus n l ri m mt)) (Some n) (Some l)
    = ([MongoFind n], Ok (Some found))
    /\ In found (snd (save_menu menus n l ri m mt))
    /\ lookup_matches n l found = true
    /\ ((forall d, In d menus -> name_contains n d = true ->
                   same_identity n l d = true) ->
        assoc "restaurant_info" found = Some ri
        /\ assoc "menu" found = Some m
        /\ assoc "meta" found = Some mt).
Proof.
  intros Hn Ln Ll. rewrite (get_menu_literal _ n l Hn Ln Ll).
  unfold save_menu.
  destruct (update_first (same_identity n l)
              (set_fields (saved_fields n l ri m mt)) menus) as [menus'|] eqn:U;
    cbn [snd].
  - destruct (update_first_in _ _ _ _ U) as (d1 & _ & _ & I1).
    destruct (find_first _ _ _ I1 (lookup_matches_saved n l ri m mt d1))
      as (y & Fy & Iy & My).
    exists y. split; [now rewrite Fy|]. split; [exact Iy|].
    split; [exact My|]. intros Hu.
    destruct (find_after_update _ _ (lookup_matches n l) _ _ U)
      as (d0 & _ & _ & F).
    + intros d Hd Hm. apply (Hu d Hd).
      unfold lookup_matches in Hm. now apply andb_true_iff in Hm as [Hm _].
    + intros d. apply lookup_matches_saved.
    + assert (E : y = set_fields (saved_fields n l ri m mt) d0)
        by congruence.
      rewrite E. now rewrite !assoc_set_saved_fields.
  - pose proof (proj1 (update_first_none _ _ _) U) as N.
    assert (I1 : In (saved_fields n l ri m mt)
                   (menus ++ [saved_fields n l ri m mt]))
      by (apply in_or_app; right; now left).
    destruct (find_first _ _ _ I1 (lookup_matches_fresh n l ri m mt))
      as (y & Fy & Iy & My).
    exists y. split; [now rewrite Fy|]. split; [exact Iy|].
    split; [exact My|]. intros Hu.
    rewrite find_after_append in Fy.
    + injection Fy as <-. repeat split.
    + intros d Hd. unfold lookup_matches.
      destruct (name_contains n d) eqn:C; [|reflexivity].
      pose proof (N d Hd) as Nd. rewrite (Hu d Hd C) in Nd. discriminate Nd.
    + apply lookup_matches_fresh.
Qed.

Lemma saved_menu_is_found_witness :
  exists found,
    get_menu (snd (save_menu [sample_document "Punjabi Dhaba" "Indiranagar"]
                     "Tandoori Treat" "Koramangala"
                     (JDict []) empty_menu_json (JDict [])))
      (Some "Tandoori Treat") (Some "Koramangala")
    = ([MongoFind "Tandoori Treat"], Ok (Some found))
    /\ In found
         (snd (save_menu [sample_document "Punjabi Dhaba" "Indiranagar"]
                 "Tandoori Treat" "Koramangala"
                 (JDict []) empty_menu_json (JDict [])))
    /\ lookup_matches "Tandoori Treat" "Koramangala" found = true
    /\ ((forall d, In d [sample_document "Punjabi Dhaba" "Indiranagar"] ->
                   name_contains "Tandoori Treat" d = true ->
                   same_identity "Tandoori Treat" "Koramangala" d = true) ->
        assoc "restaurant_info" found = Some (JDict [])
        /\ assoc "menu" found = Some empty_menu_json
        /\ assoc "meta" found = Some (JDict [])).
Proof.
  apply (saved_menu_is_found [sample_document "Punjabi Dhaba" "Indiranagar"]
           "Tandoori Treat" "Koramangala" (JDict []) empty_menu_json (JDict [])).
  - discriminate.
  - reflexivity.
  - reflexivity.
Defined.

(** With other documents under a name that contains the saved one, the
    lookup still returns a document, and it may be an older one. *)
Example saved_menu_may_find_older :
  outcome_of
    (get_menu (snd (save_menu [sample_document "Tandoori Treat House" "Koramangala"]
                      "Tandoori Treat" "Koramangala"
                      (JDict []) empty_menu_json (JDict [])))
       (Some "Tandoori Treat") (Some "Koramangala"))
  = Ok (Some (sample_document "Tandoori Treat House" "Koramangala")).
Proof. reflexivity. Qed.

Lemma delete_first_spec f l :
  match delete_first f l with
  | Some l' =>
      existsb f l = true /\ S (List.length l') = List.length l
      /\ (forall d, In d l -> f d = false -> In d l')
      /\ (forall d, In d l' -> In d l)
  | None => existsb f l = false
  end.
Proof.
  induction l as [|d l IH]; cbn [delete_first existsb]; [reflexivity|].
  destruct (f d) eqn:E; cbn [orb].
  - repeat split; [| now right].
    intros x [<-|Hx] Hf; [congruence | exact Hx].
  - destruct (delete_first f l) as [l'|]; cbn [option_map]; [|exact IH].
    destruct IH as (He & Hl & Hk & Hb). repeat split.
    + exact He.
    + cbn [List.length]. now rewrite Hl.
    + intros x [<-|Hx] Hf; [now left | right; now apply Hk].
    + intros x [<-|Hx]; [now left | right; now apply Hb].
Qed.

(** X12.  [delete_menu] answers whether some document has exactly the
    given name (and location, when one is given), removes one document in
    that case and none otherwise, and never removes a document stored
    under another name, however the name compares without case or as a
    substring. *)
Theorem delete_menu_is_exact (menus : list document) (n l : string) :
  let r := delete_menu menus n l in
  fst r = existsb (delete_query n l) menus
  /\ List.length (snd r) + (if fst r then 1 else 0) = List.length menus
  /\ (forall d, In d menus -> field_is "restaurant_name" n d = false ->
                In d (snd r))
  /\ (forall d, In d (snd r) -> In d menus).
Proof.
  cbv zeta. unfold delete_menu.
  pose proof (delete_first_spec (delete_query n l) menus) as H.
  destruct (delete_first (delete_query n l) menus) as [menus'|]; cbn [fst snd].
  - destruct H as (He & Hl & Hk & Hb). repeat split; auto; [lia|].
    intros d Hd Hf. apply Hk; [exact Hd|].
    unfold delete_query. now rewrite Hf.
  - repeat split; auto; lia.
Qed.

Lemma delete_first_append f l x :
  (forall d, In d l -> f d = false) -> f x = true ->
  delete_first f (l ++ [x]) = Some l.
Proof.
  intros Hl Hx. induction l as [|d l IH]; cbn [app delete_first].
  - now rewrite Hx.
  - rewrite (Hl d (or_introl eq_refl)), IH; [reflexivity|].
    intros y Hy. apply Hl. now right.
Qed.

(** X13.  Saving and then deleting under the same name and location
    gives the collection back, when no document of the collection
    satisfied the delete query before. *)
Theorem save_then_delete (menus : list document) (n l : string)
  (ri m mt : json) :
  (forall d, In d menus -> delete_query n l d = false) ->
  delete_menu (snd (save_menu menus n l ri m mt)) n l = (true, menus).
Proof.
  intros H. unfold save_menu.
  assert (N : forall d, In d menus -> same_identity n l d = false).
  { intros d Hd. specialize (H d Hd). unfold delete_query in H.
    unfold same_identity.
    destruct (field_is "restaurant_name" n d); [|reflexivity].
    destruct (str_truthy l); [exact H | discriminate H]. }
  apply update_first_none
    with (g := set_fields (saved_fields n l ri m mt)) in N.
  rewrite N. cbn [snd]. unfold delete_menu.
  rewrite delete_first_append; [reflexivity | exact H |].
  unfold delete_query, field_is. cbn [saved_fields assoc String.eqb].
  cbn. rewrite !String.eqb_refl. now destruct (str_truthy l).
Qed.

Lemma save_then_delete_witness :
  delete_menu
    (snd (save_menu [sample_document "Punjabi Dhaba" "Indiranagar"]
            "Tandoori Treat" "Koramangala" (JDict []) empty_menu_json
            (JDict [])))
    "Tandoori Treat" "Koramangala"
  = (true, [sample_document "Punjabi Dhaba" "Indiranagar"]).
Proof.
  apply (save_then_delete [sample_document "Punjabi Dhaba" "Indiranagar"]
           "Tandoori Treat" "Koramangala" (JDict []) empty_menu_json (JDict [])).
  intros d [<-|[]]. reflexivity.
Defined.

End StoreFacts.

(** ** The calls of each stage *)

Section CallShapes.

Import Normalizer Ocr Mongo Serp Endpoints.

Lemma all_events_impl {A} (P Q : event -> bool) (c : M A) :
  (forall e, P e = true -> Q e = true) -> all_events P c -> all_events Q c.
Proof.
  unfold all_events. intros H Hc. eapply Forall_impl; [|exact Hc].
  exact H.
Qed.

Lemma extract_menu_images_serp c n l k u :
  all_events is_serp (extract_menu_images c n l k u).
Proof.
  unfold extract_menu_images.
  apply all_events_bind.
  { unfold search_restaurant. apply all_events_bind;
      [now apply all_events_emit | intros; apply all_events_ret]. }
  intros [pl|]; [|apply all_events_ret].
  destruct (negb (opt_str_truthy (data_id pl))); [apply all_events_ret|].
  apply all_events_bind.
  { unfold get_menu_photos. apply all_events_bind;
      [now apply all_events_emit | intros; apply all_events_ret]. }
  intros; apply all_events_ret.
Qed.

Lemma gather_chunks_gemini model rn chunks :
  all_events is_gemini (gather_chunks model rn chunks).
Proof.
  destruct (gather_chunks_outcome model rn chunks) as (results & -> & _).
  unfold all_events. cbn [trace fst]. apply Forall_map.
  now apply Forall_forall.
Qed.

Lemma normalize_gemini model raw rn : all_events is_gemini (normalize model raw rn).
Proof.
  unfold normalize. destruct model as [m|]; [|apply all_events_ret].
  destruct (negb (str_truthy raw) || (String.length raw <? min_text_length)%nat);
    [apply all_events_ret|].
  apply all_events_bind; [apply gather_chunks_gemini|]. intros results.
  apply all_events_bind; [apply all_events_lift|]. intros cm.
  apply all_events_bind; [apply all_events_lift | intros; apply all_events_ret].
Qed.

Lemma get_menu_tier menus n l : all_events is_tier (Mongo.get_menu menus n l).
Proof.
  unfold Mongo.get_menu. destruct n as [name|]; [|apply all_events_ret].
  destruct (negb (str_truthy name)); [apply all_events_ret|].
  apply all_events_bind; [now apply all_events_emit|]. intros _.
  destruct (compile name); [|apply all_events_raise].
  destruct l as [loc|]; [|apply all_events_ret].
  destruct (str_truthy loc); [|apply all_events_ret].
  destruct (compile loc); [apply all_events_ret | apply all_events_raise].
Qed.

Lemma resolve_tier w request : all_events is_tier (resolve w request).
Proof.
  unfold resolve. apply all_events_bind.
  - unfold check_cache. destruct (cache_key_of request); [|apply all_events_ret].
    destruct (str_truthy s); [|apply all_events_ret].
    apply all_events_bind; [now apply all_events_emit|]. intros _.
    apply all_events_bind; [apply all_events_lift | intros; apply all_events_ret].
  - intros [r|]; [apply all_events_ret|].
    unfold check_mongo.
    destruct (opt_str_truthy (restaurant_name request)); [|apply all_events_ret].
    apply all_events_try; [|apply all_events_ret].
    apply all_events_bind; [apply get_menu_tier|]. intros stored.
    apply all_events_bind; [apply all_events_lift|]. intros b.
    destruct stored as [doc|]; [|apply all_events_ret].
    destruct (is_some_nonempty (Some doc) && b); [|apply all_events_ret].
    unfold mongo_hit.
    destruct (assoc "restaurant_info" doc); [|apply all_events_raise].
    destruct (assoc "menu" doc); [|apply all_events_raise].
    destruct (assoc "meta" doc); [|apply all_events_raise].
    apply all_events_bind; [|intros; apply all_events_ret].
    destruct (opt_str_truthy (cache_key_of request));
      [now apply all_events_emit | apply all_events_ret].
Qed.

Lemma ocr_calls_none {A} P (c : M A) :
  all_events P c -> (forall e, P e = true -> is_ocr e = false) ->
  ocr_calls c = 0.
Proof.
  unfold all_events, ocr_calls. intros Hc Hp.
  rewrite filter_none; [reflexivity|].
  rewrite Forall_forall in Hc. intros e He. apply Hp. now apply Hc.
Qed.

Lemma ocr_calls_bind {A B} (c : M A) (f : A -> M B) :
  ocr_calls (bind c f)
  = ocr_calls c + match outcome_of c with
                  | Ok a => ocr_calls (f a)
                  | Raise _ => 0
                  end.
Proof.
  unfold ocr_calls. rewrite trace_bind, filter_app, length_app.
  now destruct (outcome_of c).
Qed.

Lemma ocr_calls_process_images client urls :
  ocr_calls (process_images client urls) = List.length urls.
Proof.
  unfold ocr_calls. rewrite process_images_eq. cbn [trace fst].
  induction urls as [|u urls IH]; [reflexivity|].
  cbn [map filter is_ocr List.length]. now rewrite IH.
Qed.

Lemma serp_not_ocr e : is_serp e = true -> is_ocr e = false.
Proof. now destruct e. Qed.

Lemma gemini_not_ocr e : is_gemini e = true -> is_ocr e = false.
Proof. now destruct e. Qed.

Lemma tier_not_ocr e : is_tier e = true -> is_ocr e = false.
Proof. now destruct e. Qed.

(** The OCR calls of a fresh extraction: none when the image source
    answers not-found, else one for each of the first ten URLs. *)
Lemma fresh_ocr_calls w request :
  ocr_calls (fresh_extraction w request)
  = match outcome_of (extract_menu_images (serpapi w)
                        (restaurant_name request)
                        (str_or (location request) "") 0
                        (google_maps_url request)) with
    | Ok sr => if not_found sr then 0
               else Nat.min 10 (List.length (urls_of sr))
    | Raise _ => 0
    end.
Proof.
  unfold fresh_extraction. rewrite ocr_calls_bind.
  rewrite (ocr_calls_none is_serp _ (extract_menu_images_serp _ _ _ _ _)
             serp_not_ocr).
  cbn [Nat.add].
  destruct (outcome_of (extract_menu_images _ _ _ _ _)) as [sr|]; [|reflexivity].
  destruct (not_found sr); [reflexivity|].
  rewrite ocr_calls_bind, ocr_calls_process_images, length_firstn.
  fold (urls_of sr).
  destruct (outcome_of (process_images _ _)) as [o|]; [|lia].
  destruct (negb (str_truthy (combined_text o))); [cbn; lia|].
  rewrite ocr_calls_bind.
  rewrite (ocr_calls_none is_gemini _ (normalize_gemini _ _ _) gemini_not_ocr).
  destruct (outcome_of (normalize _ _ _)); cbn; lia.
Qed.

Lemma fresh_outcome_fresh w request r menu meta :
  outcome_of (fresh_extraction w request) = Ok (Fresh r menu meta) ->
  exists sr,
    outcome_of (extract_menu_images (serpapi w) (restaurant_name request)
                  (str_or (location request) "") 0 (google_maps_url request))
    = Ok sr
    /\ not_found sr = false
    /\ r = restaurant sr
    /\ images_processed meta = List.length (urls_of sr).
Proof.
  unfold fresh_extraction. rewrite outcome_bind.
  destruct (outcome_of (extract_menu_images _ _ _ _ _)) as [sr|]; [|discriminate].
  destruct (not_found sr) eqn:N; [discriminate|].
  rewrite outcome_bind.
  destruct (outcome_of (process_images _ _)) as [o|]; [|discriminate].
  destruct (negb (str_truthy (combined_text o))); [discriminate|].
  rewrite outcome_bind.
  destruct (outcome_of (normalize _ _ _)) as [n|]; [|discriminate].
  cbn. intros [= <- _ <-]. exists sr. auto.
Qed.


End CallShapes.

(** ** A request after a fresh extraction *)

Section RepeatRequest.

Import Normalizer Ocr Mongo Serp Endpoints Tiers.

Lemma str_truthy_app_underscore a b : str_truthy (a ++ "_" ++ b) = true.
Proof. destruct a; reflexivity. Qed.

Lemma cache_key_of_named request :
  opt_str_truthy (restaurant_name request) = true ->
  cache_key_of request = Some (request_key request)
  /\ str_truthy (request_key request) = true.
Proof.
  intros H. unfold cache_key_of, request_key. rewrite H.
  split; [reflexivity | apply str_truthy_app_underscore].
Qed.

(** A fresh answer has written the store and then the fast cache, as its
    last two calls. *)
Lemma fresh_writes_last w request tf r menu meta :
  fresh_extraction w request = (tf, Ok (Fresh r menu meta)) ->
  opt_str_truthy (restaurant_name request) = true ->
  exists t1 doc,
    tf = t1 ++ [MongoSave doc;
                RedisSet (request_key request) (JDict (entry_fields r menu meta))].
Proof.
  intros H Hn. destruct (cache_key_of_named request Hn) as (K & T).
  unfold fresh_extraction in H. rewrite K, T in H.
  destruct (extract_menu_images _ _ _ _ _) as [ta [sr|]];
    [|discriminate].
  rewrite bind_ok in H.
  destruct (not_found sr); [discriminate|].
  destruct (process_images _ _) as [tb [o|]]; [|discriminate].
  rewrite bind_ok in H.
  destruct (negb (str_truthy (combined_text o))); [discriminate|].
  destruct (normalize _ _ _) as [tc [n|]]; [|discriminate].
  rewrite bind_ok in H. cbn [emit bind ret trace outcome_of fst snd app] in H.
  injection H as <- <- <- <-.
  eexists (ta ++ tb ++ tc), _.
  rewrite <- !app_assoc. reflexivity.
Qed.

Lemma redis_after_last landed t key data w :
  landed (RedisSet key data) = true ->
  redis_get (after landed (t ++ [RedisSet key data]) w) key = Some data.
Proof.
  intros L. unfold after. rewrite fold_left_app.
  cbn [fold_left]. unfold after_event at 1. rewrite L.
  cbn [redis_set redis_get]. now rewrite String.eqb_refl.
Qed.

Lemma of_nat_pos n : (0 <? Z.of_nat n)%Z = (0 <? n)%nat.
Proof.
  destruct (Nat.ltb_spec 0 n); [apply Z.ltb_lt | apply Z.ltb_ge]; lia.
Qed.

(** The entry a fresh extraction writes is a valid hit exactly when it
    records an item. *)
Lemma written_entry_valid r menu meta :
  items_count meta = match menu with Some m => counted m | None => 0 end ->
  cache_valid (Some (JDict (entry_fields r menu meta)))
  = Ok (0 <? items_count meta)%nat.
Proof.
  intros H. unfold cache_valid, entry_fields.
  cbn [truthy negb py_get assoc String.eqb Ascii.eqb Bool.eqb rbind].
  destruct menu as [m|]; cbn [menu_opt_to_json truthy negb].
  - destruct m as [|g m]; cbn [menu_to_json map truthy negb].
    + rewrite H. reflexivity.
    + cbn. now rewrite of_nat_pos.
  - rewrite H. reflexivity.
Qed.

Lemma check_cache_named w request :
  opt_str_truthy (restaurant_name request) = true ->
  check_cache w request
  = ([RedisGet (request_key request)],
     match cache_valid (redis_get w (request_key request)) with
     | Ok true =>
         Ok match redis_get w (request_key request) with
            | Some (JDict d) => Some (CacheHit d)
            | _ => None
            end
     | Ok false => Ok None
     | Raise e => Raise e
     end).
Proof.
  intros Hn. destruct (cache_key_of_named request Hn) as (K & T).
  unfold check_cache. rewrite K, T.
  cbn [emit bind lift].
  destruct (cache_valid (redis_get w (request_key request))) as [[|]|];
    reflexivity.
Qed.

(** After a fresh answer to a request that names a restaurant, when the
    write of the entry reached the fast cache, the cache holds the
    written entry under the key of the request, and the item count the
    entry records is the item count of its menu. *)
Lemma written_entry_in_cache landed w request r menu meta :
  opt_str_truthy (restaurant_name request) = true ->
  outcome_of (extract_menu w request) = Ok (Fresh r menu meta) ->
  landed (RedisSet (request_key request) (JDict (entry_fields r menu meta)))
  = true ->
  redis_get (after landed (trace (extract_menu w request)) w)
    (request_key request)
  = Some (JDict (entry_fields r menu meta))
  /\ items_count meta = match menu with Some m => counted m | None => 0 end.
Proof.
  intros Hn H L.
  assert (R : exists log, resolve w request = (log, Ok None)
                          /\ outcome_of (fresh_extraction w request)
                             = Ok (Fresh r menu meta)).
  { unfold extract_menu in H.
    apply (proj1 (outcome_http_guard_ok _ _)) in H. rewrite outcome_bind in H.
    destruct (resolve w request) as [log [[r'|]|]] eqn:R; cbn [outcome_of snd] in H;
      [| |discriminate].
    - exfalso. injection H as ->.
      assert (R' : outcome_of (resolve w request) = Ok (Some (Fresh r menu meta)))
        by now rewrite R.
      apply resolve_hit in R' as [R'|R'].
      + apply check_cache_hit in R' as (d & [=] & _).
      + apply check_mongo_hit in R' as (? & ? & ? & ? & _ & [=] & _).
    - now exists log. }
  destruct R as (log & R & F).
  split; [|exact (fresh_meta_counts_menu w request r menu meta F)].
  destruct (fresh_writes_last w request (trace (fresh_extraction w request))
              r menu meta) as (t1 & doc & T); [|exact Hn|].
  { rewrite <- F. apply pair_trace_outcome. }
  rewrite (extract_menu_after_miss w request log R), trace_http_guard.
  cbn [trace fst]. rewrite T.
  replace (log ++ t1 ++ [MongoSave doc;
             RedisSet (request_key request) (JDict (entry_fields r menu meta))])
    with ((log ++ t1 ++ [MongoSave doc])
          ++ [RedisSet (request_key request) (JDict (entry_fields r menu meta))])
    by (now rewrite <- !app_assoc).
  now apply redis_after_last.
Qed.

(** X15.  After a fresh answer to a request that names a restaurant,
    when the write of the entry reached the fast cache (the write is
    best effort: a failure is swallowed), the same request finds the
    written entry there: it is served from the fast cache, with one cache
    read and no other call, when the answer recorded at least one item,
    and the entry is passed over (a miss of the fast cache) when it
    recorded none. *)
Theorem repeat_request_after_fresh (landed : event -> bool) (w : world)
  (request : MenuRequest) (r : option restaurant_info) (menu : option menu)
  (meta : meta) :
  opt_str_truthy (restaurant_name request) = true ->
  outcome_of (extract_menu w request) = Ok (Fresh r menu meta) ->
  landed (RedisSet (request_key request) (JDict (entry_fields r menu meta)))
  = true ->
  let w' := after landed (trace (extract_menu w request)) w in
  check_cache w' request
  = ([RedisGet (request_key request)],
     Ok (if (0 <? items_count meta)%nat
         then Some (CacheHit (entry_fields r menu meta))
         else None))
  /\ (0 < items_count meta ->
      extract_menu w' request
      = ([RedisGet (request_key request)],
         Ok (CacheHit (entry_fields r menu meta)))).
Proof.
  intros Hn H L. cbv zeta.
  destruct (written_entry_in_cache landed w request r menu meta Hn H L)
    as (G & C).
  set (w' := after landed _ w) in *.
  assert (Ck : check_cache w' request
               = ([RedisGet (request_key request)],
                  Ok (if (0 <? items_count meta)%nat
                      then Some (CacheHit (entry_fields r menu meta))
                      else None))).
  { rewrite (check_cache_named w' request Hn), G, (written_entry_valid _ _ _ C).
    now destruct (0 <? items_count meta)%nat. }
  split; [exact Ck|].
  intros Hpos. unfold extract_menu, resolve. rewrite Ck.
  apply Nat.ltb_lt in Hpos. rewrite Hpos. reflexivity.
Qed.

Lemma repeat_request_after_fresh_witness :
  exists r menu meta,
    let w' := after all_landed (trace (extract_menu rich_world name_request))
                rich_world in
    check_cache w' name_request
    = ([RedisGet (request_key name_request)],
       Ok (if (0 <? items_count meta)%nat
           then Some (CacheHit (entry_fields r menu meta))
           else None))
    /\ (0 < items_count meta ->
        extract_menu w' name_request
        = ([RedisGet (request_key name_request)],
           Ok (CacheHit (entry_fields r menu meta)))).
Proof.
  do 3 eexists.
  apply (repeat_request_after_fresh all_landed rich_world name_request).
  - reflexivity.
  - reflexivity.
  - reflexivity.
Defined.

(** The repeated request is served from the fast cache when the write
    landed and the entry records an item; it runs the extraction again
    when the entry records none, and is served from the durable store
    when only the write to the fast cache was lost. *)
Example rich_world_is_served_from_cache :
  source_of_outcome
    (extract_menu
       (after all_landed (trace (extract_menu rich_world name_request))
          rich_world)
       name_request)
  = Some "cache"
  /\ source_of_outcome (extract_menu rich_world name_request) = Some "fresh"
  /\ source_of_outcome
       (extract_menu
          (after all_landed (trace (extract_menu barren_world name_request))
             barren_world)
          name_request)
     = Some "fresh"
  /\ source_of_outcome
       (extract_menu
          (after cache_down (trace (extract_menu rich_world name_request))
             rich_world)
          name_request)
     = Some "mongodb".
Proof. repeat split; reflexivity. Qed.

End RepeatRequest.

(** ** The image source *)

Section SerpFacts.

Import Serp Endpoints.

Lemma collect_urls_truthy ps :
  Forall (fun u => str_truthy u = true) (collect_urls ps).
Proof.
  induction ps as [|p ps IH]; cbn [collect_urls]; [constructor|].
  destruct (str_truthy (or_else (image p) "")) eqn:E; [|exact IH].
  now constructor.
Qed.

Lemma collect_urls_length ps : List.length (collect_urls ps) <= List.length ps.
Proof.
  induction ps as [|p ps IH]; cbn [collect_urls List.length]; [lia|].
  destruct (str_truthy (or_else (image p) "")); cbn [List.length]; lia.
Qed.

(** What a result of [extract_menu_images] can be: no place found, a
    place without data id, or a place with the URLs of its photos. *)
Lemma extract_menu_images_result c n l max_images u sr :
  outcome_of (extract_menu_images c n l max_images u) = Ok sr ->
  (exists e, error sr = Some e /\ urls_of sr = [] /\ not_found sr = true)
  \/ (error sr = None /\ not_found sr = false
      /\ exists pl id,
           data_id pl = Some id
           /\ image_urls sr
              = Some (collect_urls
                        (if (max_images =? 0)%nat then photos c id
                         else firstn max_images (photos c id)))).
Proof.
  unfold extract_menu_images, search_restaurant, get_menu_photos.
  cbn [bind emit ret].
  destruct (search c _) as [pl|]; cbn [outcome_of snd].
  - destruct (data_id pl) as [id|] eqn:D; cbn [opt_str_truthy negb].
    + destruct (str_truthy id) eqn:T; cbn [negb outcome_of snd or_else].
      * intros [= <-]. right. cbn [error not_found image_urls].
        repeat split. now exists pl, id.
      * intros [= <-]. left. eexists. now repeat split.
    + cbn [outcome_of snd]. intros [= <-]. left. eexists. now repeat split.
  - intros [= <-]. left. eexists. now repeat split.
Qed.

(** X16.  Whenever [extract_menu_images] returns a result (the calls to
    the image source may fail, and then nothing is returned): a result
    that carries an error carries no image URL, so the guard [not_found]
    of the endpoints holds exactly when the error is present; a result
    without error carries a list of URLs, which may be empty; every URL
    is non-empty, and with a positive [max_images] there are at most
    that many. *)
Theorem extract_menu_images_shape (c : client) (n : option string)
  (l : string) (max_images : nat) (u : option string) (sr : serp_result) :
  outcome_of (extract_menu_images c n l max_images u) = Ok sr ->
  (forall e, error sr = Some e -> urls_of sr = [])
  /\ not_found sr = match error sr with Some _ => true | None => false end
  /\ (error sr = None -> exists urls, image_urls sr = Some urls)
  /\ Forall (fun url => str_truthy url = true) (urls_of sr)
  /\ (0 < max_images -> List.length (urls_of sr) <= max_images).
Proof.
  intros H.
  destruct (extract_menu_images_result _ _ _ _ _ _ H)
    as [(e & E & U & N)|(E & N & pl & id & _ & I)].
  - rewrite E, U, N. repeat split; try constructor.
    + discriminate.
    + cbn [List.length]. lia.
  - rewrite E, N. unfold urls_of. rewrite I. repeat split.
    + discriminate.
    + eauto.
    + apply collect_urls_truthy.
    + intros Hk. destruct max_images as [|k]; [lia|].
      cbn [Nat.eqb]. etransitivity; [apply collect_urls_length|].
      apply firstn_le_length.
Qed.

Lemma extract_menu_images_shape_witness :
  exists sr,
    outcome_of (extract_menu_images (serpapi rich_world) (Some "Tandoori Treat")
                  "Koramangala" 10 None) = Ok sr
    /\ image_urls sr = Some ["u0"]
    /\ (forall e, error sr = Some e -> urls_of sr = [])
    /\ not_found sr = match error sr with Some _ => true | None => false end
    /\ (error sr = None -> exists urls, image_urls sr = Some urls)
    /\ Forall (fun url => str_truthy url = true) (urls_of sr)
    /\ (0 < 10 -> List.length (urls_of sr) <= 10).
Proof.
  eexists. split; [reflexivity|]. split; [reflexivity|].
  apply (extract_menu_images_shape (serpapi rich_world) (Some "Tandoori Treat")
           "Koramangala" 10 None).
  reflexivity.
Defined.

(** An error with an empty list, and an empty list without error. *)
Example extract_menu_images_empty_lists :
  (exists sr,
     outcome_of (extract_menu_images
                   {| search := fun _ =>
                        Some {| title := None; address := None;
                                rating := JNull; reviews := JNull;
                                phone := None; data_id := None |};
                      photos := fun _ => [] |}
                   (Some "Tandoori Treat") "" 0 None) = Ok sr
     /\ error sr = Some "No data_id found" /\ image_urls sr = Some [])
  /\ (exists sr,
        outcome_of (extract_menu_images (serpapi no_photos_world)
                      (Some "Tandoori Treat") "" 0 None) = Ok sr
        /\ error sr = None /\ image_urls sr = Some []).
Proof. split; eexists; repeat split. Qed.

End SerpFacts.

(** ** The simple extraction *)

Section SimpleFacts.

Import Normalizer Ocr Mongo Serp Endpoints Simple.

Lemma take_length n s : String.length (take n s) = Nat.min n (String.length s).
Proof.
  unfold take. revert s; induction n as [|n IH]; intro s.
  - now destruct s.
  - destruct s as [|c s]; [reflexivity|].
    cbn [substring String.length]. now rewrite IH.
Qed.

Lemma serp_is_serp_or_ocr e : is_serp e = true -> is_serp_or_ocr e = true.
Proof. unfold is_serp_or_ocr. now intros ->. Qed.

(** X17.  [extract_simple] only calls the image source and the OCR
    backend (no tier is read or written, the structuring backend is not
    called) and makes at most three OCR calls.  When the image source
    returns a result that carries an error (no restaurant found, or a
    place without data id), the answer is the error payload with that
    error, not an HTTP error.  The text sample of a text answer has
    [min 1000 ocr_chars] characters. *)
Theorem extract_simple_is_shallow (w : world) (request : MenuRequest) :
  all_events is_serp_or_ocr (extract_simple w request)
  /\ ocr_calls (extract_simple w request) <= 3
  /\ (forall sr e,
        outcome_of (extract_menu_images (serpapi w) (restaurant_name request)
                      (str_or (location request) "") 0 None) = Ok sr ->
        error sr = Some e ->
        outcome_of (extract_simple w request) = Ok (SimpleError e))
  /\ (forall r k ocr_chars sample,
        outcome_of (extract_simple w request)
        = Ok (SimpleText r k ocr_chars sample) ->
        String.length sample = Nat.min 1000 ocr_chars).
Proof.
  unfold extract_simple.
  set (c := bind _ _).
  assert (Hc : all_events is_serp_or_ocr c
               /\ ocr_calls c <= 3
               /\ (forall sr e,
                     outcome_of (extract_menu_images (serpapi w)
                                   (restaurant_name request)
                                   (str_or (location request) "") 0 None)
                     = Ok sr ->
                     error sr = Some e ->
                     outcome_of c = Ok (SimpleError e))
               /\ (forall r k ocr_chars sample,
                     outcome_of c = Ok (SimpleText r k ocr_chars sample) ->
                     String.length sample = Nat.min 1000 ocr_chars)).
  { unfold c. clear c.
    pose proof (extract_menu_images_serp (serpapi w) (restaurant_name request)
                  (str_or (location request) "") 0 None) as Hs.
    split; [|split; [|split]].
    - apply all_events_bind;
        [eapply all_events_impl; [apply serp_is_serp_or_ocr | exact Hs]|].
      intros sr'. destruct (not_found sr'); [apply all_events_ret|].
      apply all_events_bind; [|intros; apply all_events_ret].
      rewrite process_images_eq. unfold all_events. cbn [trace fst].
      apply Forall_map. now apply Forall_forall.
    - rewrite ocr_calls_bind, (ocr_calls_none is_serp _ Hs serp_not_ocr).
      destruct (outcome_of (extract_menu_images _ _ _ _ _)) as [sr|];
        [|cbn; lia].
      cbn [Nat.add]. destruct (not_found sr); [cbn; lia|].
      rewrite ocr_calls_bind, ocr_calls_process_images, length_firstn.
      destruct (outcome_of (process_images _ _));
        unfold ocr_calls; cbn [ret trace fst filter List.length]; lia.
    - intros sr e O E. rewrite outcome_bind, O.
      destruct (extract_menu_images_result _ _ _ _ _ _ O)
        as [(e' & E' & _ & N)|(E' & _)]; [|congruence].
      rewrite N, E. reflexivity.
    - intros r k ocr_chars sample. rewrite outcome_bind.
      destruct (outcome_of (extract_menu_images _ _ _ _ _)) as [sr|];
        [|discriminate].
      destruct (not_found sr); [discriminate|].
      rewrite outcome_bind, process_images_eq. cbn [outcome_of snd ret].
      intros [= _ _ <- <-].
      destruct (str_truthy _) eqn:T.
      + apply take_length.
      + destruct (combined_text _); [reflexivity | discriminate T]. }
  destruct Hc as (H1 & H2 & H3 & H4).
  split; [|split; [|split]].
  - unfold all_events. now rewrite trace_http_guard.
  - unfold ocr_calls in *. now rewrite trace_http_guard.
  - intros sr e O E. apply outcome_http_guard_ok. now apply (H3 sr e).
  - intros r k ocr_chars sample O. apply (H4 r k ocr_chars sample).
    now apply (proj1 (outcome_http_guard_ok _ _)).
Qed.

(** A restaurant that is not found, and one whose photo holds sixty
    letters. *)
Example extract_simple_samples :
  extract_simple stale_world name_request
  = ([SerpSearch "Tandoori Treat Koramangala"],
     Ok (SimpleError "Restaurant not found on Google Maps"))
  /\ outcome_of (extract_simple rich_world name_request)
     = Ok (SimpleText (Some (info_of name_request bare_place)) 1 60
             (replicate 60 "a")).
Proof. split; reflexivity. Qed.

End SimpleFacts.

(** ** The pipeline *)

Section PipelineFacts.

Import Normalizer Ocr Mongo Serp Endpoints Tiers Pipeline.

Lemma split_on_head sep s : exists p rest, split_on sep s = p :: rest.
Proof.
  unfold split_on. pose proof (split_aux_nonempty sep 0 s) as H.
  destruct (split_aux sep 0 s) as [|p rest]; [congruence | eauto].
Qed.

(** When the separator occurs there are at least two pieces. *)
Lemma split_on_two a sep s :
  str_contains (String a sep) s = true ->
  exists p q rest, split_on (String a sep) s = p :: q :: rest.
Proof.
  induction s as [|c s IH]; [discriminate|].
  rewrite str_contains_cons. unfold split_on in *. cbn [split_aux].
  destruct (starts_with (String a sep) (String c s)) eqn:E; cbn [orb].
  - intros _.
    pose proof (split_aux_nonempty (String a sep)
                  (String.length (String a sep) - 1) s) as H.
    destruct (split_aux (String a sep) (String.length (String a sep) - 1) s)
      as [|q rest]; [congruence | eauto].
  - intros H. destruct (IH H) as (p & q & rest & ->). eauto.
Qed.

(** The first piece of a split on one character is a part of the string
    without that character. *)
Lemma first_piece c s p rest :
  split_on (String c EmptyString) s = p :: rest ->
  has_char c p = false
  /\ forall d, has_char d s = false -> has_char d p = false.
Proof.
  revert p rest; induction s as [|x s IH]; intros p rest H.
  - injection H as <- _. auto.
  - unfold split_on in *. cbn [split_aux starts_with] in H.
    rewrite andb_true_r in H.
    destruct (Ascii.eqb c x) eqn:E.
    + injection H as <- _. auto.
    + destruct (split_aux (String c EmptyString) 0 s) as [|p0 ps] eqn:S;
        [now apply split_aux_nonempty in S|].
      injection H as <- <-.
      destruct (IH p0 ps eq_refl) as (H1 & H2). split.
      * cbn [has_char]. rewrite (Ascii.eqb_sym x c), E. exact H1.
      * intros d Hd. cbn [has_char] in *.
        apply orb_false_iff in Hd as [Hx Hs]. rewrite Hx. now apply H2.
Qed.

(** The first piece is the string itself or what stands before the
    first occurrence of the character. *)
Lemma first_piece_split c s p rest :
  split_on (String c EmptyString) s = p :: rest ->
  s = p \/ exists t, s = (p ++ String c t)%string.
Proof.
  revert p rest; induction s as [|x s IH]; intros p rest H.
  - injection H as <- _. now left.
  - unfold split_on in *. cbn [split_aux starts_with] in H.
    rewrite andb_true_r in H.
    destruct (Ascii.eqb c x) eqn:E.
    + injection H as <- _. apply Ascii.eqb_eq in E as ->.
      right. now exists s.
    + destruct (split_aux (String c EmptyString) 0 s) as [|p0 ps] eqn:S;
        [now apply split_aux_nonempty in S|].
      injection H as <- <-.
      destruct (IH p0 ps eq_refl) as [->|(t & ->)]; [now left|].
      right. now exists t.
Qed.

Lemma replace_char_gone a b s :
  Ascii.eqb b a = false -> has_char a (replace_char a b s) = false.
Proof.
  intros H. induction s as [|c s IH]; [reflexivity|].
  cbn [replace_char has_char]. rewrite IH, orb_false_r.
  destruct (Ascii.eqb c a) eqn:E; [exact H | exact E].
Qed.

Lemma replace_char_keeps a b d s :
  Ascii.eqb b d = false -> has_char d s = false ->
  has_char d (replace_char a b s) = false.
Proof.
  intros Hb. induction s as [|c s IH]; intros H; [reflexivity|].
  cbn [replace_char has_char] in *.
  apply orb_false_iff in H as [Hc Hs]. rewrite (IH Hs), orb_false_r.
  destruct (Ascii.eqb c a); [exact Hb | exact Hc].
Qed.

(** X18.  [_parse_restaurant_from_url] never fails; the location it
    returns is always empty, the name is empty when the URL has no
    [/place/] part, and the name never holds a slash, a question mark, a
    plus or a hyphen. *)
Theorem parse_restaurant_from_url_name (url : string) :
  exists name,
    parse_restaurant_from_url url = Ok (name, EmptyString)
    /\ (str_contains "/place/" url = false -> name = EmptyString)
    /\ has_char "/" name = false
    /\ has_char "?" name = false
    /\ has_char "+" name = false
    /\ has_char "-" name = false.
Proof.
  unfold parse_restaurant_from_url.
  destruct (str_contains "/place/" url) eqn:C.
  - destruct (split_on_two _ _ _ C) as (p & rest & l1 & ->).
    destruct (split_on_head "/" rest) as (segment & l2 & E2).
    destruct (split_on_head "?" segment) as (path & l3 & E3).
    unfold py_nth at 1. cbn [nth_error rbind].
    rewrite E2. unfold py_nth at 1. cbn [nth_error rbind].
    rewrite E3. unfold py_nth. cbn [nth_error rbind].
    destruct (first_piece _ _ _ _ E2) as (S1 & _).
    destruct (first_piece _ _ _ _ E3) as (P1 & P2).
    pose proof (P2 _ S1) as P3.
    eexists. split; [reflexivity|]. split; [discriminate|].
    repeat split.
    + apply replace_char_keeps; [reflexivity|].
      apply replace_char_keeps; [reflexivity | exact P3].
    + apply replace_char_keeps; [reflexivity|].
      apply replace_char_keeps; [reflexivity | exact P1].
    + apply replace_char_keeps; [reflexivity|].
      apply replace_char_gone. reflexivity.
    + apply replace_char_gone. reflexivity.
  - exists EmptyString. repeat split; reflexivity.
Qed.

Example parse_place_url :
  parse_restaurant_from_url place_url
  = Ok ("Tandoori Treat Koramangala", EmptyString).
Proof. reflexivity. Qed.

Lemma normalize_value_raw_data model r text :
  normalize_value model (raw_data r text) EmptyString = ret (refusal model).
Proof. destruct model; reflexivity. Qed.

Lemma serp_not_gemini e : is_serp e = true -> not_gemini e = true.
Proof. now destruct e. Qed.

Lemma run_uncached_events w key url n l :
  all_events not_gemini (run_uncached w key url n l).
Proof.
  unfold run_uncached.
  apply all_events_bind.
  { destruct (str_truthy url && negb (str_truthy n));
      [apply all_events_lift | apply all_events_ret]. }
  intros [n' l'].
  destruct (negb (str_truthy n')); [apply all_events_ret|].
  apply all_events_bind.
  { eapply all_events_impl; [apply serp_not_gemini|].
    apply extract_menu_images_serp. }
  intros sr.
  assert (H : all_events not_gemini
                match urls_of sr with
                | [] => ret (NoImages (restaurant sr))
                | _ :: _ =>
                    (ocr_result <- process_images (text_detection w) (urls_of sr) ;;
                     normalized_menu <-
                       normalize_value (gemini_model w)
                         (raw_data (restaurant sr)
                            (join nlnl (map raw_text (items ocr_result))))
                         EmptyString ;;
                     emit (RedisSet key
                             (result_to_json (restaurant sr) normalized_menu
                                (List.length (urls_of sr)))) ;;;
                     ret (Extracted (restaurant sr) normalized_menu
                            (List.length (urls_of sr))))%io
                end).
  { destruct (urls_of sr) as [|u us] eqn:U; [apply all_events_ret|].
    apply all_events_bind.
    { rewrite process_images_eq. unfold all_events. cbn [trace fst].
      apply Forall_map. now apply Forall_forall. }
    intros o. rewrite normalize_value_raw_data.
    apply all_events_bind; [apply all_events_ret|]. intros nm.
    apply all_events_bind; [now apply all_events_emit|].
    intros; apply all_events_ret. }
  unfold urls_of in H.
  destruct (error sr), (image_urls sr); first [apply all_events_ret | exact H].
Qed.

Lemma run_uncached_extracted w key url n l r mi k :
  outcome_of (run_uncached w key url n l) = Ok (Extracted r mi k) ->
  mi = refusal (gemini_model w).
Proof.
  unfold run_uncached. rewrite outcome_bind.
  destruct (outcome_of _) as [[n' l']|]; [|discriminate].
  destruct (negb (str_truthy n')); [discriminate|].
  rewrite outcome_bind.
  destruct (outcome_of (extract_menu_images _ _ _ _ _)) as [sr|]; [|discriminate].
  assert (H : outcome_of
                match urls_of sr with
                | [] => ret (NoImages (restaurant sr))
                | _ :: _ =>
                    (ocr_result <- process_images (text_detection w) (urls_of sr) ;;
                     normalized_menu <-
                       normalize_value (gemini_model w)
                         (raw_data (restaurant sr)
                            (join nlnl (map raw_text (items ocr_result))))
                         EmptyString ;;
                     emit (RedisSet key
                             (result_to_json (restaurant sr) normalized_menu
                                (List.length (urls_of sr)))) ;;;
                     ret (Extracted (restaurant sr) normalized_menu
                            (List.length (urls_of sr))))%io
                end = Ok (Extracted r mi k) ->
              mi = refusal (gemini_model w)).
  { destruct (urls_of sr) as [|u us]; [discriminate|].
    rewrite outcome_bind.
    destruct (outcome_of (process_images _ _)) as [o|]; [|discriminate].
    rewrite normalize_value_raw_data. cbn. now intros [= _ <- _]. }
  unfold urls_of in H.
  destruct (error sr), (image_urls sr); first [discriminate | exact H].
Qed.

(** X19.  [ExtractionPipeline.run] never calls the structuring backend:
    it hands [normalize] a dict of two entries, which the length guard
    refuses, so the [menu_items] of an extracted result is always the
    error object of that guard (or of the missing configuration). *)
Theorem run_never_reaches_backend (w : world) (url n l : string) :
  all_events not_gemini (run w url n l)
  /\ forall r menu_items k,
       outcome_of (run w url n l) = Ok (Extracted r menu_items k) ->
       menu_items = refusal (gemini_model w).
Proof.
  unfold run. split.
  - apply all_events_bind; [now apply all_events_emit|]. intros _.
    destruct (redis_get w _) as [cached|]; [|apply run_uncached_events].
    destruct (truthy cached); [apply all_events_ret | apply run_uncached_events].
  - intros r mi k. rewrite outcome_bind. cbn [emit outcome_of snd].
    destruct (redis_get w _) as [cached|];
      [|apply run_uncached_extracted].
    destruct (truthy cached); [discriminate | apply run_uncached_extracted].
Qed.

Example rich_world_run :
  outcome_of (run rich_world "" "Tandoori Treat" "Koramangala")
  = Ok (Extracted (Some (info_of name_request bare_place))
          (NormError "Insufficient text") 1).
Proof. reflexivity. Qed.

(** X20.  The pipeline serves what [extract_menu] wrote without looking
    at its item count: after a fresh answer to a request with a name and
    a location, when the write of the entry reached the fast cache, [run]
    with the same name and location returns the written entry from the
    fast cache, with one cache read and no other call, also when the
    entry records no item. *)
Theorem run_serves_written_entry (landed : event -> bool) (w : world)
  (request : MenuRequest) (n l : string) (r : option restaurant_info)
  (menu : option menu) (meta : meta) :
  restaurant_name request = Some n ->
  location request = Some l ->
  str_truthy n = true ->
  outcome_of (extract_menu w request) = Ok (Fresh r menu meta) ->
  landed (RedisSet (n ++ "_" ++ l) (JDict (entry_fields r menu meta))) = true ->
  run (after landed (trace (extract_menu w request)) w) EmptyString n l
  = ([RedisGet (n ++ "_" ++ l)],
     Ok (FromCache (JDict (entry_fields r menu meta)))).
Proof.
  intros Hn Hl Tn H L.
  assert (Hn' : opt_str_truthy (restaurant_name request) = true)
    by now rewrite Hn.
  assert (K : request_key request = (n ++ "_" ++ l)%string).
  { unfold request_key. now rewrite Hn, Hl. }
  rewrite <- K in L.
  destruct (written_entry_in_cache landed w request r menu meta Hn' H L)
    as (G & _).
  rewrite K in G.
  unfold run. cbn [str_truthy String.eqb negb]. rewrite G. reflexivity.
Qed.

Lemma run_serves_written_entry_witness :
  exists r menu meta,
    items_count meta = 0
    /\ run (after all_landed
              (trace (extract_menu barren_world name_request)) barren_world)
         EmptyString "Tandoori Treat" "Koramangala"
       = ([RedisGet ("Tandoori Treat" ++ "_" ++ "Koramangala")],
          Ok (FromCache (JDict (entry_fields r menu meta)))).
Proof.
  do 3 eexists. split; cycle 1.
  - apply (run_serves_written_entry all_landed barren_world name_request
             "Tandoori Treat" "Koramangala"); reflexivity.
  - reflexivity.
Defined.

End PipelineFacts.

(** ** The endpoints of the stored menus *)

Section AdminFacts.

Import Normalizer Ocr Mongo Store Serp Endpoints Tiers.

Lemma check_cache_absent w request :
  redis_get w (request_key request) = None ->
  outcome_of (check_cache w request) = Ok None.
Proof.
  intros H. unfold check_cache, cache_key_of.
  destruct (opt_str_truthy (restaurant_name request)); [|reflexivity].
  fold (request_key request).
  destruct (str_truthy (request_key request)); [|reflexivity].
  rewrite outcome_bind. cbn [emit outcome_of snd]. rewrite H. reflexivity.
Qed.

(** X21.  When the store answers and the delete of the cache entry
    succeeds, [DELETE /menus/{name}] removes the entry of the fast cache
    whether it answers 200 or 404: the next [extract_menu] request with
    that name and location is not answered from the fast cache.  (A
    failed cache delete is swallowed and leaves the entry, and a store
    that does not answer skips the cache delete.) *)
Theorem delete_endpoint_invalidates_cache (w : world)
  (request : MenuRequest) (n l : string) (r : response) :
  restaurant_name request = Some n ->
  location request = Some l ->
  outcome_of (extract_menu (snd (Admin.delete_menu true true w n l)) request)
  = Ok r ->
  forall d, r <> CacheHit d.
Proof.
  intros Hn Hl H d ->.
  apply extract_menu_hit in H; [|now left].
  apply resolve_hit in H as [H|H].
  - rewrite check_cache_absent in H; [discriminate|].
    unfold request_key. rewrite Hn, Hl. cbn [fmt or_else].
    unfold Admin.delete_menu. cbn [snd Admin.redis_delete redis_get].
    now rewrite String.eqb_refl.
  - apply check_mongo_hit in H as (doc & rj & m & mt & _ & H & _).
    discriminate H.
Qed.

Lemma delete_endpoint_invalidates_cache_witness :
  (exists d, outcome_of (extract_menu stocked_world name_request)
             = Ok (CacheHit d))
  /\ (exists r,
        outcome_of
          (extract_menu
             (snd (Admin.delete_menu true true stocked_world "Tandoori Treat"
                     "Koramangala"))
             name_request) = Ok r
        /\ forall d, r <> CacheHit d).
Proof.
  split; [eexists; lazy; reflexivity|].
  eexists. split; [lazy; reflexivity|].
  apply (delete_endpoint_invalidates_cache stocked_world name_request
           "Tandoori Treat" "Koramangala"); reflexivity.
Defined.

(** When the cache delete fails, or the store does not answer, the entry
    stays and the next request is answered from the fast cache. *)
Example failed_delete_leaves_cache_entry :
  fst (Admin.delete_menu true false stocked_world "Tandoori Treat"
         "Koramangala")
  = Ok "Menu for Tandoori Treat deleted"
  /\ source_of_outcome
       (extract_menu
          (snd (Admin.delete_menu true false stocked_world "Tandoori Treat"
                  "Koramangala"))
          name_request) = Some "cache"
  /\ fst (Admin.delete_menu false true stocked_world "Tandoori Treat"
            "Koramangala")
     = Raise (HTTPException 500 EmptyString)
  /\ source_of_outcome
       (extract_menu
          (snd (Admin.delete_menu false true stocked_world "Tandoori Treat"
                  "Koramangala"))
          name_request) = Some "cache".
Proof. repeat split; reflexivity. Qed.

Lemma delete_query_lookup n l d :
  delete_query n l d = true -> lookup_matches n l d = true.
Proof.
  unfold delete_query, lookup_matches, field_is, name_contains,
    location_contains.
  intros H. apply andb_true_iff in H as [Hn Hl].
  destruct (assoc "restaurant_name" d) as [[| | |s| |]|]; try discriminate.
  apply String.eqb_eq in Hn as ->. rewrite ci_contains_refl. cbn [andb].
  destruct (str_truthy l); [|reflexivity].
  destruct (assoc "location" d) as [[| | |s| |]|]; try discriminate.
  apply String.eqb_eq in Hl as ->. apply ci_contains_refl.
Qed.

(** X22.  Let the name be non-empty, and let neither the name nor the
    location hold a pattern character.  Whenever
    [DELETE /menus/{name}] answers 200, [GET /menus/{name}] with the same
    name and location on the same store, when the store answers, returns
    a stored document whose name and location contain the given ones: the
    deletion is by exact value, the lookup by case-insensitive
    substring.  (With a pattern character in the name this fails: the
    lookup reads the name as a pattern.) *)
Theorem deletable_menu_is_found (store_up cache_up : bool) (w : world)
  (n l msg : string) :
  n <> EmptyString -> literal n = true -> literal l = true ->
  fst (Admin.delete_menu store_up cache_up w n l) = Ok msg ->
  exists doc,
    Admin.get_menu true w n l = ([MongoFind n], Ok doc)
    /\ In doc (menus w) /\ lookup_matches n l doc = true.
Proof.
  intros Hn Ln Ll H. unfold Admin.delete_menu in H.
  destruct store_up; [|discriminate H]. cbn [fst] in H.
  unfold delete_menu in H.
  pose proof (delete_first_spec (delete_query n l) (menus w)) as D.
  destruct (delete_first (delete_query n l) (menus w)) as [ms|];
    [|discriminate H].
  destruct D as (E & _). apply existsb_exists in E as (d & Hd & Q).
  apply delete_query_lookup in Q.
  destruct (find_first _ _ _ Hd Q) as (y & Fy & Iy & My).
  exists y. split; [|split; assumption].
  unfold Admin.get_menu. rewrite (get_menu_literal _ _ _ Hn Ln Ll), Fy.
  rewrite bind_ok.
  destruct y as [|kv y]; [|reflexivity].
  discriminate My.
Qed.

Lemma deletable_menu_is_found_witness :
  exists doc,
    Admin.get_menu true stocked_world "Tandoori Treat" "Koramangala"
    = ([MongoFind "Tandoori Treat"], Ok doc)
    /\ In doc (menus stocked_world)
    /\ lookup_matches "Tandoori Treat" "Koramangala" doc = true.
Proof.
  apply (deletable_menu_is_found true true stocked_world "Tandoori Treat"
           "Koramangala" "Menu for Tandoori Treat deleted");
    [discriminate | reflexivity | reflexivity | reflexivity].
Defined.

(** The converse fails: a lookup in lower case finds the menu, the
    deletion with the same words answers 404 and leaves it stored.  And
    with a pattern character in the name the deletion answers 200 where
    the lookup answers 404. *)
Example lookup_finds_what_delete_misses :
  outcome_of (Admin.get_menu true stocked_world "tandoori" "")
  = Ok (sample_document "Tandoori Treat" "Koramangala")
  /\ fst (Admin.delete_menu true true stocked_world "tandoori" "")
     = Raise (HTTPException 404 "Menu not found")
  /\ menus (snd (Admin.delete_menu true true stocked_world "tandoori" ""))
     = menus stocked_world
  /\ fst (Admin.delete_menu true true
            (Admin.with_menus [sample_document "A+B Cafe" "Koramangala"]
               stocked_world)
            "A+B Cafe" "")
     = Ok "Menu for A+B Cafe deleted"
  /\ outcome_of
       (Admin.get_menu true
          (Admin.with_menus [sample_document "A+B Cafe" "Koramangala"]
             stocked_world)
          "A+B Cafe" "")
     = Raise (HTTPException 404 "Menu not found").
Proof. repeat split; reflexivity. Qed.

End AdminFacts.

(** ** The image URLs of Google Maps *)

Section GmapsFacts.

Import Gmaps.

(** X23.  [_upgrade_quality] never fails and is idempotent: upgrading an
    upgraded URL gives it back.  A URL without [googleusercontent] is
    returned as it is; otherwise the result is the part before the first
    [=] followed by [=w2000-h2000]. *)
Theorem upgrade_quality_idempotent (url : string) :
  exists u,
    upgrade_quality url = Ok u
    /\ upgrade_quality u = Ok u
    /\ (str_contains "googleusercontent" url = false -> u = url)
    /\ (str_contains "googleusercontent" url = true ->
        exists base,
          u = (base ++ "=w2000-h2000")%string
          /\ has_char "=" base = false
          /\ (url = base \/ exists t, url = (base ++ "=" ++ t)%string)).
Proof.
  unfold upgrade_quality at 1.
  destruct (str_contains "googleusercontent" url) eqn:C.
  - destruct (split_on_head "=" url) as (base & rest & E).
    rewrite E. unfold py_nth. cbn [nth_error rbind].
    destruct (first_piece _ _ _ _ E) as (B & _).
    pose proof (first_piece_split _ _ _ _ E) as P.
    eexists. split; [reflexivity|]. split; [|split; [discriminate|eauto]].
    unfold upgrade_quality.
    destruct (str_contains "googleusercontent" (base ++ "=w2000-h2000"));
      [|reflexivity].
    change (base ++ "=w2000-h2000")%string
      with (base ++ "=" ++ "w2000-h2000")%string.
    rewrite (split_on_before "=" EmptyString base "w2000-h2000" B).
    reflexivity.
  - exists url. split; [reflexivity|]. split; [|split; [reflexivity|discriminate]].
    unfold upgrade_quality. now rewrite C.
Qed.

Example upgrade_quality_sample :
  upgrade_quality "https://lh5.googleusercontent.com/p/AF1Qip=w203-h152-k-no"
  = Ok "https://lh5.googleusercontent.com/p/AF1Qip=w2000-h2000"
  /\ upgrade_quality "https://example.com/a=b" = Ok "https://example.com/a=b".
Proof. split; reflexivity. Qed.

End GmapsFacts.
